(** * The Bio-Rad documentation downloader, embedded in Rocq

    The Go program (package main) crawls listing pages, pulls document
    URLs out of the rendered markup, derives a file name for every URL and
    downloads the documents with a pool of workers.  This development
    embeds the four components the specification is about, from the
    version of the source that extracts the links with goquery:

    - [createFileNameFromURL]  the file-name deriver,
    - [extractLinksFromHTML]   the link extractor,
    - [downloadPDFFile]        the downloader,
    - [workerDownloadPDF] and the dispatching part of [main], as a
      transition system over the states of the goroutines.

    Go strings are byte strings; they are modelled by Rocq's [string]
    (a list of 8-bit [ascii]).  The parts of Go's standard library the
    program calls ([strings], [path], [regexp], [net/url]) are modelled by
    executable functions; the HTML parser, the operating system and the
    HTTP transport are interfaces, with small reference implementations
    on which the functions can be run. *)

From Stdlib Require Import Ascii ZArith Lia Bool Permutation.
From Stdlib Require Import DecimalString.
From Stdlib Require String.
From stdpp Require Import base option list gmap strings.

Local Open Scope Z_scope.
Local Open Scope nat_scope.
Local Open Scope stdpp_scope.

Set Warnings "-register-all".

(** ** Bytes *)

Module Byte_.

Definition code (c : ascii) : nat := nat_of_ascii c.

Definition between (lo hi c : ascii) : bool :=
  (code lo <=? code c) && (code c <=? code hi).

Definition isUpper (c : ascii) : bool := between "A" "Z" c.
Definition isLower (c : ascii) : bool := between "a" "z" c.
Definition isDigit (c : ascii) : bool := between "0" "9" c.

(** The class [A-Za-z0-9]. *)
Definition isAlnum (c : ascii) : bool := isUpper c || isLower c || isDigit c.

Definition eqb (a b : ascii) : bool := Ascii.eqb a b.

(** The double quote. *)
Definition dquote : ascii := ascii_of_nat 34.

(** ASCII lower-casing of one byte: 'A'..'Z' move up by 32. *)
Definition toLower (c : ascii) : ascii :=
  if isUpper c then ascii_of_nat (code c + 32) else c.

Definition ishex (c : ascii) : bool :=
  isDigit c || between "a" "f" c || between "A" "F" c.

Definition unhex (c : ascii) : nat :=
  if isDigit c then code c - code "0"
  else if between "a" "f" c then code c - code "a" + 10
  else if between "A" "F" c then code c - code "A" + 10
  else 0.

(** Membership of a byte in a cut set, as in [strings.ContainsRune] on an
    ASCII set. *)
Fixpoint inSet (set : string) (c : ascii) : bool :=
  match set with
  | EmptyString => false
  | String a set' => eqb a c || inSet set' c
  end.

End Byte_.

(** ** Package [strings] *)

Fixpoint string_forallb (p : ascii → bool) (s : string) : bool :=
  match s with
  | EmptyString => true
  | String c s' => p c && string_forallb p s'
  end.

Fixpoint string_filter (p : ascii → bool) (s : string) : string :=
  match s with
  | EmptyString => EmptyString
  | String c s' => if p c then String c (string_filter p s') else string_filter p s'
  end.

Fixpoint string_drop (n : nat) (s : string) : string :=
  match n, s with
  | O, _ => s
  | S n', String _ s' => string_drop n' s'
  | S _, EmptyString => EmptyString
  end.

Fixpoint string_take (n : nat) (s : string) : string :=
  match n, s with
  | S n', String c s' => String c (string_take n' s')
  | _, _ => EmptyString
  end.

(** [strings.HasPrefix(s, prefix)]. *)
Definition strings_HasPrefix (s prefix : string) : bool := String.prefix prefix s.

(** [strings.HasSuffix(s, suffix)]: some tail of [s] is [suffix]. *)
Fixpoint strings_HasSuffix (s suffix : string) : bool :=
  String.eqb s suffix ||
  match s with
  | EmptyString => false
  | String _ s' => strings_HasSuffix s' suffix
  end.

(** [strings.Contains(s, substr)]: [substr] is a prefix of some tail. *)
Fixpoint strings_Contains (s substr : string) : bool :=
  String.prefix substr s ||
  match s with
  | EmptyString => false
  | String _ s' => strings_Contains s' substr
  end.

(** The first occurrence of [sep] in [s]: the text before it and the text
    after it ([strings.Index] followed by the two slicings every caller
    makes). *)
Fixpoint cutAtIndex (s sep : string) : option (string * string) :=
  if String.prefix sep s then Some (EmptyString, string_drop (String.length sep) s)
  else match s with
       | EmptyString => None
       | String c s' =>
           match cutAtIndex s' sep with
           | Some (before, after) => Some (String c before, after)
           | None => None
           end
       end.

(** [strings.Cut(s, sep)]. *)
Definition strings_Cut (s sep : string) : string * string * bool :=
  match cutAtIndex s sep with
  | Some (before, after) => (before, after, true)
  | None => (s, EmptyString, false)
  end.

(** The loop of [strings.genSplit] for a non-empty separator: at most
    [n] cuts, stopping as soon as [strings.Index] finds nothing. *)
Fixpoint genSplit (n : nat) (s sep : string) : list string :=
  match n with
  | O => [s]
  | S n' =>
      match cutAtIndex s sep with
      | None => [s]
      | Some (before, after) => before :: genSplit n' after sep
      end
  end.

(** [strings.Split(s, sep)] for a non-empty [sep] (the program only splits
    on the constants "~~" and "~https://").  [genSplit] caps the number of
    pieces at [len(s)+1], hence the bound on the cuts. *)
Definition strings_Split (s sep : string) : list string :=
  genSplit (String.length s) s sep.

(** [strings.Join(elems, sep)]. *)
Fixpoint strings_Join (elems : list string) (sep : string) : string :=
  match elems with
  | [] => EmptyString
  | [e] => e
  | e :: rest => e +:+ sep +:+ strings_Join rest sep
  end.

(** [strings.TrimSuffix(s, suffix)]. *)
Definition strings_TrimSuffix (s suffix : string) : string :=
  if strings_HasSuffix s suffix
  then string_take (String.length s - String.length suffix) s
  else s.

Fixpoint trimLeftFunc (p : ascii → bool) (s : string) : string :=
  match s with
  | EmptyString => EmptyString
  | String c s' => if p c then trimLeftFunc p s' else s
  end.

Fixpoint trimRightFunc (p : ascii → bool) (s : string) : string :=
  match s with
  | EmptyString => EmptyString
  | String c s' =>
      match trimRightFunc p s' with
      | EmptyString => if p c then EmptyString else String c EmptyString
      | t => String c t
      end
  end.

(** [strings.Trim(s, cutset)] for an ASCII cut set: leading and trailing
    bytes of the cut set are removed. *)
Definition strings_Trim (s cutset : string) : string :=
  trimRightFunc (Byte_.inSet cutset) (trimLeftFunc (Byte_.inSet cutset) s).

Fixpoint string_map (f : ascii → ascii) (s : string) : string :=
  match s with
  | EmptyString => EmptyString
  | String c s' => String (f c) (string_map f s')
  end.

(** [strings.ToLower(s)] on ASCII text.  (Go maps non-ASCII runes through
    the Unicode tables; the program only calls it on the output of the
    sanitizer, which is ASCII: see [cleaned_segment_charset].) *)
Definition strings_ToLower (s : string) : string := string_map Byte_.toLower s.

Fixpoint string_count (c : ascii) (s : string) : nat :=
  match s with
  | EmptyString => 0
  | String a s' => (if Byte_.eqb a c then 1 else 0) + string_count c s'
  end.

(** The last occurrence of a non-empty [sep] in [s] ([strings.LastIndex]
    with the two slicings around it). *)
Fixpoint cutAtLastIndex (s sep : string) : option (string * string) :=
  match s with
  | EmptyString => None
  | String c s' =>
      match cutAtLastIndex s' sep with
      | Some (before, after) => Some (String c before, after)
      | None =>
          if String.prefix sep s
          then Some (EmptyString, string_drop (String.length sep) s)
          else None
      end
  end.

(** ** Package [path] *)

Fixpoint afterLastSlash (s : string) : string :=
  match s with
  | EmptyString => EmptyString
  | String _ s' => if strings_Contains s "/" then afterLastSlash s' else s
  end.

(** [path.Base]: the last element of the path; trailing slashes are removed
    first; "." for the empty path and "/" for a path of slashes only. *)
Definition path_Base (p : string) : string :=
  if String.eqb p EmptyString then "."
  else
    let p := trimRightFunc (Byte_.eqb "/") p in
    let p := afterLastSlash p in
    if String.eqb p EmptyString then "/" else p.

(** ** Package [regexp]

    The program compiles one pattern, [[^A-Za-z0-9]+]: one or more bytes
    outside a class, matched greedily.  A compiled pattern of that shape is
    its class.  Go matches runes, not bytes; every byte of a multi-byte or
    invalid UTF-8 sequence is outside [A-Za-z0-9], so runs of runes outside
    the class and runs of bytes outside the class are the same runs. *)

Record Regexp := { re_class : ascii → bool }.

(** [ReplaceAllString] for such a pattern: the leftmost match starts at the
    first byte of the class and, being greedy, extends over the whole run;
    the scan resumes after it.  [inMatch] tells that the previous byte
    belongs to a match that was already replaced. *)
Fixpoint replaceRuns (cls : ascii → bool) (repl : string) (inMatch : bool)
    (src : string) : string :=
  match src with
  | EmptyString => EmptyString
  | String c src' =>
      if cls c
      then if inMatch then replaceRuns cls repl true src'
           else repl +:+ replaceRuns cls repl true src'
      else String c (replaceRuns cls repl false src')
  end.

Definition Regexp_ReplaceAllString (re : Regexp) (src repl : string) : string :=
  replaceRuns (re_class re) repl false src.

(** ** Package [net/url]

    [url.Parse] and [URL.Query] after Go's net/url: what the program reads
    from a parsed URL is [Path] and [RawQuery]; the user information is
    validated as Go does but not stored. *)

Module url.

Inductive encoding :=
  | encodePath | encodeHost | encodeZone | encodeUserPassword
  | encodeQueryComponent | encodeFragment.

Definition isHostMode (mode : encoding) : bool :=
  match mode with encodeHost | encodeZone => true | _ => false end.

Definition shouldEscape (c : ascii) (mode : encoding) : bool :=
  if Byte_.isAlnum c then false
  else if isHostMode mode
          && (Byte_.inSet "!$&'()*+,;=:[]<>" c || Byte_.eqb c Byte_.dquote)
  then false
  else if Byte_.inSet "-_.~" c then false
  else if Byte_.inSet "$&+,/:;=?@" c then
    match mode with
    | encodePath => Byte_.eqb c "?"
    | encodeUserPassword => Byte_.inSet "@/?:" c
    | encodeQueryComponent => true
    | encodeFragment => false
    | encodeHost | encodeZone => true
    end
  else if match mode with encodeFragment => Byte_.inSet "!()*" c | _ => false end
  then false
  else true.

Definition hexByte (h1 h2 : ascii) : ascii :=
  ascii_of_nat (16 * Byte_.unhex h1 + Byte_.unhex h2).

(** [unescape(s, mode)]; [None] is an [EscapeError] or [InvalidHostError]. *)
Fixpoint unescape (s : string) (mode : encoding) : option string :=
  match s with
  | EmptyString => Some EmptyString
  | String c rest =>
      if Byte_.eqb c "%" then
        match rest with
        | String h1 (String h2 rest') =>
            let is25 := Byte_.eqb h1 "2" && Byte_.eqb h2 "5" in
            if negb (Byte_.ishex h1 && Byte_.ishex h2) then None
            else if match mode with
                    | encodeHost => (Byte_.unhex h1 <? 8) && negb is25
                    | encodeZone =>
                        negb is25 && negb (Byte_.eqb (hexByte h1 h2) " ")
                        && shouldEscape (hexByte h1 h2) encodeHost
                    | _ => false
                    end
            then None
            else match unescape rest' mode with
                 | Some t => Some (String (hexByte h1 h2) t)
                 | None => None
                 end
        | _ => None
        end
      else if Byte_.eqb c "+" then
        match unescape rest mode with
        | Some t =>
            Some (String (match mode with
                          | encodeQueryComponent => " "%char
                          | _ => "+"%char
                          end) t)
        | None => None
        end
      else if isHostMode mode && (Byte_.code c <? 128) && shouldEscape c mode
      then None
      else match unescape rest mode with
           | Some t => Some (String c t)
           | None => None
           end
  end.

Definition QueryUnescape (s : string) : option string :=
  unescape s encodeQueryComponent.

Definition stringContainsCTLByte (s : string) : bool :=
  negb (string_forallb
          (fun b => negb ((Byte_.code b <? 32) || (Byte_.code b =? 127))) s).

(** [getScheme]: [None] is the error "missing protocol scheme". *)
Fixpoint getSchemeLoop (rawURL : string) (i : nat) (s : string)
    : option (string * string) :=
  match s with
  | EmptyString => Some (EmptyString, rawURL)
  | String c s' =>
      if Byte_.isLower c || Byte_.isUpper c then getSchemeLoop rawURL (S i) s'
      else if Byte_.isDigit c || Byte_.inSet "+-." c then
        match i with
        | O => Some (EmptyString, rawURL)
        | S _ => getSchemeLoop rawURL (S i) s'
        end
      else if Byte_.eqb c ":" then
        match i with
        | O => None
        | S _ => Some (string_take i rawURL, s')
        end
      else Some (EmptyString, rawURL)
  end.

Definition getScheme (rawURL : string) : option (string * string) :=
  getSchemeLoop rawURL 0 rawURL.

Definition validOptionalPort (port : string) : bool :=
  match port with
  | EmptyString => true
  | String c digits => Byte_.eqb c ":" && string_forallb Byte_.isDigit digits
  end.

Definition validUserinfo (s : string) : bool :=
  string_forallb
    (fun r => Byte_.isAlnum r || Byte_.inSet "-._:~!$&'()*+,;=%@" r) s.

(** [parseHost]: the host, unescaped; [None] is an error. *)
Definition parseHost (host : string) : option string :=
  let plain := unescape host encodeHost in
  if strings_HasPrefix host "[" then
    match cutAtLastIndex host "]" with
    | None => None
    | Some (beforeBracket, colonPort) =>
        if negb (validOptionalPort colonPort) then None
        else match cutAtIndex beforeBracket "%25" with
             | Some (host1, zoneRest) =>
                 match unescape host1 encodeHost,
                       unescape ("%25" +:+ zoneRest) encodeZone,
                       unescape ("]" +:+ colonPort) encodeHost with
                 | Some h1, Some h2, Some h3 => Some (h1 +:+ h2 +:+ h3)
                 | _, _, _ => None
                 end
             | None => plain
             end
    end
  else
    match cutAtLastIndex host ":" with
    | Some (_, port) =>
        if negb (validOptionalPort (":" +:+ port)) then None else plain
    | None => plain
    end.

(** [parseAuthority]: the host; [None] is an error. *)
Definition parseAuthority (authority : string) : option string :=
  match cutAtLastIndex authority "@" with
  | None => parseHost authority
  | Some (userinfo, hostport) =>
      match parseHost hostport with
      | None => None
      | Some host =>
          if negb (validUserinfo userinfo) then None
          else if negb (strings_Contains userinfo ":") then
            match unescape userinfo encodeUserPassword with
            | Some _ => Some host
            | None => None
            end
          else
            let '(username, password, _) := strings_Cut userinfo ":" in
            match unescape username encodeUserPassword,
                  unescape password encodeUserPassword with
            | Some _, Some _ => Some host
            | _, _ => None
            end
      end
  end.

Record URL := {
  Scheme : string;
  Opaque : string;
  Host : string;
  Path : string;
  ForceQuery : bool;
  RawQuery : string;
  Fragment : string
}.

(** [parse(rawURL, viaRequest = false)]. *)
Definition parse (rawURL : string) : option URL :=
  if stringContainsCTLByte rawURL then None
  else if String.eqb rawURL "*" then
    Some {| Scheme := EmptyString; Opaque := EmptyString; Host := EmptyString; Path := "*";
            ForceQuery := false; RawQuery := EmptyString; Fragment := EmptyString |}
  else
    match getScheme rawURL with
    | None => None
    | Some (scheme, rest) =>
        let scheme := strings_ToLower scheme in
        let '(rest, rawQuery, forceQuery) :=
          if strings_HasSuffix rest "?" && (string_count "?" rest =? 1)
          then (string_take (String.length rest - 1) rest, EmptyString, true)
          else let '(before, after, _) := strings_Cut rest "?" in
               (before, after, false) in
        let rooted := strings_HasPrefix rest "/" in
        if negb rooted && negb (String.eqb scheme EmptyString) then
          Some {| Scheme := scheme; Opaque := rest; Host := EmptyString; Path := EmptyString;
                  ForceQuery := forceQuery; RawQuery := rawQuery;
                  Fragment := EmptyString |}
        else if negb rooted
                && strings_Contains (fst (fst (strings_Cut rest "/"))) ":"
        then None
        else
          let withAuthority :=
            (negb (String.eqb scheme EmptyString) || negb (strings_HasPrefix rest "///"))
            && strings_HasPrefix rest "//" in
          let authority_rest :=
            if withAuthority then
              let authority := string_drop 2 rest in
              match cutAtIndex authority "/" with
              | Some (a, r) => (Some a, "/" +:+ r)
              | None => (Some authority, EmptyString)
              end
            else (None, rest) in
          let host :=
            match fst authority_rest with
            | Some authority => parseAuthority authority
            | None => Some EmptyString
            end in
          match host, unescape (snd authority_rest) encodePath with
          | Some host, Some path =>
              Some {| Scheme := scheme; Opaque := EmptyString; Host := host;
                      Path := path; ForceQuery := forceQuery;
                      RawQuery := rawQuery; Fragment := EmptyString |}
          | _, _ => None
          end
    end.

(** [url.Parse]. *)
Definition Parse (rawURL : string) : option URL :=
  let '(u, frag, _) := strings_Cut rawURL "#" in
  match parse u with
  | None => None
  | Some url =>
      if String.eqb frag EmptyString then Some url
      else match unescape frag encodeFragment with
           | Some f =>
               Some {| Scheme := Scheme url; Opaque := Opaque url;
                       Host := Host url; Path := Path url;
                       ForceQuery := ForceQuery url;
                       RawQuery := RawQuery url; Fragment := f |}
           | None => None
           end
  end.

(** [url.Values]: [map[string][]string]. *)
Abbreviation Values := (gmap string (list string)).

(** The loop of [parseQuery]; every turn consumes a byte of [query], so
    [String.length query] turns are enough.  Pairs that do not decode are
    skipped ([URL.Query] drops the error). *)
Fixpoint parseQueryLoop (n : nat) (m : Values) (query : string) : Values :=
  match n with
  | O => m
  | S n' =>
      if String.eqb query EmptyString then m
      else
        let '(key, query', _) := strings_Cut query "&" in
        if strings_Contains key ";" then parseQueryLoop n' m query'
        else if String.eqb key EmptyString then parseQueryLoop n' m query'
        else
          let '(key, value, _) := strings_Cut key "=" in
          match QueryUnescape key, QueryUnescape value with
          | Some key, Some value =>
              parseQueryLoop n' (<[key := default [] (m !! key) ++ [value]]> m)
                query'
          | _, _ => parseQueryLoop n' m query'
          end
  end.

(** [u.Query()]. *)
Definition Query (u : URL) : Values :=
  parseQueryLoop (String.length (RawQuery u)) ∅ (RawQuery u).

(** [v.Get(key)]: the first value of the key, or EmptyString. *)
Definition Get (v : Values) (key : string) : string :=
  match v !! key with
  | Some (first :: _) => first
  | _ => EmptyString
  end.

End url.

(** ** The file-name deriver: [createFileNameFromURL] *)

(** The pattern compiled by [regexp.MustCompile(`[^A-Za-z0-9]+`)]. *)
Definition sanitize : Regexp :=
  {| re_class := fun c => negb (Byte_.isAlnum c) |}.

(** The body of the cleaning loop: one segment, cleaned and appended to
    [cleaned] unless it became empty. *)
Definition cleanStep (cleaned : list string) (seg : string) : list string :=
  let seg := Regexp_ReplaceAllString sanitize seg "-" in
  let seg := strings_Trim seg "-" in
  let seg := strings_ToLower seg in
  if negb (String.eqb seg EmptyString) then cleaned ++ [seg] else cleaned.

(** What the function does once the URL is parsed. *)
Definition fileNameOfParsed (parsedURL : url.URL) : string :=
  (* 1) the "prd" parameter, split on "~~" *)
  let prd := url.Get (url.Query parsedURL) "prd" in
  let parts := if negb (String.eqb prd EmptyString) then strings_Split prd "~~" else [] in
  (* 2) fallback: the base name of the path *)
  let parts :=
    if length parts =? 0 then
      let base := path_Base (url.Path parsedURL) in
      let base := strings_TrimSuffix base ".pdf" in
      parts ++ [base]
    else parts in
  (* 3) clean each segment *)
  let cleaned := fold_left cleanStep parts [] in
  (* 4) join with "-" and ensure ".pdf" *)
  let filename := strings_Join cleaned "-" in
  if negb (strings_HasSuffix filename ".pdf") then filename +:+ ".pdf"
  else filename.

Definition createFileNameFromURL (rawURL : string) : string :=
  match url.Parse rawURL with
  | None => "invalid-url.pdf"
  | Some parsedURL => fileNameOfParsed parsedURL
  end.

(** ** The link extractor: [extractLinksFromHTML] *)

(** The node tree of golang.org/x/net/html, as goquery reads it. *)
Module html.

Inductive NodeType :=
  | ErrorNode | TextNode | DocumentNode | ElementNode | CommentNode
  | DoctypeNode.

Record Attribute := { Key : string; Val : string }.

Inductive Node :=
  | mkNode (type : NodeType) (data : string) (attr : list Attribute)
      (children : list Node).

Definition Type_ (n : Node) : NodeType := let (t, _, _, _) := n in t.
Definition Data (n : Node) : string := let (_, d, _, _) := n in d.
Definition Attr (n : Node) : list Attribute := let (_, _, a, _) := n in a.
Definition Children (n : Node) : list Node := let (_, _, _, c) := n in c.

Definition isElement (n : Node) : bool :=
  match Type_ n with ElementNode => true | _ => false end.

(** A node followed by its descendants, in document order. *)
Fixpoint preorder (n : Node) : list Node :=
  match n with
  | mkNode _ _ _ children =>
      n :: (fix siblings (l : list Node) : list Node :=
              match l with
              | [] => []
              | c :: l' => preorder c ++ siblings l'
              end) children
  end.

End html.

(** The part of goquery (and of its selector engine, cascadia) the program
    uses: [Find] with a tag selector, possibly with one attribute test, the
    iteration [Each] over the matches in document order, and [Attr]. *)
Module goquery.

Inductive Selector :=
  | Tag (tag : string)
  | TagWithAttr (tag key val : string).

Definition hasAttrValue (key val : string) (n : html.Node) : bool :=
  existsb (fun a => String.eqb (html.Key a) key && String.eqb (html.Val a) val)
    (html.Attr n).

Definition matches (sel : Selector) (n : html.Node) : bool :=
  match sel with
  | Tag tag => html.isElement n && String.eqb (html.Data n) tag
  | TagWithAttr tag key val =>
      html.isElement n && String.eqb (html.Data n) tag && hasAttrValue key val n
  end.

(** cascadia's [MatchAll]: the node itself and its descendants. *)
Definition MatchAll (sel : Selector) (n : html.Node) : list html.Node :=
  List.filter (matches sel) (html.preorder n).

(** [doc.Find(sel)]: the matches below the element children of the root. *)
Definition Find (doc : html.Node) (sel : Selector) : list html.Node :=
  flat_map (fun c => if html.isElement c then MatchAll sel c else [])
    (html.Children doc).

(** [s.Attr(name)]: the value of the first attribute of that name. *)
Fixpoint getAttributeValue (name : string) (attrs : list html.Attribute)
    : option string :=
  match attrs with
  | [] => None
  | a :: rest =>
      if String.eqb (html.Key a) name then Some (html.Val a)
      else getAttributeValue name rest
  end.

Definition Attr (s : html.Node) (name : string) : option string :=
  getAttributeValue name (html.Attr s).

End goquery.

(** Allowed substrings. *)
Definition allowedDomains : list string :=
  [ "bio-rad-sds.thewercs.com/DirectDocumentDownloader/Document";
    "bio-rad.com/sites/default/files/webroot/web/pdf" ].

Fixpoint containsAnyOf (domains : list string) (url : string) : bool :=
  match domains with
  | [] => false
  | domain :: rest =>
      if strings_Contains url domain then true else containsAnyOf rest url
  end.

(** The closure [isAllowed]. *)
Definition isAllowed (url : string) : bool := containsAnyOf allowedDomains url.

(** One piece of a hidden input's value. *)
Definition hiddenPartStep (urls : list string) (part : string) : list string :=
  let fullURL :=
    if strings_HasPrefix part "http" then part
    else if strings_Contains part ".thewercs.com"
            || strings_Contains part ".bio-rad.com"
    then "https://" +:+ part
    else EmptyString in
  if negb (String.eqb fullURL EmptyString) && isAllowed fullURL then urls ++ [fullURL]
  else urls.

(** The three callbacks handed to [Each]; each takes the list collected so
    far, since the closures append to the shared slice [urls]. *)
Definition hiddenInputStep (urls : list string) (s : html.Node) : list string :=
  match goquery.Attr s "value" with
  | Some val => fold_left hiddenPartStep (strings_Split val "~https://") urls
  | None => urls
  end.

Definition optionStep (urls : list string) (s : html.Node) : list string :=
  match goquery.Attr s "value" with
  | Some val =>
      if strings_HasPrefix val "http" && isAllowed val then urls ++ [val]
      else urls
  | None => urls
  end.

Definition anchorStep (urls : list string) (s : html.Node) : list string :=
  match goquery.Attr s "href" with
  | Some href =>
      if strings_HasPrefix href "http" && isAllowed href then urls ++ [href]
      else urls
  | None => urls
  end.

(** What the function does once the markup is parsed. *)
Definition linksOfDocument (doc : html.Node) : list string :=
  let urls := [] in
  let urls :=
    fold_left hiddenInputStep
      (goquery.Find doc (goquery.TagWithAttr "input" "type" "hidden")) urls in
  let urls := fold_left optionStep (goquery.Find doc (goquery.Tag "option")) urls in
  let urls := fold_left anchorStep (goquery.Find doc (goquery.Tag "a")) urls in
  urls.

(** The HTML parser behind [goquery.NewDocumentFromReader] is the interface
    of this component: [None] stands for a returned error. *)
Definition HTMLParser := string → option html.Node.

Definition extractLinksFromHTML (NewDocumentFromReader : HTMLParser)
    (htmlContent : string) : list string :=
  match NewDocumentFromReader htmlContent with
  | None => []
  | Some doc => linksOfDocument doc
  end.

(** A parser given by recorded parses: the markup of the table parses to
    the tree next to it, any other input is an error. *)
Fixpoint recordedParser (table : list (string * html.Node)) : HTMLParser :=
  fun htmlContent =>
    match table with
    | [] => None
    | (markup, doc) :: rest =>
        if String.eqb htmlContent markup then Some doc
        else recordedParser rest htmlContent
    end.

Definition element (tag : string) (attrs : list (string * string))
    (children : list html.Node) : html.Node :=
  html.mkNode html.ElementNode tag
    (map (fun kv => {| html.Key := fst kv; html.Val := snd kv |}) attrs)
    children.

Definition document (children : list html.Node) : html.Node :=
  html.mkNode html.DocumentNode EmptyString [] children.

(** The markup of the hidden-input scenario and the tree the HTML5 parser
    builds for it: the input lands in the body of the implied skeleton. *)
Definition quoted (s : string) : string :=
  String Byte_.dquote s +:+ String Byte_.dquote EmptyString.

Definition hiddenInputMarkup : string :=
  "<input type=" +:+ quoted "hidden" +:+ " value="
  +:+ quoted "foo~https://example.bio-rad.com/sites/default/files/webroot/web/pdf/X.pdf"
  +:+ ">".

Definition hiddenInputDocument : html.Node :=
  document
    [ element "html" []
        [ element "head" [] [];
          element "body" []
            [ element "input"
                [ ("type", "hidden");
                  ("value",
                   "foo~https://example.bio-rad.com/sites/default/files/webroot/web/pdf/X.pdf") ]
                [] ] ] ].

(** A page with candidates of the three kinds, allowed and not. *)
Definition mixedDocument : html.Node :=
  document
    [ element "html" []
        [ element "head" [] [];
          element "body" []
            [ element "input"
                [ ("type", "hidden");
                  ("value",
                   "x~https://bio-rad-sds.thewercs.com/DirectDocumentDownloader/Document?prd=A~~PDF~https://evil.bio-rad.com/other/Y.pdf") ]
                [];
              element "select" []
                [ element "option"
                    [ ("value",
                       "https://www.bio-rad.com/sites/default/files/webroot/web/pdf/lsr/literature/B.pdf") ]
                    [];
                  element "option" [ ("value", "https://www.bio-rad.com/en-us/") ] [] ];
              element "a"
                [ ("href",
                   "https://www.bio-rad.com/sites/default/files/webroot/web/pdf/C.pdf") ]
                [];
              element "a" [ ("href", "/sites/default/files/webroot/web/pdf/D.pdf") ] [];
              element "a" [ ("href", "https://example.org/E.pdf") ] [] ] ] ].

(** The markup of [mixedDocument]. *)
Definition mixedMarkup : string :=
  "<input type='hidden' value='x~https://bio-rad-sds.thewercs.com/DirectDocumentDownloader/Document?prd=A~~PDF~https://evil.bio-rad.com/other/Y.pdf'>"
  +:+ "<select><option value='https://www.bio-rad.com/sites/default/files/webroot/web/pdf/lsr/literature/B.pdf'></option>"
  +:+ "<option value='https://www.bio-rad.com/en-us/'></option></select>"
  +:+ "<a href='https://www.bio-rad.com/sites/default/files/webroot/web/pdf/C.pdf'></a>"
  +:+ "<a href='/sites/default/files/webroot/web/pdf/D.pdf'></a>"
  +:+ "<a href='https://example.org/E.pdf'></a>".

(** The parses on record. *)
Definition recordedParses : list (string * html.Node) :=
  [ (hiddenInputMarkup, hiddenInputDocument); (mixedMarkup, mixedDocument) ].

(** ** The downloader: [downloadPDFFile]

    The function talks to the file system and to the network.  Both are an
    interface here ([Platform]); the function threads a [World] through its
    calls, which holds the state of both, the trace of the calls made and
    the lines logged. *)

(** Go errors, by their message. *)
Definition error := string.

Inductive result (A : Type) :=
  | Ok (a : A)
  | Err (err : error).
Arguments Ok {A} a.
Arguments Err {A} err.

(** [fs.FileInfo], as far as the program looks at it. *)
Record FileInfo := { IsDir : bool }.

(** [http.Response], as far as the program looks at it. *)
Record Response (Stream : Type) := {
  Status : string;
  StatusCode : Z;
  Body : Stream
}.
Arguments Status {Stream} r.
Arguments StatusCode {Stream} r.
Arguments Body {Stream} r.

Definition StatusOK : Z := 200.

Class Platform := {
  (** the state of the file system, of the network, and a response body
      still to be read *)
  FS : Type;
  Net : Type;
  Stream : Type;
  (** [filepath.Join(dir, name)] *)
  filepath_Join : string → string → string;
  (** [os.Stat(name)] reads the file system *)
  os_Stat : string → FS → result FileInfo;
  (** [os.MkdirAll(path, 0755)] *)
  os_MkdirAll : string → FS → FS * option error;
  (** [os.Create(name)]; the file created is written through its name *)
  os_Create : string → FS → FS * option error;
  (** [io.Copy(outFile, resp.Body)], for the file created at the name *)
  io_Copy : string → Stream → FS * Net → FS * Net * option error;
  (** [http.Get(url)] *)
  http_Get : string → Net → Net * result (Response Stream)
}.

Inductive Event :=
  | EvStat (name : string)
  | EvGet (url : string)
  | EvMkdirAll (path : string)
  | EvCreate (name : string)
  | EvCopy (name : string).

Definition isGet (e : Event) : bool :=
  match e with EvGet _ => true | _ => false end.

Record World `{Platform} := {
  files : FS;
  network : Net;
  trace : list Event;
  logged : list string
}.

(** Computations on the world. *)
Definition IO `{Platform} (A : Type) : Type := World → World * A.

Definition ret `{Platform} {A} (a : A) : IO A := fun w => (w, a).

Definition bind `{Platform} {A B} (m : IO A) (k : A → IO B) : IO B :=
  fun w => let (w', a) := m w in k a w'.

Declare Scope io_scope.
Delimit Scope io_scope with io.
Notation "x <- m ;; k" := (bind m (fun x => k))
  (at level 100, m at next level, right associativity) : io_scope.
Notation "m ;; k" := (bind m (fun _ => k))
  (at level 100, right associativity) : io_scope.

Section Downloader.
Context `{Platform}.
Local Open Scope io_scope.

Definition emit (e : Event) : IO unit :=
  fun w => ({| files := files w; network := network w;
               trace := trace w ++ [e]; logged := logged w |}, tt).

(** [log.Printf]: the line, without the time stamp the logger puts first. *)
Definition log_Printf (line : string) : IO unit :=
  fun w => ({| files := files w; network := network w;
               trace := trace w; logged := logged w ++ [line] |}, tt).

Definition Stat (name : string) : IO (result FileInfo) :=
  emit (EvStat name) ;;
  fun w => (w, os_Stat name (files w)).

Definition Get (url : string) : IO (result (Response Stream)) :=
  emit (EvGet url) ;;
  fun w => let (net, r) := http_Get url (network w) in
           ({| files := files w; network := net;
               trace := trace w; logged := logged w |}, r).

Definition MkdirAll (path : string) : IO (option error) :=
  emit (EvMkdirAll path) ;;
  fun w => let (fs, e) := os_MkdirAll path (files w) in
           ({| files := fs; network := network w;
               trace := trace w; logged := logged w |}, e).

Definition Create (name : string) : IO (option error) :=
  emit (EvCreate name) ;;
  fun w => let (fs, e) := os_Create name (files w) in
           ({| files := fs; network := network w;
               trace := trace w; logged := logged w |}, e).

Definition Copy (name : string) (body : Stream) : IO (option error) :=
  emit (EvCopy name) ;;
  fun w => let '(fs, net, e) := io_Copy name body (files w, network w) in
           ({| files := fs; network := net;
               trace := trace w; logged := logged w |}, e).

(** It checks if the file exists. *)
Definition fileExists (filename : string) : IO bool :=
  r <- Stat filename ;;
  match r with
  | Err _ => ret false
  | Ok info => ret (negb (IsDir info))
  end.

(** [downloadPDFFile]; the result is the error returned, [None] for nil.
    (The deferred [Close] calls are left out: they return nothing the
    function looks at.) *)
Definition downloadPDFFile (downloadURL outputDirectory outputFileName : string)
    : IO (option error) :=
  let fullFilePath := filepath_Join outputDirectory outputFileName in
  (* Skip download if the file already exists *)
  found <- fileExists fullFilePath ;;
  if found then
    log_Printf ("File already exists, skipping: " +:+ fullFilePath) ;;
    ret None
  else
    (* Perform HTTP GET request to fetch the PDF *)
    r <- Get downloadURL ;;
    match r with
    | Err err => ret (Some ("error fetching " +:+ downloadURL +:+ ": " +:+ err))
    | Ok resp =>
        (* Ensure successful response *)
        if negb (StatusCode resp =? StatusOK)%Z then
          ret (Some ("download failed with status: " +:+ Status resp))
        else
          (* Ensure the output folder exists *)
          e <- MkdirAll outputDirectory ;;
          match e with
          | Some err => ret (Some ("could not create output directory: " +:+ err))
          | None =>
              (* Create the output file *)
              e <- Create fullFilePath ;;
              match e with
              | Some err =>
                  ret (Some ("error creating file " +:+ fullFilePath +:+ ": " +:+ err))
              | None =>
                  (* Stream the PDF data to file *)
                  e <- Copy fullFilePath (Body resp) ;;
                  match e with
                  | Some err =>
                      ret (Some ("error saving PDF to " +:+ fullFilePath
                                 +:+ ": " +:+ err))
                  | None =>
                      log_Printf ("Downloaded: " +:+ fullFilePath) ;;
                      ret None
                  end
              end
          end
    end.

(** The number of network fetches recorded in a trace. *)
Definition fetches (t : list Event) : nat :=
  length (List.filter isGet t).

(** Whether a regular file is at the name, as [fileExists] finds out. *)
Definition regularFileAt (name : string) (fs : FS) : bool :=
  match os_Stat name fs with
  | Err _ => false
  | Ok info => negb (IsDir info)
  end.

(** The world after a call that skipped the download: one more [Stat] in
    the trace, one more line in the log. *)
Definition skipped (fullFilePath : string) (w : World) : World :=
  {| files := files w; network := network w;
     trace := trace w ++ [EvStat fullFilePath];
     logged := logged w ++ ["File already exists, skipping: " +:+ fullFilePath] |}.

(** What the downloader relies on, of the platform: a file that was
    created is a regular file, and writing to it does not remove it. *)
Definition keepsCreatedFiles : Prop :=
  (∀ name fs fs',
     os_Create name fs = (fs', None) → regularFileAt name fs' = true)
  ∧ (∀ name body fs net fs' net' e,
       io_Copy name body (fs, net) = (fs', net', e) →
       regularFileAt name fs = true → regularFileAt name fs' = true).

End Downloader.

(** ** An in-memory platform

    A reference implementation of [Platform]: a file system that maps clean
    Unix paths to regular files and directories, and a network that answers
    the requests from a script. *)
Module Mem.

Inductive node :=
  | RegularFile (content : string)
  | Directory.

(** One element of the path in [filepath.Clean]; [stack] holds the elements
    kept so far, the last one first. *)
Definition cleanElem (rooted : bool) (stack : list string) (elem : string)
    : list string :=
  if String.eqb elem EmptyString || String.eqb elem "." then stack
  else if String.eqb elem ".." then
    match stack with
    | top :: below => if String.eqb top ".." then elem :: stack else below
    | [] => if rooted then [] else [elem]
    end
  else elem :: stack.

(** [filepath.Clean] on Unix. *)
Definition Clean (path : string) : string :=
  let rooted := strings_HasPrefix path "/" in
  let kept := rev (fold_left (cleanElem rooted) (strings_Split path "/") []) in
  let body := strings_Join kept "/" in
  if rooted then "/" +:+ body
  else if String.eqb body EmptyString then "." else body.

(** [filepath.Join] of two elements on Unix. *)
Definition Join (dir name : string) : string :=
  if negb (String.eqb dir EmptyString) then Clean (dir +:+ "/" +:+ name)
  else if negb (String.eqb name EmptyString) then Clean name
  else EmptyString.

(** [filepath.Dir] on Unix. *)
Definition Dir (path : string) : string :=
  match cutAtLastIndex path "/" with
  | Some (before, _) => Clean (before +:+ "/")
  | None => "."
  end.

Definition lookupNode (fs : gmap string node) (path : string) : option node :=
  let p := Clean path in
  if String.eqb p "." || String.eqb p "/" then Some Directory else fs !! p.

Definition Stat (name : string) (fs : gmap string node) : result FileInfo :=
  match lookupNode fs name with
  | Some (RegularFile _) => Ok {| IsDir := false |}
  | Some Directory => Ok {| IsDir := true |}
  | None => Err ("stat " +:+ name +:+ ": no such file or directory")
  end.

(** The path and the directories above it, outermost first. *)
Fixpoint lineage (prefix : string) (elems : list string) : list string :=
  match elems with
  | [] => []
  | e :: rest =>
      let p := if String.eqb prefix EmptyString then e
               else if String.eqb prefix "/" then prefix +:+ e
               else prefix +:+ "/" +:+ e in
      p :: lineage p rest
  end.

Definition mkdirStep (acc : gmap string node * option error) (p : string)
    : gmap string node * option error :=
  match acc with
  | (fs, Some err) => (fs, Some err)
  | (fs, None) =>
      match lookupNode fs p with
      | Some Directory => (fs, None)
      | Some (RegularFile _) => (fs, Some ("mkdir " +:+ p +:+ ": not a directory"))
      | None => (<[p := Directory]> fs, None)
      end
  end.

Definition MkdirAll (path : string) (fs : gmap string node)
    : gmap string node * option error :=
  let p := Clean path in
  let rooted := strings_HasPrefix p "/" in
  let elems := List.filter (fun e => negb (String.eqb e EmptyString))
                 (strings_Split p "/") in
  fold_left mkdirStep (lineage (if rooted then "/" else EmptyString) elems)
    (fs, None).

Definition Create (name : string) (fs : gmap string node)
    : gmap string node * option error :=
  let p := Clean name in
  match lookupNode fs (Dir p) with
  | Some Directory =>
      match lookupNode fs name with
      | Some Directory => (fs, Some ("open " +:+ name +:+ ": is a directory"))
      | _ => (<[p := RegularFile EmptyString]> fs, None)
      end
  | _ => (fs, Some ("open " +:+ name +:+ ": no such file or directory"))
  end.

(** A response body: the bytes that arrive and, possibly, the error that
    ends the stream. *)
Record stream := { arriving : string; breaking : option error }.

Definition Copy (name : string) (body : stream)
    (s : gmap string node * list (result (Response stream)))
    : gmap string node * list (result (Response stream)) * option error :=
  (<[Clean name := RegularFile (arriving body)]> (fst s), snd s, breaking body).

(** The network answers the requests in the order of its script. *)
Definition Get (url : string) (net : list (result (Response stream)))
    : list (result (Response stream)) * result (Response stream) :=
  match net with
  | [] => ([], Err ("Get " +:+ url +:+ ": connection refused"))
  | r :: rest => (rest, r)
  end.

#[export] Instance platform : Platform := {|
  FS := gmap string node;
  Net := list (result (Response stream));
  Stream := stream;
  filepath_Join := Join;
  os_Stat := Stat;
  os_MkdirAll := MkdirAll;
  os_Create := Create;
  io_Copy := Copy;
  http_Get := Get
|}.

Definition world (fs : gmap string node) (net : list (result (Response stream)))
    : World :=
  {| files := fs; network := net; trace := []; logged := [] |}.

Definition found (content : string) : result (Response stream) :=
  Ok {| Status := "200 OK"; StatusCode := 200;
        Body := {| arriving := content; breaking := None |} |}.

Definition notFoundResponse : Response stream :=
  {| Status := "404 Not Found"; StatusCode := 404;
     Body := {| arriving := "<html>not found</html>"; breaking := None |} |}.

Definition notFound : result (Response stream) := Ok notFoundResponse.

End Mem.

(** ** The worker pool: [workerDownloadPDF] and step 3 of [main]

    The goroutines are the dispatcher ([main], from the creation of the
    channel on) and the workers it launches.  A state holds the place each
    goroutine is at, the buffered channel, the counter of the WaitGroup and
    the download attempts made so far; a step is one goroutine performing
    its next operation on the channel or on the WaitGroup, or one pass
    through the body of a worker's loop. *)
Module Pool.

(** Where a worker is in [workerDownloadPDF]. *)
Inductive Worker :=
  | Receiving                     (* at [range urlChannel], waiting for a URL *)
  | Holding (downloadURL : string) (* in the loop body, the calls still to make *)
  | Returning                     (* the loop is left, the deferred wg.Done() is due *)
  | Exited.

(** Where [main] is. *)
Inductive Dispatcher :=
  | Launching (i : nat)             (* at the test [i < numberOfWorkers] *)
  | Spawning (i : nat)              (* after wg.Add(1), before the go statement *)
  | Sending (rest : list string)    (* in the send loop; then close(urlChannel) *)
  | Waiting                         (* at wg.Wait() *)
  | Done.                           (* wg.Wait() has returned *)

(** A download attempt: the worker and the arguments it handed to
    [downloadPDFFile]. *)
Record Attempt := {
  worker : nat;
  downloadURL : string;
  outputDirectory : string;
  outputFileName : string
}.

Record State := {
  dispatcher : Dispatcher;
  urlChannel : list string;   (* the buffer, the oldest element first *)
  closed : bool;
  wg : nat;                   (* the counter of the WaitGroup *)
  workers : list Worker;
  attempts : list Attempt
}.

Inductive Goroutine :=
  | Main
  | WorkerNo (j : nat).

Definition exited (w : Worker) : bool :=
  match w with Exited => true | _ => false end.

Section Program.
Variable numberOfWorkers : nat.
Variable downloadURLs : list string.
Variable outputDir : string.

(** [make(chan string, len(downloadURLs))] and [var wg sync.WaitGroup]. *)
Definition init : State :=
  {| dispatcher := Launching 0; urlChannel := []; closed := false; wg := 0;
     workers := []; attempts := [] |}.

Definition capacity : nat := length downloadURLs.

(** The next operation of [main]; [None] when it blocks. *)
Definition stepMain (s : State) : option State :=
  match dispatcher s with
  | Launching i =>
      if i <? numberOfWorkers then
        (* wg.Add(1) *)
        Some {| dispatcher := Spawning i; urlChannel := urlChannel s;
                closed := closed s; wg := S (wg s); workers := workers s;
                attempts := attempts s |}
      else
        Some {| dispatcher := Sending downloadURLs; urlChannel := urlChannel s;
                closed := closed s; wg := wg s; workers := workers s;
                attempts := attempts s |}
  | Spawning i =>
      (* go workerDownloadPDF(&wg, urlChannel, outputDirectory) *)
      Some {| dispatcher := Launching (S i); urlChannel := urlChannel s;
              closed := closed s; wg := wg s;
              workers := workers s ++ [Receiving]; attempts := attempts s |}
  | Sending (url :: rest) =>
      (* urlChannel <- url: blocks while the buffer is full *)
      if length (urlChannel s) <? capacity then
        Some {| dispatcher := Sending rest; urlChannel := urlChannel s ++ [url];
                closed := closed s; wg := wg s; workers := workers s;
                attempts := attempts s |}
      else None
  | Sending [] =>
      (* close(urlChannel) *)
      Some {| dispatcher := Waiting; urlChannel := urlChannel s;
              closed := true; wg := wg s; workers := workers s;
              attempts := attempts s |}
  | Waiting =>
      (* wg.Wait(): returns when the counter is zero *)
      if wg s =? 0 then
        Some {| dispatcher := Done; urlChannel := urlChannel s;
                closed := closed s; wg := wg s; workers := workers s;
                attempts := attempts s |}
      else None
  | Done => None
  end.

Definition setWorker (j : nat) (w : Worker) (s : State) : list Worker :=
  <[j := w]> (workers s).

(** The next operation of worker [j]; [None] when it blocks, has exited or
    was never launched. *)
Definition stepWorker (j : nat) (s : State) : option State :=
  match workers s !! j with
  | Some Receiving =>
      match urlChannel s with
      | url :: rest =>
          (* a URL is received *)
          Some {| dispatcher := dispatcher s; urlChannel := rest;
                  closed := closed s; wg := wg s;
                  workers := setWorker j (Holding url) s;
                  attempts := attempts s |}
      | [] =>
          (* the range loop ends on a closed, drained channel *)
          if closed s then
            Some {| dispatcher := dispatcher s; urlChannel := [];
                    closed := closed s; wg := wg s;
                    workers := setWorker j Returning s;
                    attempts := attempts s |}
          else None
      end
  | Some (Holding url) =>
      (* outputFileName := createFileNameFromURL(downloadURL), then
         downloadPDFFile(downloadURL, outputDirectory, outputFileName);
         an error is logged and the loop goes on *)
      Some {| dispatcher := dispatcher s; urlChannel := urlChannel s;
              closed := closed s; wg := wg s;
              workers := setWorker j Receiving s;
              attempts :=
                attempts s ++
                [ {| worker := j; downloadURL := url;
                     outputDirectory := outputDir;
                     outputFileName := createFileNameFromURL url |} ] |}
  | Some Returning =>
      (* the deferred wg.Done(); a counter below zero would panic *)
      match wg s with
      | S n =>
          Some {| dispatcher := dispatcher s; urlChannel := urlChannel s;
                  closed := closed s; wg := n;
                  workers := setWorker j Exited s;
                  attempts := attempts s |}
      | O => None
      end
  | Some Exited => None
  | None => None
  end.

Definition step (g : Goroutine) (s : State) : option State :=
  match g with
  | Main => stepMain s
  | WorkerNo j => stepWorker j s
  end.

(** A schedule is the order in which the goroutines take their steps. *)
Fixpoint run (schedule : list Goroutine) (s : State) : option State :=
  match schedule with
  | [] => Some s
  | g :: later =>
      match step g s with
      | Some s' => run later s'
      | None => None
      end
  end.

Definition reachable (s : State) : Prop :=
  ∃ schedule, run schedule init = Some s.

(** The URLs [main] has still to send. *)
Definition unsent (d : Dispatcher) : list string :=
  match d with
  | Launching _ | Spawning _ => downloadURLs
  | Sending rest => rest
  | Waiting | Done => []
  end.

(** The URLs the workers hold. *)
Definition held (w : Worker) : list string :=
  match w with Holding url => [url] | _ => [] end.

Definition inFlight (ws : list Worker) : list string := flat_map held ws.

(** A bound on the number of steps left. *)
Definition dispatcherFuel (d : Dispatcher) : nat :=
  match d with
  | Launching i => 3 * length downloadURLs + 3 + 4 * (numberOfWorkers - i)
  | Spawning i => 3 * length downloadURLs + 2 + 4 * (numberOfWorkers - i)
  | Sending rest => 3 * length rest + 2
  | Waiting => 1
  | Done => 0
  end.

Definition workerFuel (w : Worker) : nat :=
  match w with
  | Receiving => 2
  | Holding _ => 3
  | Returning => 1
  | Exited => 0
  end.

Definition fuel (s : State) : nat :=
  dispatcherFuel (dispatcher s) + 2 * length (urlChannel s)
  + list_sum (map workerFuel (workers s)).

(** The invariant of the reachable states. *)
Definition afterClose (d : Dispatcher) : bool :=
  match d with Waiting | Done => true | _ => false end.

(** The workers launched so far. *)
Definition launched (d : Dispatcher) : nat :=
  match d with
  | Launching i | Spawning i => i
  | Sending _ | Waiting | Done => numberOfWorkers
  end.

Definition launchBound (d : Dispatcher) : Prop :=
  match d with
  | Launching i => i ≤ numberOfWorkers
  | Spawning i => i < numberOfWorkers
  | Sending _ | Waiting | Done => True
  end.

(** A wg.Add(1) whose worker is not started yet. *)
Definition pendingAdd (d : Dispatcher) : nat :=
  match d with Spawning _ => 1 | _ => 0 end.

Definition alive (w : Worker) : nat := if exited w then 0 else 1.

(** The workers that have not called wg.Done() yet. *)
Definition live (ws : list Worker) : nat := list_sum (map alive ws).

Definition leftLoop (w : Worker) : bool :=
  match w with Returning | Exited => true | _ => false end.

Record invariant (s : State) : Prop := {
  (** every URL is in one place: attempted, held by a worker, in the
      channel, or still to be sent *)
  inv_urls :
    Permutation downloadURLs
      (map downloadURL (attempts s) ++ inFlight (workers s)
       ++ urlChannel s ++ unsent (dispatcher s));
  inv_closed : closed s = afterClose (dispatcher s);
  inv_wg : wg s = live (workers s) + pendingAdd (dispatcher s);
  inv_workers : length (workers s) = launched (dispatcher s);
  inv_bound : launchBound (dispatcher s);
  (** a worker leaves its loop on a closed and drained channel only *)
  inv_left :
    ∀ w, In w (workers s) → leftLoop w = true →
         closed s = true ∧ urlChannel s = [];
  inv_done : dispatcher s = Done → wg s = 0;
  (** the arguments of every attempt *)
  inv_attempts :
    ∀ a, In a (attempts s) →
         worker a < numberOfWorkers
         ∧ outputDirectory a = outputDir
         ∧ outputFileName a = createFileNameFromURL (downloadURL a)
}.

(** What holds of a state in which all the work is done. *)
Definition completed (s : State) : Prop :=
  Permutation (map downloadURL (attempts s)) downloadURLs
  ∧ length (attempts s) = length downloadURLs
  ∧ length (workers s) = numberOfWorkers
  ∧ Forall (λ w, w = Exited) (workers s)
  ∧ urlChannel s = []
  ∧ closed s = true.

End Program.

End Pool.

(** ** The file-name rule, in the words of the specification

    These definitions follow the specification, not the code; the theorems
    below compare them with [createFileNameFromURL]. *)
Module Spec.

(** The maximal runs of a text: neighbouring bytes are in the same run when
    they are both alphanumeric or both not.  The flag of a run tells that
    its bytes are not alphanumeric. *)
Fixpoint runs (s : string) : list (bool * string) :=
  match s with
  | EmptyString => []
  | String c s' =>
      let outside := negb (Byte_.isAlnum c) in
      match runs s' with
      | (flag, r) :: rest =>
          if Bool.eqb flag outside then (flag, String c r) :: rest
          else (outside, String c EmptyString) :: (flag, r) :: rest
      | [] => [(outside, String c EmptyString)]
      end
  end.

(** Every maximal run of non-alphanumeric characters becomes one hyphen. *)
Fixpoint hyphenate (rs : list (bool * string)) : string :=
  match rs with
  | [] => EmptyString
  | (true, _) :: rest => "-" +:+ hyphenate rest
  | (false, r) :: rest => r +:+ hyphenate rest
  end.

(** What makes [runs] the cut into maximal runs: the runs put together
    give the text back, a run is not empty and its bytes are all of the
    kind of its flag, and neighbouring runs are of different kinds. *)
Fixpoint joinRuns (rs : list (bool * string)) : string :=
  match rs with
  | [] => EmptyString
  | (_, r) :: rest => r +:+ joinRuns rest
  end.

Definition uniform (run : bool * string) : bool :=
  negb (String.eqb (snd run) EmptyString)
  && string_forallb (fun c => Bool.eqb (negb (Byte_.isAlnum c)) (fst run)) (snd run).

Fixpoint alternating (rs : list (bool * string)) : bool :=
  match rs with
  | (flag, _) :: rest =>
      match rest with
      | (flag', _) :: _ => negb (Bool.eqb flag flag') && alternating rest
      | [] => true
      end
  | [] => true
  end.

(** Hyphens trimmed at both ends: the text without the hyphens it starts
    with and, read from its end, without the hyphens it ends with. *)
Fixpoint dropHyphens (l : list ascii) : list ascii :=
  match l with
  | c :: rest => if Ascii.eqb c "-" then dropHyphens rest else l
  | [] => []
  end.

Definition trimHyphens (s : string) : string :=
  String.string_of_list_ascii
    (rev (dropHyphens (rev (dropHyphens (String.list_ascii_of_string s))))).

(** Lower case: a capital letter becomes the small letter at its place in
    the alphabet, any other character stays. *)
Fixpoint lowerOf (capitals smalls : string) (c : ascii) : ascii :=
  match capitals, smalls with
  | String capital capitals', String small smalls' =>
      if Ascii.eqb c capital then small else lowerOf capitals' smalls' c
  | _, _ => c
  end.

Definition lowerCase (s : string) : string :=
  String.string_of_list_ascii
    (map (lowerOf "ABCDEFGHIJKLMNOPQRSTUVWXYZ" "abcdefghijklmnopqrstuvwxyz")
       (String.list_ascii_of_string s)).

(** A segment cleaned: runs replaced, hyphens trimmed at both ends, lower
    case. *)
Definition cleanSegment (seg : string) : string :=
  lowerCase (trimHyphens (hyphenate (runs seg))).

Definition nonEmpty (s : string) : bool := negb (String.eqb s EmptyString).

(** The file name of a list of segments: the cleaned segments that are not
    empty, in their order, joined with "-", and ".pdf" appended unless the
    join ends in it. *)
Definition fileName (segments : list string) : string :=
  let joined := strings_Join (List.filter nonEmpty (map cleanSegment segments)) "-" in
  if strings_HasSuffix joined ".pdf" then joined else joined +:+ ".pdf".

(** The segments of a parsed URL: the "prd" parameter split on "~~", or,
    when the parameter is missing or empty, the final element of the path
    with its ".pdf" suffix stripped. *)
Definition segments (parsedURL : url.URL) : list string :=
  let prd := url.Get (url.Query parsedURL) "prd" in
  if negb (String.eqb prd EmptyString) then strings_Split prd "~~"
  else [strings_TrimSuffix (path_Base (url.Path parsedURL)) ".pdf"].

(** A text without any alphanumeric character ("all punctuation"). *)
Definition allPunctuation (s : string) : bool :=
  string_forallb (fun c => negb (Byte_.isAlnum c)) s.

(** The URL rebuilt from one piece of a hidden input's value: the piece
    itself when it starts with "http", the piece behind "https://" when it
    names one of the two hosts, nothing otherwise. *)
Definition reconstruct (piece : string) : string :=
  if strings_HasPrefix piece "http" then piece
  else if strings_Contains piece ".thewercs.com"
          || strings_Contains piece ".bio-rad.com"
  then "https://" +:+ piece
  else EmptyString.

(** The allow-list check on a rebuilt URL. *)
Definition kept (fullURL : string) : bool := nonEmpty fullURL && isAllowed fullURL.

(** An element whose attribute holds a candidate URL: one that starts with
    "http" and passes the allow-list check. *)
Definition candidate (attribute : string) (s : html.Node) : bool :=
  match goquery.Attr s attribute with
  | Some v => strings_HasPrefix v "http" && isAllowed v
  | None => false
  end.

(** What the specification promises of an extracted URL. *)
Definition allowedLink (url : string) : Prop :=
  strings_HasPrefix url "http" = true ∧ isAllowed url = true.

(** A byte of a cleaned segment: alphanumeric or the hyphen. *)
Definition safeByte (c : ascii) : bool := Byte_.isAlnum c || Byte_.eqb c "-".

End Spec.

(** * More of the program

    The functions of the source the file-name, extraction, download and
    pool parts lean on or are called from: [getFileExtension], the loop of
    [workerDownloadPDF] around [downloadPDFFile], [appendTextToFile],
    [readEntireFile], [scrapePageHTMLWithChrome] and the first two steps
    of [main]. *)

(** ** [getFileExtension] *)

(** The scan of [filepath.Ext], from the end of the path towards its
    start: it stops at a path separator, and a dot found before gives the
    extension. *)
Inductive ExtScan :=
  | ExtFound (ext : string)   (* the dot was met: the extension *)
  | ExtStopped                (* a separator was met first *)
  | ExtNone.                  (* neither was met *)

Fixpoint scanExt (isPathSeparator : ascii → bool) (path : string) : ExtScan :=
  match path with
  | EmptyString => ExtNone
  | String c rest =>
      match scanExt isPathSeparator rest with
      | ExtFound ext => ExtFound ext
      | ExtStopped => ExtStopped
      | ExtNone =>
          if isPathSeparator c then ExtStopped
          else if Byte_.eqb c "." then ExtFound path
          else ExtNone
      end
  end.

(** [filepath.Ext(path)], for the separators of the operating system. *)
Definition filepath_Ext (isPathSeparator : ascii → bool) (path : string) : string :=
  match scanExt isPathSeparator path with
  | ExtFound ext => ext
  | ExtStopped | ExtNone => EmptyString
  end.

(** Get the file extension of a file. *)
Definition getFileExtension (isPathSeparator : ascii → bool) (path : string)
    : string :=
  filepath_Ext isPathSeparator path.

(** [os.IsPathSeparator] on Unix and on Windows. *)
Definition unixSeparator (c : ascii) : bool := Byte_.eqb c "/".
Definition windowsSeparator (c : ascii) : bool :=
  Byte_.eqb c "/" || Byte_.eqb c (ascii_of_nat 92).

(** ** Shapes of a derived file name *)

(** A byte of the stem of a derived name: a lower-case letter, a digit or
    the hyphen. *)
Definition stemByte (c : ascii) : bool :=
  Byte_.isLower c || Byte_.isDigit c || Byte_.eqb c "-".

(** A text in which hyphens only separate: none at either end and no two
    in a row. *)
Definition hyphensSeparate (s : string) : bool :=
  negb (strings_HasPrefix s "-") && negb (strings_HasSuffix s "-")
  && negb (strings_Contains s "--").

(** The same, by one pass over the text: [noDoubleHyphen afterHyphen s]
    tells that [s] has no two hyphens in a row and, when [afterHyphen],
    does not start with one; [endsWithHyphen s] that its last byte is a
    hyphen. *)
Fixpoint noDoubleHyphen (afterHyphen : bool) (s : string) : bool :=
  match s with
  | EmptyString => true
  | String c rest =>
      if Byte_.eqb c "-" then negb afterHyphen && noDoubleHyphen true rest
      else noDoubleHyphen false rest
  end.

Fixpoint endsWithHyphen (s : string) : bool :=
  match s with
  | EmptyString => false
  | String c EmptyString => Byte_.eqb c "-"
  | String _ rest => endsWithHyphen rest
  end.

(** A text with its ASCII capitals lowered: the bytes 'A'..'Z' become
    'a'..'z' and every other byte stays, so that a character outside
    ASCII (the Kelvin sign, say, which Unicode lower-cases to "k") is left
    as it is.  Two texts with the same image differ in the case of ASCII
    letters only. *)
Definition asciiLower (s : string) : string := string_map Byte_.toLower s.

(** A separator without letters: a text with its ASCII capitals lowered
    holds it at the same places as the text. *)
Definition letterFree (sep : string) : bool :=
  string_forallb (fun c => negb (Byte_.isUpper c || Byte_.isLower c)) sep.

(** The texts of a list, one after the other. *)
Fixpoint string_concat (l : list string) : string :=
  match l with
  | [] => EmptyString
  | s :: rest => s +:+ string_concat rest
  end.

(** ** The links of one element *)

(** What a hidden input adds to the list. *)
Definition hiddenLinks (s : html.Node) : list string :=
  match goquery.Attr s "value" with
  | Some val =>
      List.filter Spec.kept (map Spec.reconstruct (strings_Split val "~https://"))
  | None => []
  end.

(** What an option (attribute "value") or an anchor (attribute "href")
    adds to the list. *)
Definition attributeLinks (attribute : string) (s : html.Node) : list string :=
  if Spec.candidate attribute s
  then match goquery.Attr s attribute with Some v => [v] | None => [] end
  else [].

(** ** The calls of the downloader *)

(** The calls [downloadPDFFile] makes when nothing fails, in their order. *)
Definition downloadCalls `{Platform}
    (downloadURL outputDirectory outputFileName : string) : list Event :=
  let fullFilePath := filepath_Join outputDirectory outputFileName in
  [ EvStat fullFilePath; EvGet downloadURL; EvMkdirAll outputDirectory;
    EvCreate fullFilePath; EvCopy fullFilePath ].

(** ** The loop of a worker *)

Section WorkerLoop.
Context `{Platform}.
Local Open Scope io_scope.

(** The body of the loop of [workerDownloadPDF]. *)
Definition workerBody (outputDirectory downloadURL : string) : IO unit :=
  let outputFileName := createFileNameFromURL downloadURL in
  e <- downloadPDFFile downloadURL outputDirectory outputFileName ;;
  match e with
  | Some err =>
      log_Printf ("Download error for " +:+ downloadURL +:+ ": " +:+ err)
  | None => ret tt
  end.

(** [for downloadURL := range urlChannel], for the URLs the worker
    receives. *)
Fixpoint workerLoop (outputDirectory : string) (received : list string)
    : IO unit :=
  match received with
  | [] => ret tt
  | downloadURL :: later =>
      workerBody outputDirectory downloadURL ;;
      workerLoop outputDirectory later
  end.

End WorkerLoop.

(** ** The order of the downloads *)

(** The URLs leave the channel in the order of the list: those received so
    far (attempted, or held by a worker) are an initial part of the list,
    and the channel and what [main] has still to send are the rest. *)
Definition receivedInOrder (downloadURLs : list string) (s : Pool.State) : Prop :=
  ∃ received,
    Permutation received
      (map Pool.downloadURL (Pool.attempts s) ++ Pool.inFlight (Pool.workers s))
    ∧ downloadURLs
      = received ++ Pool.urlChannel s ++ Pool.unsent downloadURLs (Pool.dispatcher s).

(** ** Text files, the browser and the first steps of [main] *)

(** [fmt.Sprintf("%d", n)] for a number that is not negative. *)
Definition decimal (n : nat) : string := NilEmpty.string_of_uint (Nat.to_uint n).

(** What these functions use besides the [Platform]: appending to and
    reading text files, the headless browser and the HTML parser. *)
Class Host `{Platform} := {
  (** [os.OpenFile(name, O_APPEND|O_CREATE|O_WRONLY, 0644)]; the file
      opened is written through its name *)
  os_OpenFile : string → FS → FS * option error;
  (** [file.WriteString(content)], for the file opened at the name *)
  file_WriteString : string → string → FS → FS * option error;
  (** [os.ReadFile(name)] reads the file system *)
  os_ReadFile : string → FS → result string;
  (** [chromedp.Run] of the three actions Navigate, Sleep, OuterHTML in a
      fresh browser: the rendered markup of the page *)
  chromedp_Run : string → Net → Net * result string;
  (** [goquery.NewDocumentFromReader] *)
  NewDocumentFromReader : HTMLParser
}.

Inductive CrawlEvent :=
  | EvRun (pageURL : string)
  | EvOpenFile (name : string)
  | EvWriteString (name content : string)
  | EvReadFile (name : string).

(** The state these functions thread: the world of the downloader and the
    calls made to the host. *)
Record Session `{Platform} := {
  world : World;
  crawl : list CrawlEvent
}.

Definition Crawl `{Platform} (A : Type) : Type := Session → Session * A.

Definition cret `{Platform} {A} (a : A) : Crawl A := fun s => (s, a).

Definition cbind `{Platform} {A B} (m : Crawl A) (k : A → Crawl B) : Crawl B :=
  fun s => let (s', a) := m s in k a s'.

Declare Scope crawl_scope.
Delimit Scope crawl_scope with crawl.
Notation "x <- m ;; k" := (cbind m (fun x => k))
  (at level 100, m at next level, right associativity) : crawl_scope.
Notation "m ;; k" := (cbind m (fun _ => k))
  (at level 100, right associativity) : crawl_scope.

(** How a run of steps 1 and 2 of [main] ends. *)
Inductive Prelude :=
  | Fatal                                   (* log.Fatalf: the process exits *)
  | Dispatch (downloadURLs : list string).  (* on to the worker pool *)

(** The configuration at the head of [main]. *)
Record Config := {
  htmlOutputFilePath : string;
  basePageURL : string;
  startPage : nat;
  endPage : nat;
  outputDirectory : string;
  numberOfWorkers : nat
}.

Definition configuration : Config :=
  {| htmlOutputFilePath := "bio-rad-msds.html";
     basePageURL := "https://www.bio-rad.com/en-us/literature-library?facets_query=&page=";
     startPage := 0;
     endPage := 10;
     outputDirectory := "PDFs";
     numberOfWorkers := 20 |}.

Section Crawler.
Context `{Platform} `{!Host}.
Local Open Scope crawl_scope.

(** A computation on the world, run in a session. *)
Definition inWorld {A} (m : IO A) : Crawl A :=
  fun s => let (w, a) := m (world s) in ({| world := w; crawl := crawl s |}, a).

Definition note (e : CrawlEvent) : Crawl unit :=
  fun s => ({| world := world s; crawl := crawl s ++ [e] |}, tt).

Definition onFiles {A} (f : FS → FS * A) : Crawl A :=
  fun s =>
    let (fs, a) := f (files (world s)) in
    ({| world := {| files := fs; network := network (world s);
                    trace := trace (world s); logged := logged (world s) |};
        crawl := crawl s |}, a).

Definition OpenFile (name : string) : Crawl (option error) :=
  note (EvOpenFile name) ;; onFiles (os_OpenFile name).

Definition WriteString (name content : string) : Crawl (option error) :=
  note (EvWriteString name content) ;; onFiles (file_WriteString name content).

Definition ReadFile (name : string) : Crawl (result string) :=
  note (EvReadFile name) ;;
  fun s => (s, os_ReadFile name (files (world s))).

Definition Run (pageURL : string) : Crawl (result string) :=
  note (EvRun pageURL) ;;
  fun s =>
    let (net, r) := chromedp_Run pageURL (network (world s)) in
    ({| world := {| files := files (world s); network := net;
                    trace := trace (world s); logged := logged (world s) |};
        crawl := crawl s |}, r).

(** [appendTextToFile] appends content to an existing file or creates a
    new one.  (The deferred [Close] is left out.) *)
Definition appendTextToFile (filePath content : string) : Crawl (option error) :=
  e <- OpenFile filePath ;;
  match e with
  | Some err => cret (Some ("failed to open file " +:+ filePath +:+ ": " +:+ err))
  | None => WriteString filePath content
  end.

(** [readEntireFile] reads the full contents of a file into a string. *)
Definition readEntireFile (filePath : string) : Crawl (result string) :=
  r <- ReadFile filePath ;;
  match r with
  | Err err => cret (Err ("could not read file " +:+ filePath +:+ ": " +:+ err))
  | Ok data => cret (Ok data)
  end.

(** [scrapePageHTMLWithChrome] renders a page in a headless browser. *)
Definition scrapePageHTMLWithChrome (pageURL : string) : Crawl (result string) :=
  r <- Run pageURL ;;
  match r with
  | Err err => cret (Err ("failed to scrape " +:+ pageURL +:+ ": " +:+ err))
  | Ok pageHTML => cret (Ok pageHTML)
  end.

(** The body of the page loop of [main]. *)
Definition scrapeStep (cfg : Config) (pageNumber : nat) : Crawl unit :=
  let pageURL := basePageURL cfg +:+ decimal pageNumber in
  r <- scrapePageHTMLWithChrome pageURL ;;
  match r with
  | Err err =>
      (* Skip to next page *)
      inWorld (log_Printf ("Failed to scrape page " +:+ decimal pageNumber
                           +:+ ": " +:+ err))
  | Ok htmlContent =>
      e <- appendTextToFile (htmlOutputFilePath cfg) htmlContent ;;
      match e with
      | Some err =>
          inWorld (log_Printf ("Failed to write HTML for page "
                               +:+ decimal pageNumber +:+ ": " +:+ err))
      | None => cret tt
      end
  end.

(** [for pageNumber := startPage; pageNumber < endPage; pageNumber++]. *)
Fixpoint forPages (pages : list nat) (body : nat → Crawl unit) : Crawl unit :=
  match pages with
  | [] => cret tt
  | pageNumber :: later => body pageNumber ;; forPages later body
  end.

Definition pageNumbers (cfg : Config) : list nat :=
  seq (startPage cfg) (endPage cfg - startPage cfg).

(** Step 1 of [main]: scrape HTML if the file doesn't already exist. *)
Definition scrapeUnlessCached (cfg : Config) : Crawl unit :=
  found <- inWorld (fileExists (htmlOutputFilePath cfg)) ;;
  if negb found then
    inWorld (log_Printf "HTML file not found. Starting scraping process...") ;;
    forPages (pageNumbers cfg) (scrapeStep cfg)
  else
    inWorld (log_Printf "HTML file already exists. Skipping scraping.").

(** Step 2 of [main]: read the full saved HTML file and extract the
    download URLs. *)
Definition readAndExtract (cfg : Config) : Crawl Prelude :=
  r <- readEntireFile (htmlOutputFilePath cfg) ;;
  match r with
  | Err err =>
      inWorld (log_Printf ("Could not read HTML file: " +:+ err)) ;;
      cret Fatal
  | Ok htmlData =>
      let downloadURLs := extractLinksFromHTML NewDocumentFromReader htmlData in
      inWorld (log_Printf ("Extracted " +:+ decimal (length downloadURLs)
                           +:+ " unique SDS document URLs.")) ;;
      cret (Dispatch downloadURLs)
  end.

(** [main] up to the worker pool. *)
Definition mainPrelude (cfg : Config) : Crawl Prelude :=
  scrapeUnlessCached cfg ;; readAndExtract cfg.

(** The pages requested from the browser, in the order of the requests. *)
Definition pagesRun (events : list CrawlEvent) : list string :=
  flat_map (fun e => match e with EvRun pageURL => [pageURL] | _ => [] end) events.

(** The contents written to text files, in the order of the writes. *)
Definition contentsWritten (events : list CrawlEvent) : list string :=
  flat_map (fun e => match e with EvWriteString _ content => [content] | _ => [] end)
    events.

(** The files opened for appending, in the order of the calls. *)
Definition filesOpened (events : list CrawlEvent) : list string :=
  flat_map (fun e => match e with EvOpenFile name => [name] | _ => [] end) events.

(** The address of a page of the literature library. *)
Definition pageURLOf (cfg : Config) (pageNumber : nat) : string :=
  basePageURL cfg +:+ decimal pageNumber.

(** What the browser renders when it is asked for the pages one after the
    other: the markup of the pages that do not fail. *)
Fixpoint rendered (pageURLs : list string) (net : Net) : list string :=
  match pageURLs with
  | [] => []
  | pageURL :: later =>
      let (net', r) := chromedp_Run pageURL net in
      match r with
      | Ok pageHTML => pageHTML :: rendered later net'
      | Err _ => rendered later net'
      end
  end.

End Crawler.

(** The in-memory platform as a host: text files in the same file system, a
    browser that renders what the network script answers, and the parser
    of the recorded parses. *)
Module MemHost.

Definition OpenFile (name : string) (fs : gmap string Mem.node)
    : gmap string Mem.node * option error :=
  let p := Mem.Clean name in
  match Mem.lookupNode fs name with
  | Some (Mem.RegularFile _) => (fs, None)
  | Some Mem.Directory => (fs, Some ("open " +:+ name +:+ ": is a directory"))
  | None =>
      match Mem.lookupNode fs (Mem.Dir p) with
      | Some Mem.Directory => (<[p := Mem.RegularFile EmptyString]> fs, None)
      | _ => (fs, Some ("open " +:+ name +:+ ": no such file or directory"))
      end
  end.

Definition WriteString (name content : string) (fs : gmap string Mem.node)
    : gmap string Mem.node * option error :=
  match fs !! Mem.Clean name with
  | Some (Mem.RegularFile old) =>
      (<[Mem.Clean name := Mem.RegularFile (old +:+ content)]> fs, None)
  | _ => (fs, Some ("write " +:+ name +:+ ": bad file descriptor"))
  end.

Definition ReadFile (name : string) (fs : gmap string Mem.node) : result string :=
  match Mem.lookupNode fs name with
  | Some (Mem.RegularFile content) => Ok content
  | Some Mem.Directory => Err ("read " +:+ name +:+ ": is a directory")
  | None => Err ("open " +:+ name +:+ ": no such file or directory")
  end.

Definition Run (pageURL : string) (net : list (result (Response Mem.stream)))
    : list (result (Response Mem.stream)) * result string :=
  match net with
  | [] => ([], Err "context deadline exceeded")
  | Ok resp :: rest => (rest, Ok (Mem.arriving (Body resp)))
  | Err err :: rest => (rest, Err err)
  end.

#[export] Instance host : @Host Mem.platform :=
  @Build_Host Mem.platform OpenFile WriteString ReadFile Run
    (recordedParser recordedParses).

Definition session (fs : gmap string Mem.node)
    (net : list (result (Response Mem.stream))) : Session :=
  {| world := Mem.world fs net; crawl := [] |}.

End MemHost.

(** * Theorems *)

(** ** Bytes and strings *)

Lemma string_app_cons (c : ascii) (a b : string) :
  String c a +:+ b = String c (a +:+ b).
Proof. reflexivity. Qed.

Lemma string_app_nil_l (s : string) : EmptyString +:+ s = s.
Proof. reflexivity. Qed.

Lemma string_forallb_app (p : ascii → bool) (a b : string) :
  string_forallb p (a +:+ b) = string_forallb p a && string_forallb p b.
Proof.
  induction a as [|c a IH]; [reflexivity|].
  rewrite string_app_cons. simpl. rewrite IH. now rewrite andb_assoc.
Qed.

Lemma toLower_safe (c : ascii) :
  Spec.safeByte c = true → Spec.safeByte (Byte_.toLower c) = true.
Proof.
  destruct c as [b0 b1 b2 b3 b4 b5 b6 b7].
  destruct b0, b1, b2, b3, b4, b5, b6, b7; vm_compute; congruence.
Qed.

Lemma toLower_alnum (c : ascii) : Byte_.isAlnum (Byte_.toLower c) = Byte_.isAlnum c.
Proof.
  destruct c as [b0 b1 b2 b3 b4 b5 b6 b7].
  destruct b0, b1, b2, b3, b4, b5, b6, b7; vm_compute; reflexivity.
Qed.

Lemma inSet_hyphen (c : ascii) : Byte_.inSet "-" c = Byte_.eqb "-" c.
Proof. simpl. now rewrite orb_false_r. Qed.

(** ** The sanitizer *)

(** [Spec.runs] cuts a text into its maximal runs. *)
Lemma runs_maximal (s : string) :
  Spec.joinRuns (Spec.runs s) = s
  ∧ forallb Spec.uniform (Spec.runs s) = true
  ∧ Spec.alternating (Spec.runs s) = true.
Proof.
  induction s as [|c s (Hjoin & Huniform & Halt)]; [repeat split|].
  cbn [Spec.runs].
  destruct (Spec.runs s) as [|[flag r] rest].
  - cbn in Hjoin. subst s. unfold Spec.uniform. cbn.
    now rewrite eqb_reflx.
  - destruct (Bool.eqb flag (negb (Byte_.isAlnum c))) eqn:Hflag.
    + apply eqb_prop in Hflag. subst flag.
      cbn [Spec.joinRuns forallb Spec.alternating] in *.
      apply andb_true_iff in Huniform as [Hrun Hrest].
      unfold Spec.uniform in *. cbn [fst snd] in *.
      apply andb_true_iff in Hrun as [_ Hrun].
      rewrite string_app_cons, Hjoin. cbn [string_forallb].
      rewrite eqb_reflx, Hrun, Hrest. repeat split. exact Halt.
    + cbn [Spec.joinRuns forallb Spec.alternating] in *.
      rewrite string_app_cons, string_app_nil_l, Hjoin, Huniform.
      unfold Spec.uniform at 1. cbn [fst snd string_forallb].
      rewrite eqb_reflx.
      destruct flag, (Byte_.isAlnum c); try discriminate; repeat split;
        exact Halt.
Qed.

Lemma replaceRuns_hyphenate (cls : ascii → bool) (s : string) :
  (∀ c, cls c = negb (Byte_.isAlnum c)) →
  replaceRuns cls "-" false s = Spec.hyphenate (Spec.runs s)
  ∧ replaceRuns cls "-" true s
    = match Spec.runs s with
      | (true, _) :: rest => Spec.hyphenate rest
      | rs => Spec.hyphenate rs
      end.
Proof.
  intros Hcls. induction s as [|c s [IHa IHb]]; [split; reflexivity|].
  cbn [replaceRuns Spec.runs]. rewrite Hcls.
  destruct (negb (Byte_.isAlnum c)) eqn:Hc.
  - rewrite IHb. destruct (Spec.runs s) as [|[[] r] rest]; split; reflexivity.
  - rewrite IHa.
    destruct (Spec.runs s) as [|[[] r] rest]; cbn [Bool.eqb Spec.hyphenate];
      rewrite ?string_app_cons, ?string_app_nil_l; split; reflexivity.
Qed.

(** The replacement made by the compiled pattern is the replacement of
    every maximal run of non-alphanumeric bytes by one hyphen. *)
Lemma ReplaceAllString_sanitize (seg : string) :
  Regexp_ReplaceAllString sanitize seg "-" = Spec.hyphenate (Spec.runs seg).
Proof. now apply replaceRuns_hyphenate. Qed.

Lemma replaceRuns_safe (cls : ascii → bool) (b : bool) (s : string) :
  (∀ c, cls c = negb (Byte_.isAlnum c)) →
  string_forallb Spec.safeByte (replaceRuns cls "-" b s) = true.
Proof.
  intros Hcls. revert b. induction s as [|c s IH]; intros b; [reflexivity|].
  cbn [replaceRuns]. rewrite Hcls.
  destruct (negb (Byte_.isAlnum c)) eqn:Hc.
  - destruct b; [apply IH|].
    rewrite string_app_cons, string_app_nil_l. simpl. apply IH.
  - simpl. rewrite IH, andb_true_r.
    unfold Spec.safeByte. apply negb_false_iff in Hc. now rewrite Hc.
Qed.

Lemma trimLeftFunc_forallb (p q : ascii → bool) (s : string) :
  string_forallb p s = true → string_forallb p (trimLeftFunc q s) = true.
Proof.
  induction s as [|c s IH]; [reflexivity|].
  intros H. simpl. destruct (q c); [|exact H].
  simpl in H. apply andb_true_iff in H as [_ H]. now apply IH.
Qed.

Lemma trimRightFunc_forallb (p q : ascii → bool) (s : string) :
  string_forallb p s = true → string_forallb p (trimRightFunc q s) = true.
Proof.
  induction s as [|c s IH]; [reflexivity|].
  simpl. intros [Hc Hs]%andb_true_iff. specialize (IH Hs).
  destruct (trimRightFunc q s) as [|d t].
  - destruct (q c); simpl; [reflexivity | now rewrite Hc].
  - change (string_forallb p (String c (String d t))) with
      (p c && string_forallb p (String d t)).
    now rewrite Hc, IH.
Qed.

Lemma ToLower_safe (s : string) :
  string_forallb Spec.safeByte s = true →
  string_forallb Spec.safeByte (strings_ToLower s) = true.
Proof.
  unfold strings_ToLower. induction s as [|c s IH]; [reflexivity|].
  simpl. intros [Hc Hs]%andb_true_iff.
  now rewrite (toLower_safe _ Hc), (IH Hs).
Qed.

(** ** Trimming and lower case, as the code does them and as they are
    worded *)

Lemma dropHyphens_trimLeft (s : string) :
  String.string_of_list_ascii (Spec.dropHyphens (String.list_ascii_of_string s))
  = trimLeftFunc (Byte_.inSet "-") s.
Proof.
  induction s as [|c s IH]; [reflexivity|].
  cbn [String.list_ascii_of_string Spec.dropHyphens trimLeftFunc Byte_.inSet].
  unfold Byte_.eqb. rewrite orb_false_r, (Ascii.eqb_sym "-" c).
  destruct (Ascii.eqb c "-"); [exact IH|].
  cbn [String.string_of_list_ascii]. now rewrite String.string_of_list_ascii_of_string.
Qed.

Lemma dropHyphens_snoc (l : list ascii) (c : ascii) :
  Spec.dropHyphens (l ++ [c])
  = match Spec.dropHyphens l with
    | [] => if Ascii.eqb c "-" then [] else [c]
    | t => t ++ [c]
    end.
Proof.
  induction l as [|a l IH]; [reflexivity|].
  cbn [app Spec.dropHyphens]. destruct (Ascii.eqb a "-"); [exact IH | reflexivity].
Qed.

Lemma dropHyphens_trimRight (s : string) :
  String.string_of_list_ascii (rev (Spec.dropHyphens (rev (String.list_ascii_of_string s))))
  = trimRightFunc (Byte_.inSet "-") s.
Proof.
  induction s as [|c s IH]; [reflexivity|].
  cbn [String.list_ascii_of_string rev trimRightFunc]. rewrite <- IH, dropHyphens_snoc.
  cbn [Byte_.inSet]. unfold Byte_.eqb.
  rewrite orb_false_r, (Ascii.eqb_sym "-" c).
  destruct (Spec.dropHyphens (rev (String.list_ascii_of_string s))) as [|d t].
  - cbn [rev String.string_of_list_ascii]. now destruct (Ascii.eqb c "-").
  - rewrite rev_app_distr. cbn [rev app String.string_of_list_ascii].
    destruct (rev t ++ [d])%list as [|a u] eqn:Hrev; [|reflexivity].
    now destruct (rev t).
Qed.

(** Trimming the hyphens at both ends is [strings.Trim(s, "-")]. *)
Lemma trimHyphens_Trim (s : string) :
  Spec.trimHyphens s = strings_Trim s "-".
Proof.
  unfold Spec.trimHyphens, strings_Trim.
  rewrite <- dropHyphens_trimRight, <- dropHyphens_trimLeft.
  now rewrite String.list_ascii_of_string_of_list_ascii.
Qed.

Lemma lowerOf_toLower (c : ascii) :
  Spec.lowerOf "ABCDEFGHIJKLMNOPQRSTUVWXYZ" "abcdefghijklmnopqrstuvwxyz" c
  = Byte_.toLower c.
Proof.
  destruct c as [b0 b1 b2 b3 b4 b5 b6 b7].
  destruct b0, b1, b2, b3, b4, b5, b6, b7; vm_compute; reflexivity.
Qed.

(** Lower case is the byte-wise [strings.ToLower]. *)
Lemma lowerCase_ToLower (s : string) :
  Spec.lowerCase s = strings_ToLower s.
Proof.
  unfold Spec.lowerCase, strings_ToLower.
  induction s as [|c s IH]; [reflexivity|].
  cbn [String.list_ascii_of_string map String.string_of_list_ascii string_map].
  now rewrite lowerOf_toLower, IH.
Qed.

(** The cleaning of a segment, in the calls of the code. *)
Lemma cleanSegment_code (seg : string) :
  Spec.cleanSegment seg
  = strings_ToLower (strings_Trim (Spec.hyphenate (Spec.runs seg)) "-").
Proof.
  unfold Spec.cleanSegment. now rewrite lowerCase_ToLower, trimHyphens_Trim.
Qed.

(** A cleaned segment is made of alphanumeric bytes and hyphens; in
    particular it is ASCII text, where [strings.ToLower] is the byte-wise
    lower-casing. *)
Lemma cleaned_segment_charset (seg : string) :
  string_forallb Spec.safeByte (Spec.cleanSegment seg) = true.
Proof.
  rewrite cleanSegment_code. unfold strings_Trim.
  apply ToLower_safe, trimRightFunc_forallb, trimLeftFunc_forallb.
  rewrite <- ReplaceAllString_sanitize. now apply replaceRuns_safe.
Qed.

Lemma Join_safe (segs : list string) :
  Forall (fun s => string_forallb Spec.safeByte s = true) segs →
  string_forallb Spec.safeByte (strings_Join segs "-") = true.
Proof.
  induction segs as [|s segs IH]; [reflexivity|].
  intros Hall. inversion Hall as [|? ? Hs Hrest]; subst.
  destruct segs as [|s' segs']; [exact Hs|].
  change (strings_Join (s :: s' :: segs') "-")
    with (s +:+ "-" +:+ strings_Join (s' :: segs') "-").
  rewrite !string_forallb_app, Hs, (IH Hrest). reflexivity.
Qed.

Lemma HasSuffix_pdf_unsafe (s : string) :
  strings_HasSuffix s ".pdf" = true → string_forallb Spec.safeByte s = false.
Proof.
  induction s as [|c s IH]; [discriminate|].
  cbn [strings_HasSuffix string_forallb].
  intros [Heq | Htail]%orb_true_iff.
  - apply String.eqb_eq in Heq. injection Heq as -> ->. reflexivity.
  - rewrite (IH Htail). apply andb_false_r.
Qed.

(** ** The cleaning loop *)

Lemma cleanStep_spec (cleaned : list string) (seg : string) :
  cleanStep cleaned seg
  = cleaned ++ List.filter Spec.nonEmpty [Spec.cleanSegment seg].
Proof.
  unfold cleanStep. rewrite ReplaceAllString_sanitize, <- cleanSegment_code.
  unfold Spec.nonEmpty. simpl.
  destruct (String.eqb (Spec.cleanSegment seg) EmptyString); simpl;
    [now rewrite app_nil_r | reflexivity].
Qed.

Lemma cleaning_loop (parts cleaned : list string) :
  fold_left cleanStep parts cleaned
  = cleaned ++ List.filter Spec.nonEmpty (map Spec.cleanSegment parts).
Proof.
  revert cleaned. induction parts as [|seg parts IH]; intros cleaned; simpl.
  - now rewrite app_nil_r.
  - rewrite IH, cleanStep_spec. simpl.
    destruct (Spec.nonEmpty (Spec.cleanSegment seg)); simpl;
      [now rewrite <- app_assoc | now rewrite app_nil_r].
Qed.

Lemma cleaned_join_safe (segments : list string) :
  string_forallb Spec.safeByte
    (strings_Join (List.filter Spec.nonEmpty (map Spec.cleanSegment segments)) "-")
  = true.
Proof.
  apply Join_safe. apply List.Forall_forall. intros s Hs.
  apply List.filter_In in Hs as [Hs _].
  apply List.in_map_iff in Hs as [seg [<- _]]. apply cleaned_segment_charset.
Qed.

(** The joined name never ends in ".pdf": the extension is always added. *)
Lemma fileName_appends (segments : list string) :
  Spec.fileName segments
  = strings_Join (List.filter Spec.nonEmpty (map Spec.cleanSegment segments)) "-"
    +:+ ".pdf".
Proof.
  unfold Spec.fileName.
  destruct (strings_HasSuffix _ ".pdf") eqn:Hsuf; [|reflexivity].
  apply HasSuffix_pdf_unsafe in Hsuf. now rewrite cleaned_join_safe in Hsuf.
Qed.

Lemma genSplit_nonempty (n : nat) (s sep : string) : genSplit n s sep ≠ [].
Proof.
  destruct n; simpl; [discriminate|]. destruct (cutAtIndex s sep) as [[? ?]|]; discriminate.
Qed.

Lemma fileNameOfParsed_spec (parsedURL : url.URL) :
  fileNameOfParsed parsedURL = Spec.fileName (Spec.segments parsedURL).
Proof.
  unfold fileNameOfParsed, Spec.segments, Spec.fileName.
  set (prd := url.Get (url.Query parsedURL) "prd").
  destruct (negb (String.eqb prd EmptyString)) eqn:Hprd.
  - destruct (strings_Split prd "~~") as [|p ps] eqn:Hsplit.
    { now apply genSplit_nonempty in Hsplit. }
    cbn [length Nat.eqb]. rewrite cleaning_loop. cbn [app].
    now destruct (strings_HasSuffix _ ".pdf").
  - cbn [length Nat.eqb app]. rewrite cleaning_loop. cbn [app].
    now destruct (strings_HasSuffix _ ".pdf").
Qed.

(** ** Segments without alphanumeric characters *)

Lemma filter_replaceRuns (cls : ascii → bool) (b : bool) (s : string) :
  (∀ c, cls c = negb (Byte_.isAlnum c)) →
  string_filter Byte_.isAlnum (replaceRuns cls "-" b s)
  = string_filter Byte_.isAlnum s.
Proof.
  intros Hcls. revert b. induction s as [|c s IH]; intros b; [reflexivity|].
  cbn [replaceRuns string_filter]. rewrite Hcls.
  destruct (Byte_.isAlnum c) eqn:Hc; cbn [negb].
  - cbn [string_filter]. now rewrite Hc, IH.
  - destruct b; [apply IH|].
    rewrite string_app_cons, string_app_nil_l. cbn [string_filter].
    replace (Byte_.isAlnum "-") with false by reflexivity. apply IH.
Qed.

Lemma filter_trimLeft_hyphens (s : string) :
  string_filter Byte_.isAlnum (trimLeftFunc (Byte_.inSet "-") s)
  = string_filter Byte_.isAlnum s.
Proof.
  induction s as [|c s IH]; [reflexivity|].
  cbn [trimLeftFunc]. destruct (Byte_.inSet "-" c) eqn:Hc; [|reflexivity].
  rewrite IH. cbn [string_filter].
  rewrite inSet_hyphen in Hc. unfold Byte_.eqb in Hc.
  apply Ascii.eqb_eq in Hc as <-. reflexivity.
Qed.

Lemma filter_trimRight_hyphens (s : string) :
  string_filter Byte_.isAlnum (trimRightFunc (Byte_.inSet "-") s)
  = string_filter Byte_.isAlnum s.
Proof.
  induction s as [|c s IH]; [reflexivity|].
  cbn [trimRightFunc string_filter].
  destruct (trimRightFunc (Byte_.inSet "-") s) as [|d t].
  - rewrite <- IH. destruct (Byte_.inSet "-" c) eqn:Hc.
    + rewrite inSet_hyphen in Hc. unfold Byte_.eqb in Hc.
      apply Ascii.eqb_eq in Hc as <-. reflexivity.
    + reflexivity.
  - cbn [string_filter] in *. now rewrite IH.
Qed.

Lemma filter_ToLower (s : string) :
  string_filter Byte_.isAlnum (strings_ToLower s)
  = strings_ToLower (string_filter Byte_.isAlnum s).
Proof.
  unfold strings_ToLower. induction s as [|c s IH]; [reflexivity|].
  cbn [string_map string_filter]. rewrite toLower_alnum.
  destruct (Byte_.isAlnum c); cbn [string_map]; now rewrite IH.
Qed.

(** The alphanumeric characters of a segment survive the cleaning, in
    their order and in lower case. *)
Lemma cleanSegment_keeps_alnum (seg : string) :
  string_filter Byte_.isAlnum (Spec.cleanSegment seg)
  = strings_ToLower (string_filter Byte_.isAlnum seg).
Proof.
  rewrite !cleanSegment_code. unfold strings_Trim.
  rewrite filter_ToLower, filter_trimRight_hyphens, filter_trimLeft_hyphens.
  rewrite <- ReplaceAllString_sanitize. unfold Regexp_ReplaceAllString.
  now rewrite filter_replaceRuns.
Qed.

Lemma allPunctuation_filter (s : string) :
  Spec.allPunctuation s = true ↔ string_filter Byte_.isAlnum s = EmptyString.
Proof.
  unfold Spec.allPunctuation. induction s as [|c s IH]; [easy|].
  cbn [string_forallb string_filter].
  destruct (Byte_.isAlnum c); cbn [negb andb]; [easy | exact IH].
Qed.

Lemma runs_allPunctuation (s : string) :
  Spec.allPunctuation s = true →
  Spec.runs s = [] ∨ ∃ r, Spec.runs s = [(true, r)].
Proof.
  unfold Spec.allPunctuation. induction s as [|c s IH]; [now left|].
  cbn [string_forallb Spec.runs]. intros [Hc Hs]%andb_true_iff. rewrite Hc.
  right. destruct (IH Hs) as [-> | [r ->]]; eauto.
Qed.

(** A segment of punctuation only cleans to nothing ... *)
Lemma cleanSegment_allPunctuation (seg : string) :
  Spec.allPunctuation seg = true → Spec.cleanSegment seg = EmptyString.
Proof.
  intros H. rewrite cleanSegment_code.
  destruct (runs_allPunctuation seg H) as [-> | [r ->]]; reflexivity.
Qed.

(** ... and only such a segment does. *)
Lemma cleanSegment_nonempty (seg : string) :
  Spec.allPunctuation seg = false → Spec.cleanSegment seg ≠ EmptyString.
Proof.
  intros H Hempty.
  assert (Hf : string_filter Byte_.isAlnum seg = EmptyString).
  { pose proof (cleanSegment_keeps_alnum seg) as Hk. rewrite Hempty in Hk.
    destruct (string_filter Byte_.isAlnum seg); [reflexivity | discriminate]. }
  apply allPunctuation_filter in Hf. congruence.
Qed.

Lemma string_length_app (a b : string) :
  String.length (a +:+ b) = String.length a + String.length b.
Proof.
  induction a as [|c a IH]; [reflexivity|].
  rewrite string_app_cons. simpl. now rewrite IH.
Qed.

Lemma string_app_eq_suffix (a b : string) : a +:+ b = b → a = EmptyString.
Proof.
  intros H.
  assert (Hlen : String.length (a +:+ b) = String.length b) by now rewrite H.
  rewrite string_length_app in Hlen.
  destruct a; [reflexivity | simpl in Hlen; lia].
Qed.

(** ** Claims about [createFileNameFromURL] *)

Lemma createFileNameFromURL_parsed (rawURL : string) (parsedURL : url.URL) :
  url.Parse rawURL = Some parsedURL →
  createFileNameFromURL rawURL = Spec.fileName (Spec.segments parsedURL).
Proof.
  intros Hparse. unfold createFileNameFromURL. rewrite Hparse.
  apply fileNameOfParsed_spec.
Qed.

(** C1: for every URL whose [prd] query parameter is not empty, the file
    name is made of the "~~"-delimited segments of the parameter in their
    order, each one cleaned (every maximal run of non-alphanumeric
    characters replaced by one hyphen, hyphens trimmed at both ends, lower
    case), the empty ones dropped, joined with "-", and ".pdf" appended
    when the join does not end in it, which is always; the product URL of
    the scenario derives "hrls00001-3-pdf-mtr-aghs-en.pdf", a segment of
    punctuation only leaves no trace in "a-b-c-d-e.pdf", and punctuation
    at the ends of a segment is trimmed away in "a-b.pdf" and
    "hrls00001-pdf.pdf". *)
Theorem prd_segments_name :
  (∀ rawURL parsedURL prd,
     url.Parse rawURL = Some parsedURL →
     url.Get (url.Query parsedURL) "prd" = prd →
     prd ≠ EmptyString →
     createFileNameFromURL rawURL = Spec.fileName (strings_Split prd "~~")
     ∧ createFileNameFromURL rawURL
       = strings_Join
           (List.filter Spec.nonEmpty
              (map Spec.cleanSegment (strings_Split prd "~~"))) "-"
         +:+ ".pdf")
  ∧ createFileNameFromURL
      "https://x.thewercs.com/DirectDocumentDownloader/Document?prd=HRLS00001-3~~PDF~~MTR~~AGHS~~EN"
    = "hrls00001-3-pdf-mtr-aghs-en.pdf"
  ∧ createFileNameFromURL "http://h/p?x=1&prd=a+b%7E%7Ec~~!!!~~D.E"
    = "a-b-c-d-e.pdf"
  ∧ createFileNameFromURL
      "https://x.thewercs.com/DirectDocumentDownloader/Document?prd=.A.~~B"
    = "a-b.pdf"
  ∧ createFileNameFromURL
      "https://x.thewercs.com/DirectDocumentDownloader/Document?prd=-(HRLS00001)-~~_PDF_"
    = "hrls00001-pdf.pdf".
Proof.
  split; [|repeat split; vm_compute; reflexivity].
  intros rawURL parsedURL prd Hparse Hprd Hne.
  rewrite <- fileName_appends.
  rewrite (createFileNameFromURL_parsed _ _ Hparse).
  unfold Spec.segments. rewrite Hprd.
  apply String.eqb_neq in Hne. rewrite Hne. split; reflexivity.
Qed.

Lemma prd_segments_name_witness :
  createFileNameFromURL "http://h/p?x=1&prd=a+b%7E%7Ec~~!!!~~D.E"
  = "a-b-c-d-e.pdf"
  ∧ Spec.fileName ["a b"; "c"; "!!!"; "D.E"] = "a-b-c-d-e.pdf"
  ∧ map Spec.cleanSegment ["a b"; "c"; "!!!"; "D.E"; ".A."; "-(HRLS00001)-"]
    = ["a-b"; "c"; EmptyString; "d-e"; "a"; "hrls00001"].
Proof.
  assert (Hname : createFileNameFromURL "http://h/p?x=1&prd=a+b%7E%7Ec~~!!!~~D.E"
                  = Spec.fileName (strings_Split "a b~~c~~!!!~~D.E" "~~")).
  { refine (proj1 (proj1 prd_segments_name
              "http://h/p?x=1&prd=a+b%7E%7Ec~~!!!~~D.E"
              {| url.Scheme := "http"; url.Opaque := EmptyString; url.Host := "h";
                 url.Path := "/p"; url.ForceQuery := false;
                 url.RawQuery := "x=1&prd=a+b%7E%7Ec~~!!!~~D.E";
                 url.Fragment := EmptyString |}
              "a b~~c~~!!!~~D.E" _ _ _)).
    - vm_compute; reflexivity.
    - vm_compute; reflexivity.
    - discriminate. }
  split; [rewrite Hname; vm_compute; reflexivity|].
  split; vm_compute; reflexivity.
Defined.

(** The name when the parameter is missing or empty. *)
Lemma fallback_name_parsed (rawURL : string) (parsedURL : url.URL) :
  url.Parse rawURL = Some parsedURL →
  url.Get (url.Query parsedURL) "prd" = EmptyString →
  createFileNameFromURL rawURL
  = Spec.fileName [strings_TrimSuffix (path_Base (url.Path parsedURL)) ".pdf"]
  ∧ createFileNameFromURL rawURL
    = Spec.cleanSegment
        (strings_TrimSuffix (path_Base (url.Path parsedURL)) ".pdf")
      +:+ ".pdf".
Proof.
  intros Hparse Hprd.
  rewrite (createFileNameFromURL_parsed _ _ Hparse).
  unfold Spec.segments. rewrite Hprd. cbn [String.eqb negb].
  split; [reflexivity|].
  rewrite fileName_appends. cbn [map List.filter].
  destruct (Spec.nonEmpty (Spec.cleanSegment _)) eqn:Hne; [reflexivity|].
  unfold Spec.nonEmpty in Hne. apply negb_false_iff, String.eqb_eq in Hne.
  now rewrite Hne.
Qed.

(** The parameter missing from the query is the parameter empty. *)
Lemma Get_absent (parsedURL : url.URL) :
  url.Query parsedURL !! "prd" = None →
  url.Get (url.Query parsedURL) "prd" = EmptyString.
Proof. unfold url.Get. now intros ->. Qed.

(** C2: for every parseable URL whose [prd] parameter is absent or empty,
    the single segment is the final element of the path with a trailing
    ".pdf" stripped; it is cleaned by the same rules (runs of
    non-alphanumeric characters replaced by one hyphen, hyphens trimmed at
    both ends, lower case) and ".pdf" is appended: so
    "TS_Staphylocoagulase%20Broth.pdf" gives
    "ts-staphylocoagulase-broth.pdf", "Bulletin_1842C.pdf" with an empty
    parameter gives "bulletin-1842c.pdf", and so does
    "_Bulletin(1842C)_.pdf". *)
Theorem path_fallback_name :
  (∀ rawURL parsedURL,
     url.Parse rawURL = Some parsedURL →
     url.Query parsedURL !! "prd" = None
     ∨ url.Get (url.Query parsedURL) "prd" = EmptyString →
     createFileNameFromURL rawURL
     = Spec.fileName [strings_TrimSuffix (path_Base (url.Path parsedURL)) ".pdf"]
     ∧ createFileNameFromURL rawURL
       = Spec.cleanSegment
           (strings_TrimSuffix (path_Base (url.Path parsedURL)) ".pdf")
         +:+ ".pdf")
  ∧ createFileNameFromURL
      "https://www.bio-rad.com/sites/default/files/webroot/web/pdf/lsr/literature/TS_Staphylocoagulase%20Broth.pdf"
    = "ts-staphylocoagulase-broth.pdf"
  ∧ createFileNameFromURL "https://www.bio-rad.com/literature/Bulletin_1842C.pdf?prd="
    = "bulletin-1842c.pdf"
  ∧ createFileNameFromURL "https://www.bio-rad.com/literature/_Bulletin(1842C)_.pdf"
    = "bulletin-1842c.pdf".
Proof.
  split; [|repeat split; vm_compute; reflexivity].
  intros rawURL parsedURL Hparse [Habsent | Hempty].
  - apply fallback_name_parsed; [exact Hparse | now apply Get_absent].
  - now apply fallback_name_parsed.
Qed.

Lemma path_fallback_name_witness :
  createFileNameFromURL
    "https://www.bio-rad.com/sites/default/files/webroot/web/pdf/lsr/literature/TS_Staphylocoagulase%20Broth.pdf"
  = "ts-staphylocoagulase-broth.pdf"
  ∧ createFileNameFromURL "https://www.bio-rad.com/literature/Bulletin_1842C.pdf?prd="
    = "bulletin-1842c.pdf"
  ∧ Spec.cleanSegment "TS_Staphylocoagulase Broth" = "ts-staphylocoagulase-broth"
  ∧ Spec.cleanSegment "Bulletin_1842C" = "bulletin-1842c"
  ∧ Spec.cleanSegment "_Bulletin(1842C)_" = "bulletin-1842c".
Proof.
  assert (Hbroth :
    createFileNameFromURL
      "https://www.bio-rad.com/sites/default/files/webroot/web/pdf/lsr/literature/TS_Staphylocoagulase%20Broth.pdf"
    = Spec.cleanSegment
        (strings_TrimSuffix
           (path_Base
              "/sites/default/files/webroot/web/pdf/lsr/literature/TS_Staphylocoagulase Broth.pdf")
           ".pdf")
      +:+ ".pdf").
  { refine (proj2 (proj1 path_fallback_name
              "https://www.bio-rad.com/sites/default/files/webroot/web/pdf/lsr/literature/TS_Staphylocoagulase%20Broth.pdf"
              {| url.Scheme := "https"; url.Opaque := EmptyString;
                 url.Host := "www.bio-rad.com";
                 url.Path := "/sites/default/files/webroot/web/pdf/lsr/literature/TS_Staphylocoagulase Broth.pdf";
                 url.ForceQuery := false; url.RawQuery := EmptyString;
                 url.Fragment := EmptyString |} _ _)).
    - vm_compute; reflexivity.
    - left. vm_compute; reflexivity. }
  assert (Hbulletin :
    createFileNameFromURL "https://www.bio-rad.com/literature/Bulletin_1842C.pdf?prd="
    = Spec.cleanSegment
        (strings_TrimSuffix (path_Base "/literature/Bulletin_1842C.pdf") ".pdf")
      +:+ ".pdf").
  { refine (proj2 (proj1 path_fallback_name
              "https://www.bio-rad.com/literature/Bulletin_1842C.pdf?prd="
              {| url.Scheme := "https"; url.Opaque := EmptyString;
                 url.Host := "www.bio-rad.com";
                 url.Path := "/literature/Bulletin_1842C.pdf";
                 url.ForceQuery := false; url.RawQuery := "prd=";
                 url.Fragment := EmptyString |} _ _)).
    - vm_compute; reflexivity.
    - right. vm_compute; reflexivity. }
  split; [rewrite Hbroth; vm_compute; reflexivity|].
  split; [rewrite Hbulletin; vm_compute; reflexivity|].
  repeat split; vm_compute; reflexivity.
Defined.

(** C3: the function returns a file name for every input string, and the
    fixed name "invalid-url.pdf" for every input that does not parse as a
    URL. *)
Theorem total_with_fallback :
  (∀ rawURL, ∃ stem, createFileNameFromURL rawURL = stem +:+ ".pdf")
  ∧ (∀ rawURL,
       url.Parse rawURL = None →
       createFileNameFromURL rawURL = "invalid-url.pdf").
Proof.
  split.
  - intros rawURL. unfold createFileNameFromURL.
    destruct (url.Parse rawURL) as [parsedURL|].
    + rewrite fileNameOfParsed_spec, fileName_appends. eauto.
    + now exists "invalid-url".
  - intros rawURL Hparse. unfold createFileNameFromURL. now rewrite Hparse.
Qed.

Lemma total_with_fallback_witness :
  createFileNameFromURL "https://www.bio-rad.com/100%_pure.pdf" = "invalid-url.pdf".
Proof.
  refine (proj2 total_with_fallback "https://www.bio-rad.com/100%_pure.pdf" _).
  vm_compute; reflexivity.
Defined.

(** The claim C4 promises a non-empty token before ".pdf" for a parseable
    URL with an empty path base and no [prd] parameter.  The URL of the
    site itself parses, has the empty path and no query, and its file name
    is the bare ".pdf". *)
Lemma empty_base_bare_pdf :
  ∃ parsedURL,
    url.Parse "https://www.bio-rad.com" = Some parsedURL
    ∧ url.Path parsedURL = EmptyString
    ∧ url.Get (url.Query parsedURL) "prd" = EmptyString
    ∧ createFileNameFromURL "https://www.bio-rad.com" = ".pdf"
    ∧ ¬ (∃ token, token ≠ EmptyString
                  ∧ createFileNameFromURL "https://www.bio-rad.com"
                    = token +:+ ".pdf").
Proof.
  eexists. split; [vm_compute; reflexivity|].
  split; [reflexivity|]. split; [vm_compute; reflexivity|].
  assert (Hname : createFileNameFromURL "https://www.bio-rad.com" = ".pdf")
    by (vm_compute; reflexivity).
  split; [exact Hname|].
  intros [token [Hne Heq]]. rewrite Hname in Heq.
  symmetry in Heq. apply string_app_eq_suffix in Heq. contradiction.
Qed.

(** C4, amended: a segment without alphanumeric characters is dropped by
    the cleaning loop and contributes nothing to the name; when the [prd]
    parameter is absent or empty the name is the bare ".pdf" exactly when
    the stripped base of the path has no alphanumeric character, as for
    the empty path, and it has a non-empty token before ".pdf"
    otherwise. *)
Theorem punctuation_segments_dropped :
  (∀ before seg after cleaned,
     Spec.allPunctuation seg = true →
     fold_left cleanStep (before ++ seg :: after) cleaned
     = fold_left cleanStep (before ++ after) cleaned)
  ∧ (∀ rawURL parsedURL,
       url.Parse rawURL = Some parsedURL →
       url.Get (url.Query parsedURL) "prd" = EmptyString →
       Spec.allPunctuation
         (strings_TrimSuffix (path_Base (url.Path parsedURL)) ".pdf") = true →
       createFileNameFromURL rawURL = ".pdf")
  ∧ (∀ rawURL parsedURL,
       url.Parse rawURL = Some parsedURL →
       url.Get (url.Query parsedURL) "prd" = EmptyString →
       url.Path parsedURL = EmptyString →
       createFileNameFromURL rawURL = ".pdf")
  ∧ (∀ rawURL parsedURL,
       url.Parse rawURL = Some parsedURL →
       url.Get (url.Query parsedURL) "prd" = EmptyString →
       Spec.allPunctuation
         (strings_TrimSuffix (path_Base (url.Path parsedURL)) ".pdf") = false →
       ∃ token, token ≠ EmptyString
                ∧ createFileNameFromURL rawURL = token +:+ ".pdf").
Proof.
  assert (Hbare : ∀ rawURL parsedURL,
             url.Parse rawURL = Some parsedURL →
             url.Get (url.Query parsedURL) "prd" = EmptyString →
             Spec.allPunctuation
               (strings_TrimSuffix (path_Base (url.Path parsedURL)) ".pdf") = true →
             createFileNameFromURL rawURL = ".pdf").
  { intros rawURL parsedURL Hparse Hprd Hpunct.
    destruct (fallback_name_parsed _ _ Hparse Hprd) as [_ ->].
    now rewrite (cleanSegment_allPunctuation _ Hpunct). }
  split; [|split; [exact Hbare|split]].
  - intros before seg after cleaned Hpunct.
    rewrite !fold_left_app. cbn [fold_left]. f_equal.
    rewrite cleanStep_spec. cbn [List.filter].
    rewrite (cleanSegment_allPunctuation _ Hpunct). cbn.
    apply app_nil_r.
  - intros rawURL parsedURL Hparse Hprd Hpath.
    apply (Hbare _ _ Hparse Hprd). now rewrite Hpath.
  - intros rawURL parsedURL Hparse Hprd Hpunct.
    destruct (fallback_name_parsed _ _ Hparse Hprd) as [_ ->].
    eexists. split; [|reflexivity]. now apply cleanSegment_nonempty.
Qed.

Lemma punctuation_segments_dropped_witness :
  fold_left cleanStep (["HRLS00001-3"] ++ "~!@" :: ["PDF"]) []
  = fold_left cleanStep (["HRLS00001-3"] ++ ["PDF"]) []
  ∧ createFileNameFromURL "https://www.bio-rad.com/sites/_.pdf" = ".pdf"
  ∧ createFileNameFromURL "https://www.bio-rad.com?page=2" = ".pdf"
  ∧ ∃ token, token ≠ EmptyString
             ∧ createFileNameFromURL "https://www.bio-rad.com/sites/B_1.pdf"
               = token +:+ ".pdf".
Proof.
  destruct punctuation_segments_dropped as [Hdrop [Hbare [Hempty Htoken]]].
  split; [|split; [|split]].
  - apply Hdrop. vm_compute; reflexivity.
  - refine (Hbare _ {| url.Scheme := "https"; url.Opaque := EmptyString;
                       url.Host := "www.bio-rad.com"; url.Path := "/sites/_.pdf";
                       url.ForceQuery := false; url.RawQuery := EmptyString;
                       url.Fragment := EmptyString |} _ _ _);
      vm_compute; reflexivity.
  - refine (Hempty _ {| url.Scheme := "https"; url.Opaque := EmptyString;
                        url.Host := "www.bio-rad.com"; url.Path := EmptyString;
                        url.ForceQuery := false; url.RawQuery := "page=2";
                        url.Fragment := EmptyString |} _ _ _);
      vm_compute; reflexivity.
  - refine (Htoken _ {| url.Scheme := "https"; url.Opaque := EmptyString;
                        url.Host := "www.bio-rad.com"; url.Path := "/sites/B_1.pdf";
                        url.ForceQuery := false; url.RawQuery := EmptyString;
                        url.Fragment := EmptyString |} _ _ _);
      vm_compute; reflexivity.
Defined.

(** ** Claims about [extractLinksFromHTML] *)

Lemma isAllowed_substring (url : string) :
  isAllowed url = true →
  strings_Contains url "bio-rad-sds.thewercs.com/DirectDocumentDownloader/Document" = true
  ∨ strings_Contains url "bio-rad.com/sites/default/files/webroot/web/pdf" = true.
Proof.
  unfold isAllowed, allowedDomains. cbn [containsAnyOf].
  destruct (strings_Contains url "bio-rad-sds.thewercs.com/DirectDocumentDownloader/Document");
    [now left|].
  destruct (strings_Contains url "bio-rad.com/sites/default/files/webroot/web/pdf");
    [now right | discriminate].
Qed.

Lemma reconstruct_prefix (piece : string) :
  Spec.reconstruct piece ≠ EmptyString →
  strings_HasPrefix (Spec.reconstruct piece) "http" = true.
Proof.
  unfold Spec.reconstruct.
  destruct (strings_HasPrefix piece "http") eqn:Hp; [now rewrite Hp|].
  destruct (strings_Contains piece ".thewercs.com" || strings_Contains piece ".bio-rad.com");
    [reflexivity | congruence].
Qed.

Lemma hiddenPartStep_spec (urls : list string) (part : string) :
  hiddenPartStep urls part
  = urls ++ List.filter Spec.kept [Spec.reconstruct part].
Proof.
  unfold hiddenPartStep. fold (Spec.reconstruct part).
  cbn [List.filter]. unfold Spec.kept, Spec.nonEmpty.
  destruct (negb (String.eqb (Spec.reconstruct part) EmptyString) && isAllowed _);
    [reflexivity | now rewrite app_nil_r].
Qed.

Lemma hiddenParts_spec (parts urls : list string) :
  fold_left hiddenPartStep parts urls
  = urls ++ List.filter Spec.kept (map Spec.reconstruct parts).
Proof.
  revert urls. induction parts as [|part parts IH]; intros urls.
  - cbn. now rewrite app_nil_r.
  - cbn [fold_left map]. rewrite IH, hiddenPartStep_spec.
    rewrite <- app_assoc. f_equal. cbn [List.filter].
    now destruct (Spec.kept (Spec.reconstruct part)).
Qed.

Lemma kept_allowedLink (parts : list string) :
  Forall Spec.allowedLink (List.filter Spec.kept (map Spec.reconstruct parts)).
Proof.
  apply List.Forall_forall. intros url [Hin Hkept]%List.filter_In.
  apply List.in_map_iff in Hin as [piece [<- _]].
  unfold Spec.kept, Spec.nonEmpty in Hkept.
  apply andb_true_iff in Hkept as [Hne Hallowed].
  split; [|exact Hallowed].
  apply reconstruct_prefix. intros Heq. rewrite Heq in Hne. discriminate.
Qed.

Lemma hiddenInputStep_allowed (urls : list string) (s : html.Node) :
  Forall Spec.allowedLink urls → Forall Spec.allowedLink (hiddenInputStep urls s).
Proof.
  intros Hurls. unfold hiddenInputStep.
  destruct (goquery.Attr s "value") as [val|]; [|exact Hurls].
  rewrite hiddenParts_spec. apply Forall_app_2; [exact Hurls|].
  apply kept_allowedLink.
Qed.

Lemma optionStep_allowed (urls : list string) (s : html.Node) :
  Forall Spec.allowedLink urls → Forall Spec.allowedLink (optionStep urls s).
Proof.
  intros Hurls. unfold optionStep.
  destruct (goquery.Attr s "value") as [val|]; [|exact Hurls].
  destruct (strings_HasPrefix val "http" && isAllowed val) eqn:Hval; [|exact Hurls].
  apply andb_true_iff in Hval. apply Forall_app_2; [exact Hurls|].
  now constructor.
Qed.

Lemma anchorStep_allowed (urls : list string) (s : html.Node) :
  Forall Spec.allowedLink urls → Forall Spec.allowedLink (anchorStep urls s).
Proof.
  intros Hurls. unfold anchorStep.
  destruct (goquery.Attr s "href") as [href|]; [|exact Hurls].
  destruct (strings_HasPrefix href "http" && isAllowed href) eqn:Hval; [|exact Hurls].
  apply andb_true_iff in Hval. apply Forall_app_2; [exact Hurls|].
  now constructor.
Qed.

Lemma Each_preserves {A B : Type} (P : list B → Prop) (f : list B → A → list B)
    (selection : list A) (urls : list B) :
  (∀ acc s, P acc → P (f acc s)) → P urls → P (fold_left f selection urls).
Proof.
  intros Hstep. revert urls.
  induction selection as [|s selection IH]; intros urls Hurls; [exact Hurls|].
  cbn [fold_left]. apply IH, Hstep, Hurls.
Qed.

Lemma linksOfDocument_allowed (doc : html.Node) :
  Forall Spec.allowedLink (linksOfDocument doc).
Proof.
  unfold linksOfDocument.
  apply Each_preserves; [apply anchorStep_allowed|].
  apply Each_preserves; [apply optionStep_allowed|].
  apply Each_preserves; [apply hiddenInputStep_allowed|].
  constructor.
Qed.

(** C5: whatever the markup and whatever tree the parser builds for it,
    every string in the list returned by [extractLinksFromHTML] starts
    with "http" and contains one of the two allow-listed substrings; this
    covers the three sources, since the list is filled by them only. *)
Theorem extracted_links_allowed (parser : HTMLParser) (htmlContent url : string) :
  In url (extractLinksFromHTML parser htmlContent) →
  strings_HasPrefix url "http" = true
  ∧ (strings_Contains url
       "bio-rad-sds.thewercs.com/DirectDocumentDownloader/Document" = true
     ∨ strings_Contains url
         "bio-rad.com/sites/default/files/webroot/web/pdf" = true).
Proof.
  unfold extractLinksFromHTML.
  destruct (parser htmlContent) as [doc|]; [|intros []].
  intros Hin.
  pose proof (linksOfDocument_allowed doc) as Hall.
  rewrite List.Forall_forall in Hall. destruct (Hall url Hin) as [Hprefix Hallowed].
  split; [exact Hprefix | now apply isAllowed_substring].
Qed.

Lemma extracted_links_allowed_witness :
  extractLinksFromHTML (recordedParser recordedParses) mixedMarkup
  = [ "https://bio-rad-sds.thewercs.com/DirectDocumentDownloader/Document?prd=A~~PDF";
      "https://www.bio-rad.com/sites/default/files/webroot/web/pdf/lsr/literature/B.pdf";
      "https://www.bio-rad.com/sites/default/files/webroot/web/pdf/C.pdf" ]
  ∧ strings_HasPrefix
      "https://www.bio-rad.com/sites/default/files/webroot/web/pdf/C.pdf" "http"
    = true
  ∧ (strings_Contains
       "https://www.bio-rad.com/sites/default/files/webroot/web/pdf/C.pdf"
       "bio-rad-sds.thewercs.com/DirectDocumentDownloader/Document" = true
     ∨ strings_Contains
         "https://www.bio-rad.com/sites/default/files/webroot/web/pdf/C.pdf"
         "bio-rad.com/sites/default/files/webroot/web/pdf" = true).
Proof.
  split; [vm_compute; reflexivity|].
  apply (extracted_links_allowed (recordedParser recordedParses) mixedMarkup).
  vm_compute. right. right. left. reflexivity.
Defined.

Lemma optionStep_not_candidate (urls : list string) (s : html.Node) :
  Spec.candidate "value" s = false → optionStep urls s = urls.
Proof.
  unfold Spec.candidate, optionStep.
  destruct (goquery.Attr s "value") as [val|]; [|reflexivity]. now intros ->.
Qed.

Lemma anchorStep_not_candidate (urls : list string) (s : html.Node) :
  Spec.candidate "href" s = false → anchorStep urls s = urls.
Proof.
  unfold Spec.candidate, anchorStep.
  destruct (goquery.Attr s "href") as [href|]; [|reflexivity]. now intros ->.
Qed.

Lemma Each_no_candidate (f : list string → html.Node → list string)
    (selection : list html.Node) (urls : list string) :
  (∀ s, In s selection → ∀ acc, f acc s = acc) →
  fold_left f selection urls = urls.
Proof.
  revert urls. induction selection as [|s selection IH]; intros urls Hnone;
    [reflexivity|].
  cbn [fold_left]. rewrite (Hnone s (or_introl eq_refl)).
  apply IH. intros s' Hin. apply Hnone. now right.
Qed.

(** C6: when the markup holds one hidden input, whose value is
    "foo~https://example.bio-rad.com/sites/default/files/webroot/web/pdf/X.pdf",
    and no option or anchor with a candidate URL, the extractor returns
    exactly the list of the one URL
    "https://example.bio-rad.com/sites/default/files/webroot/web/pdf/X.pdf".
    In general the value of a hidden input is split on "~https://", each
    piece is rebuilt ([Spec.reconstruct]) and the rebuilt URLs that pass the
    allow-list check are appended in their order. *)
Theorem hidden_input_scenario :
  (∀ (parser : HTMLParser) htmlContent doc input,
     parser htmlContent = Some doc →
     goquery.Find doc (goquery.TagWithAttr "input" "type" "hidden") = [input] →
     goquery.Attr input "value"
     = Some "foo~https://example.bio-rad.com/sites/default/files/webroot/web/pdf/X.pdf" →
     (∀ s, In s (goquery.Find doc (goquery.Tag "option")) →
           Spec.candidate "value" s = false) →
     (∀ s, In s (goquery.Find doc (goquery.Tag "a")) →
           Spec.candidate "href" s = false) →
     extractLinksFromHTML parser htmlContent
     = ["https://example.bio-rad.com/sites/default/files/webroot/web/pdf/X.pdf"])
  ∧ (∀ urls s val,
       goquery.Attr s "value" = Some val →
       hiddenInputStep urls s
       = urls ++ List.filter Spec.kept
                   (map Spec.reconstruct (strings_Split val "~https://"))).
Proof.
  split.
  - intros parser htmlContent doc input Hparse Hhidden Hvalue Hoptions Hanchors.
    unfold extractLinksFromHTML. rewrite Hparse. unfold linksOfDocument.
    rewrite Hhidden. cbn [fold_left]. unfold hiddenInputStep at 1.
    rewrite Hvalue.
    rewrite (Each_no_candidate anchorStep).
    2:{ intros s Hin acc. now apply anchorStep_not_candidate, Hanchors. }
    rewrite (Each_no_candidate optionStep).
    2:{ intros s Hin acc. now apply optionStep_not_candidate, Hoptions. }
    vm_compute. reflexivity.
  - intros urls s val Hvalue. unfold hiddenInputStep. rewrite Hvalue.
    apply hiddenParts_spec.
Qed.

Lemma hidden_input_scenario_witness :
  extractLinksFromHTML (recordedParser recordedParses) hiddenInputMarkup
  = ["https://example.bio-rad.com/sites/default/files/webroot/web/pdf/X.pdf"].
Proof.
  refine (proj1 hidden_input_scenario (recordedParser recordedParses)
            hiddenInputMarkup hiddenInputDocument
            (element "input"
               [ ("type", "hidden");
                 ("value",
                  "foo~https://example.bio-rad.com/sites/default/files/webroot/web/pdf/X.pdf") ]
               []) _ _ _ _ _).
  - vm_compute; reflexivity.
  - vm_compute; reflexivity.
  - vm_compute; reflexivity.
  - intros s Hin. vm_compute in Hin. destruct Hin.
  - intros s Hin. vm_compute in Hin. destruct Hin.
Defined.

(** C7: when the parser returns an error for the markup, the extractor
    returns the empty list; its result is a list of strings in every case,
    so that no error reaches the caller. *)
Theorem parse_failure_no_links (parser : HTMLParser) (htmlContent : string) :
  parser htmlContent = None → extractLinksFromHTML parser htmlContent = [].
Proof. intros Hparse. unfold extractLinksFromHTML. now rewrite Hparse. Qed.

Lemma parse_failure_no_links_witness :
  extractLinksFromHTML (recordedParser []) hiddenInputMarkup = [].
Proof.
  apply (parse_failure_no_links (recordedParser [])).
  vm_compute; reflexivity.
Defined.

(** ** Claims about [downloadPDFFile] *)

Section DownloaderFacts.
Context `{Platform}.

Lemma fileExists_run (name : string) (w : World) :
  fileExists name w
  = ({| files := files w; network := network w;
        trace := trace w ++ [EvStat name]; logged := logged w |},
     regularFileAt name (files w)).
Proof.
  unfold fileExists, Stat, bind, emit, ret, regularFileAt. cbn.
  now destruct (os_Stat name (files w)).
Qed.

Lemma download_skips (downloadURL outputDirectory outputFileName : string)
    (w : World) :
  regularFileAt (filepath_Join outputDirectory outputFileName) (files w) = true →
  downloadPDFFile downloadURL outputDirectory outputFileName w
  = (skipped (filepath_Join outputDirectory outputFileName) w, None).
Proof.
  intros Hfile. unfold downloadPDFFile, bind at 1.
  rewrite fileExists_run, Hfile. reflexivity.
Qed.

Lemma fetches_app (t u : list Event) : fetches (t ++ u) = fetches t + fetches u.
Proof. unfold fetches. now rewrite List.filter_app, length_app. Qed.

Ltac count_fetches := cbn -[fetches]; rewrite ?fetches_app; cbn; lia.

(** One fetch per call that does not find the file, none otherwise. *)
Lemma download_fetches (downloadURL outputDirectory outputFileName : string)
    (w w1 : World) (e : option error) :
  downloadPDFFile downloadURL outputDirectory outputFileName w = (w1, e) →
  fetches (trace w1)
  = fetches (trace w)
    + (if regularFileAt (filepath_Join outputDirectory outputFileName) (files w)
       then 0 else 1).
Proof.
  unfold downloadPDFFile, bind at 1. rewrite fileExists_run.
  destruct (regularFileAt _ (files w)) eqn:Hfile.
  - intros [= <- _]. count_fetches.
  - unfold Get, MkdirAll, Create, Copy, log_Printf, bind, emit, ret. cbn.
    destruct (http_Get downloadURL (network w)) as [net1 [resp|err]]; cbn.
    2:{ intros [= <- _]. count_fetches. }
    destruct (negb (StatusCode resp =? StatusOK)%Z); cbn.
    { intros [= <- _]. count_fetches. }
    destruct (os_MkdirAll outputDirectory (files w)) as [fs2 [err|]]; cbn.
    { intros [= <- _]. count_fetches. }
    destruct (os_Create _ fs2) as [fs3 [err|]]; cbn.
    { intros [= <- _]. count_fetches. }
    destruct (io_Copy _ (Body resp) (fs3, net1)) as [[fs4 net4] [err|]]; cbn.
    { intros [= <- _]. count_fetches. }
    intros [= <- _]. count_fetches.
Qed.

(** After a call that returned nil the file is there. *)
Lemma download_success_file (downloadURL outputDirectory outputFileName : string)
    (w w1 : World) :
  keepsCreatedFiles →
  downloadPDFFile downloadURL outputDirectory outputFileName w = (w1, None) →
  regularFileAt (filepath_Join outputDirectory outputFileName) (files w1) = true.
Proof.
  intros [Hcreate Hcopy].
  unfold downloadPDFFile, bind at 1. rewrite fileExists_run.
  destruct (regularFileAt _ (files w)) eqn:Hfile.
  - intros [= <-]. exact Hfile.
  - unfold Get, MkdirAll, Create, Copy, log_Printf, bind, emit, ret. cbn.
    destruct (http_Get downloadURL (network w)) as [net1 [resp|err]]; cbn;
      [|discriminate].
    destruct (negb (StatusCode resp =? StatusOK)%Z); cbn; [discriminate|].
    destruct (os_MkdirAll outputDirectory (files w)) as [fs2 [err|]]; cbn;
      [discriminate|].
    destruct (os_Create _ fs2) as [fs3 [err|]] eqn:Hc; cbn; [discriminate|].
    destruct (io_Copy _ (Body resp) (fs3, net1)) as [[fs4 net4] [err|]] eqn:Hio;
      cbn; [discriminate|].
    intros [= <-]. cbn.
    eapply Hcopy; [exact Hio|]. eapply Hcreate, Hc.
Qed.

(** C8, amended: when a regular file is at the joined destination path the
    call returns nil, fetches nothing and leaves the files as they are.
    Hence, when a first call leaves a regular file at the destination, as
    every call that returns nil does (on a platform where a created file
    stays a regular file), a second call for the same URL and destination
    is such a skip: it fetches nothing and changes no file, so that the
    two calls make the fetches of the first one, which is one fetch when
    the file was not there before and none when it was. *)
Theorem download_skips_existing_file :
  (∀ downloadURL outputDirectory outputFileName w,
     regularFileAt (filepath_Join outputDirectory outputFileName) (files w) = true →
     downloadPDFFile downloadURL outputDirectory outputFileName w
     = (skipped (filepath_Join outputDirectory outputFileName) w, None))
  ∧ (∀ downloadURL outputDirectory outputFileName w w1 e1 w2 e2,
       downloadPDFFile downloadURL outputDirectory outputFileName w = (w1, e1) →
       regularFileAt (filepath_Join outputDirectory outputFileName) (files w1)
       = true →
       downloadPDFFile downloadURL outputDirectory outputFileName w1 = (w2, e2) →
       e2 = None
       ∧ files w2 = files w1
       ∧ network w2 = network w1
       ∧ fetches (trace w2) = fetches (trace w1)
       ∧ fetches (trace w2)
         = fetches (trace w)
           + (if regularFileAt (filepath_Join outputDirectory outputFileName)
                   (files w)
              then 0 else 1))
  ∧ (∀ downloadURL outputDirectory outputFileName w w1,
       keepsCreatedFiles →
       downloadPDFFile downloadURL outputDirectory outputFileName w = (w1, None) →
       regularFileAt (filepath_Join outputDirectory outputFileName) (files w1)
       = true).
Proof.
  split; [apply download_skips|]. split; [|apply download_success_file].
  intros downloadURL outputDirectory outputFileName w w1 e1 w2 e2
    Hfirst Hfile Hsecond.
  pose proof (download_fetches _ _ _ _ _ _ Hfirst) as Hone.
  rewrite (download_skips _ _ _ _ Hfile) in Hsecond.
  injection Hsecond as <- <-.
  assert (Hsame : fetches (trace (skipped (filepath_Join outputDirectory outputFileName) w1))
                  = fetches (trace w1)).
  { cbn -[fetches]. rewrite fetches_app. cbn. lia. }
  repeat split; try reflexivity; try exact Hsame.
  now rewrite Hsame, Hone.
Qed.

(** C10: when the file is not there and the fetch returns a response whose
    status code is not 200, the call returns the error "download failed
    with status: ..." after [os.Stat] and [http.Get] only: neither
    [os.MkdirAll] nor [os.Create] is called and the files are unchanged. *)
Theorem failed_status_leaves_files
    (downloadURL outputDirectory outputFileName : string) (w : World)
    (net' : Net) (resp : Response Stream) :
  regularFileAt (filepath_Join outputDirectory outputFileName) (files w) = false →
  http_Get downloadURL (network w) = (net', Ok resp) →
  StatusCode resp ≠ StatusOK →
  downloadPDFFile downloadURL outputDirectory outputFileName w
  = ({| files := files w; network := net';
        trace := trace w ++ [EvStat (filepath_Join outputDirectory outputFileName);
                             EvGet downloadURL];
        logged := logged w |},
     Some ("download failed with status: " +:+ Status resp)).
Proof.
  intros Hfile Hget Hstatus.
  unfold downloadPDFFile, bind at 1. rewrite fileExists_run, Hfile.
  unfold Get, bind, emit, ret. cbn. rewrite Hget. cbn.
  apply Z.eqb_neq in Hstatus. rewrite Hstatus. cbn.
  now rewrite <- app_assoc.
Qed.

End DownloaderFacts.

Lemma Mem_keepsCreatedFiles : @keepsCreatedFiles Mem.platform.
Proof.
  assert (Hwritten : ∀ name content (fs : gmap string Mem.node),
             Mem.lookupNode fs name ≠ Some Mem.Directory →
             @regularFileAt Mem.platform name
               (<[Mem.Clean name := Mem.RegularFile content]> fs)
             = true).
  { intros name content fs Hnode. unfold regularFileAt. cbn.
    unfold Mem.Stat, Mem.lookupNode in *.
    destruct (String.eqb (Mem.Clean name) "." || String.eqb (Mem.Clean name) "/");
      [congruence|].
    now rewrite lookup_insert_eq. }
  split.
  - intros name fs fs'. cbn. unfold Mem.Create.
    destruct (Mem.lookupNode fs (Mem.Dir (Mem.Clean name))) as [[content|]|];
      try (intros ?; discriminate).
    destruct (Mem.lookupNode fs name) as [[content|]|] eqn:Hnode;
      try (intros ?; discriminate); intros [= <-]; apply Hwritten; congruence.
  - intros name body fs net fs' net' e. cbn. unfold Mem.Copy. cbn.
    intros [= <- _ _] Hfile. apply Hwritten.
    unfold regularFileAt in Hfile. cbn in Hfile. unfold Mem.Stat in Hfile.
    intros Hdir. now rewrite Hdir in Hfile.
Qed.

Lemma download_skips_existing_file_witness :
  ∃ w1 w2 : World,
    downloadPDFFile "https://www.bio-rad.com/webroot/web/pdf/Bulletin_1842C.pdf"
      "PDFs" "bulletin-1842c.pdf" (Mem.world ∅ [Mem.found "%PDF-1.4"])
    = (w1, None)
    ∧ downloadPDFFile "https://www.bio-rad.com/webroot/web/pdf/Bulletin_1842C.pdf"
        "PDFs" "bulletin-1842c.pdf" w1
      = (w2, None)
    ∧ files w2 = files w1
    ∧ fetches (trace w2) = 1.
Proof.
  set (url := "https://www.bio-rad.com/webroot/web/pdf/Bulletin_1842C.pdf").
  set (w := Mem.world ∅ [Mem.found "%PDF-1.4"]).
  set (r1 := downloadPDFFile url "PDFs" "bulletin-1842c.pdf" w).
  set (r2 := downloadPDFFile url "PDFs" "bulletin-1842c.pdf" (fst r1)).
  assert (H1 : r1 = (fst r1, None)) by (vm_compute; reflexivity).
  assert (H2 : r2 = (fst r2, snd r2)) by apply surjective_pairing.
  destruct (@download_skips_existing_file Mem.platform)
    as (_ & Hsecond & Hcreated).
  pose proof (Hcreated url "PDFs" "bulletin-1842c.pdf" w (fst r1)
                Mem_keepsCreatedFiles H1) as Hfile.
  destruct (Hsecond url "PDFs" "bulletin-1842c.pdf" w (fst r1) None
              (fst r2) (snd r2) H1 Hfile H2)
    as (He & Hfiles & _ & _ & Hcount).
  exists (fst r1), (fst r2). split; [exact H1|].
  split; [rewrite <- He; exact H2|]. split; [exact Hfiles|].
  rewrite Hcount. vm_compute; reflexivity.
Defined.

(** The claim C8 promises exactly one fetch for two calls with the same URL
    and destination, and the files of one call.  When the server answers
    404 the first call creates no file and the second call fetches again:
    two fetches; and when the server then answers 200 the second call
    writes the file the first one did not. *)
Lemma failed_download_is_fetched_again :
  let url := "https://www.bio-rad.com/webroot/web/pdf/Bulletin_1842C.pdf" in
  let call := downloadPDFFile url "PDFs" (createFileNameFromURL url) in
  (let w0 := Mem.world ∅ [Mem.notFound; Mem.notFound] in
   let w2 := fst (call (fst (call w0))) in
   fetches (trace w0) = 0 ∧ fetches (trace w2) = 2
   ∧ ¬ (fetches (trace w2) = fetches (trace w0) + 1))
  ∧ (let w0 := Mem.world ∅ [Mem.notFound; Mem.found "%PDF-1.4"] in
     let w1 := fst (call w0) in
     let w2 := fst (call w1) in
     files w1 = ∅
     ∧ files w2 !! "PDFs/bulletin-1842c.pdf" = Some (Mem.RegularFile "%PDF-1.4")
     ∧ files w2 ≠ files w1).
Proof.
  split.
  - vm_compute. repeat split; try reflexivity. discriminate.
  - cbv zeta.
    assert (H1 : files (fst (downloadPDFFile
                   "https://www.bio-rad.com/webroot/web/pdf/Bulletin_1842C.pdf" "PDFs"
                   (createFileNameFromURL
                      "https://www.bio-rad.com/webroot/web/pdf/Bulletin_1842C.pdf")
                   (Mem.world ∅ [Mem.notFound; Mem.found "%PDF-1.4"]))) = ∅)
      by (vm_compute; reflexivity).
    split; [exact H1|].
    assert (H2 : ∀ m : gmap string Mem.node,
               m = ∅ → m !! "PDFs/bulletin-1842c.pdf" = None)
      by (intros m ->; apply lookup_empty).
    split; [vm_compute; reflexivity|].
    intros Heq. rewrite H1 in Heq. apply H2 in Heq.
    vm_compute in Heq. discriminate.
Qed.

Lemma failed_status_leaves_files_witness :
  let result :=
    downloadPDFFile "https://www.bio-rad.com/webroot/web/pdf/Bulletin_1842C.pdf"
      "PDFs" "bulletin-1842c.pdf" (Mem.world ∅ [Mem.notFound]) in
  snd result = Some "download failed with status: 404 Not Found"
  ∧ files (fst result) = ∅
  ∧ trace (fst result)
    = [EvStat "PDFs/bulletin-1842c.pdf";
       EvGet "https://www.bio-rad.com/webroot/web/pdf/Bulletin_1842C.pdf"].
Proof.
  cbv zeta.
  rewrite (@failed_status_leaves_files Mem.platform
             "https://www.bio-rad.com/webroot/web/pdf/Bulletin_1842C.pdf"
             "PDFs" "bulletin-1842c.pdf" (Mem.world ∅ [Mem.notFound])
             (network (Mem.world ∅ [])) Mem.notFoundResponse).
  - repeat split.
  - vm_compute; reflexivity.
  - reflexivity.
  - discriminate.
Defined.

(** ** Claims about the worker pool *)

Section PoolFacts.
Import Pool.
Variable numberOfWorkers : nat.
Variable downloadURLs : list string.
Variable outputDir : string.

Local Abbreviation stepMain := (Pool.stepMain numberOfWorkers downloadURLs).
Local Abbreviation stepWorker := (Pool.stepWorker outputDir).
Local Abbreviation step := (Pool.step numberOfWorkers downloadURLs outputDir).
Local Abbreviation run := (Pool.run numberOfWorkers downloadURLs outputDir).
Local Abbreviation reachable :=
  (Pool.reachable numberOfWorkers downloadURLs outputDir).
Local Abbreviation invariant :=
  (Pool.invariant numberOfWorkers downloadURLs outputDir).
Local Abbreviation completed := (Pool.completed numberOfWorkers downloadURLs).
Local Abbreviation fuel := (Pool.fuel numberOfWorkers downloadURLs).
Local Abbreviation unsent := (Pool.unsent downloadURLs).

(** A worker's place in the list, and the list with the worker replaced. *)
Lemma worker_split (ws : list Worker) (j : nat) (w w' : Worker) :
  ws !! j = Some w →
  ∃ before after,
    ws = before ++ w :: after ∧ <[j := w']> ws = before ++ w' :: after.
Proof.
  revert j. induction ws as [|x ws IH]; intros [|j] Hj; try discriminate.
  - injection Hj as ->. now exists [], ws.
  - destruct (IH j Hj) as (before & after & -> & Hins).
    exists (x :: before), after. split; [reflexivity|].
    change (x :: <[j := w']> (before ++ w :: after) = x :: before ++ w' :: after).
    now rewrite Hins.
Qed.

Lemma inFlight_app (a b : list Worker) : inFlight (a ++ b) = inFlight a ++ inFlight b.
Proof. unfold inFlight. apply List.flat_map_app. Qed.

Lemma live_app (a b : list Worker) : live (a ++ b) = live a + live b.
Proof. unfold live. now rewrite map_app, list_sum_app. Qed.

Lemma live_cons (w : Worker) (ws : list Worker) : live (w :: ws) = alive w + live ws.
Proof. reflexivity. Qed.

Lemma live_zero (ws : list Worker) : live ws = 0 → Forall (λ w, w = Exited) ws.
Proof.
  induction ws as [|w ws IH]; [constructor|].
  rewrite live_cons. intros Hsum.
  assert (alive w = 0 ∧ live ws = 0) as [Hw Hws] by lia.
  constructor; [|now apply IH].
  destruct w; cbv in Hw; (discriminate || reflexivity).
Qed.

Lemma live_positive (ws : list Worker) :
  0 < live ws → ∃ j w, ws !! j = Some w ∧ exited w = false.
Proof.
  induction ws as [|w ws IH]; [cbn; lia|].
  rewrite live_cons. intros Hsum.
  destruct (exited w) eqn:Hw.
  - unfold alive in Hsum. rewrite Hw in Hsum.
    destruct IH as (j & w' & Hj & Hw'); [lia|]. now exists (S j), w'.
  - now exists 0, w.
Qed.

Lemma inFlight_exited (ws : list Worker) :
  Forall (λ w, w = Exited) ws → inFlight ws = [].
Proof.
  induction 1 as [|w ws -> _ IH]; [reflexivity|]. exact IH.
Qed.

(** ** The invariant *)

Lemma invariant_init : invariant init.
Proof. constructor; cbn; try easy; lia. Qed.

Lemma invariant_stepMain (s s' : State) :
  invariant s → stepMain s = Some s' → invariant s'.
Proof.
  intros [Hurls Hclosed Hwg Hworkers Hbound Hleft Hdone Hattempts].
  unfold Pool.stepMain.
  destruct (dispatcher s) as [i|i|[|url rest]| |] eqn:Hd.
  - (* the loop test *)
    destruct (i <? numberOfWorkers) eqn:Hlt; intros [= <-].
    + apply Nat.ltb_lt in Hlt. constructor; cbn -[live inFlight] in *; try easy; lia.
    + apply Nat.ltb_ge in Hlt. constructor; cbn -[live inFlight] in *; try easy; lia.
  - (* go *)
    intros [= <-]. constructor; cbn -[live inFlight] in *; try easy.
    + rewrite inFlight_app. cbn. now rewrite app_nil_r.
    + rewrite live_app. cbn. lia.
    + rewrite length_app. cbn. lia.
    + intros w [Hin | [<- | []]]%in_app_or; [eauto | discriminate].
  - (* close *)
    intros [= <-]. constructor; cbn -[live inFlight] in *; try easy; try lia.
    intros w Hin Hw. split; [reflexivity|].
    now destruct (Hleft w Hin Hw) as [_ Hc].
  - (* send *)
    destruct (length (urlChannel s) <? capacity downloadURLs) eqn:Hlt;
      [|discriminate].
    intros [= <-]. constructor; cbn -[live inFlight] in *; try easy; try lia.
    + rewrite <- !app_assoc. exact Hurls.
    + intros w Hin Hw. destruct (Hleft w Hin Hw) as [Hc _]. congruence.
  - (* wg.Wait() *)
    destruct (wg s =? 0) eqn:Hzero; [|discriminate].
    apply Nat.eqb_eq in Hzero.
    intros [= <-]. constructor; cbn -[live inFlight] in *; try easy.
  - discriminate.
Qed.

Lemma launched_bound (d : Dispatcher) :
  launchBound numberOfWorkers d → launched numberOfWorkers d ≤ numberOfWorkers.
Proof. destruct d; cbn; lia. Qed.

Lemma in_replaced (before after : list Worker) (w w' x : Worker) :
  In x (before ++ w' :: after) → x = w' ∨ In x (before ++ w :: after).
Proof.
  rewrite !in_app_iff. cbn. intuition.
Qed.

Lemma invariant_stepWorker (j : nat) (s s' : State) :
  invariant s → stepWorker j s = Some s' → invariant s'.
Proof.
  intros [Hurls Hclosed Hwg Hworkers Hbound Hleft Hdone Hattempts].
  unfold Pool.stepWorker, setWorker.
  destruct (workers s !! j) as [[|url| |]|] eqn:Hj; [| | |discriminate..].
  - (* at the receive *)
    destruct (urlChannel s) as [|url rest] eqn:Hchannel.
    + destruct (closed s) eqn:Hc; [|discriminate].
      destruct (worker_split _ _ _ Returning Hj) as (before & after & Hws & ->).
      intros [= <-]. rewrite Hws in *.
      constructor; cbn -[live inFlight] in *; try easy.
      * rewrite inFlight_app in *. exact Hurls.
      * rewrite live_app in *. exact Hwg.
      * rewrite length_app in *. exact Hworkers.
    + destruct (worker_split _ _ _ (Holding url) Hj) as (before & after & Hws & ->).
      intros [= <-]. rewrite Hws in *.
      constructor; cbn -[live inFlight] in *; try easy.
      * etransitivity; [exact Hurls|]. apply Permutation_app_head.
        rewrite !inFlight_app. cbn. rewrite <- !app_assoc.
        apply Permutation_app_head. cbn.
        symmetry. apply Permutation_middle.
      * rewrite live_app in *. exact Hwg.
      * rewrite length_app in *. exact Hworkers.
      * intros w [-> | Hin]%(in_replaced _ _ Receiving) Hw; [discriminate|].
        destruct (Hleft w Hin Hw) as [_ Hnil]. discriminate.
  - (* the loop body *)
    destruct (worker_split _ _ _ Receiving Hj) as (before & after & Hws & ->).
    intros [= <-].
    assert (Hlt : j < numberOfWorkers).
    { apply lookup_lt_Some in Hj. rewrite Hworkers in Hj.
      pose proof (launched_bound _ Hbound). lia. }
    rewrite Hws in *.
    constructor; cbn -[live inFlight] in *; try easy.
    + etransitivity; [exact Hurls|]. rewrite map_app. cbn.
      rewrite !inFlight_app. cbn. rewrite <- !app_assoc.
      apply Permutation_app_head. cbn.
      symmetry. apply Permutation_middle.
    + rewrite live_app in *. exact Hwg.
    + rewrite length_app in *. exact Hworkers.
    + intros w [-> | Hin]%(in_replaced _ _ (Holding url)) Hw; [discriminate|].
      exact (Hleft w Hin Hw).
    + intros a [Hin | [<- | []]]%in_app_or; [now apply Hattempts|]. easy.
  - (* wg.Done() *)
    destruct (wg s) as [|n] eqn:Hcount; [discriminate|].
    destruct (worker_split _ _ _ Exited Hj) as (before & after & Hws & ->).
    intros [= <-]. rewrite Hws in *.
    constructor; cbn -[live inFlight] in *; try easy.
    + rewrite inFlight_app in *. exact Hurls.
    + rewrite live_app in *. cbn in *. lia.
    + rewrite length_app in *. exact Hworkers.
    + intros w [-> | Hin]%(in_replaced _ _ Returning) Hw.
      * apply (Hleft Returning); [|reflexivity].
        apply in_app_iff. right. now left.
      * exact (Hleft w Hin Hw).
    + intros Hd. specialize (Hdone Hd). discriminate.
Qed.

Lemma invariant_step (g : Goroutine) (s s' : State) :
  invariant s → step g s = Some s' → invariant s'.
Proof.
  destruct g as [|j]; [apply invariant_stepMain | apply invariant_stepWorker].
Qed.

Lemma invariant_run (schedule : list Goroutine) (s s' : State) :
  invariant s → run schedule s = Some s' → invariant s'.
Proof.
  revert s. induction schedule as [|g schedule IH]; intros s Hinv; cbn.
  - now intros [= <-].
  - destruct (step g s) as [s1|] eqn:Hstep; [|discriminate].
    apply IH. eapply invariant_step; eauto.
Qed.

Lemma invariant_reachable (s : State) : reachable s → invariant s.
Proof. intros [schedule Hrun]. eapply invariant_run, Hrun. apply invariant_init. Qed.

Lemma run_app (schedule later : list Goroutine) (s s' : State) :
  run schedule s = Some s' → run (schedule ++ later) s = run later s'.
Proof.
  revert s. induction schedule as [|g schedule IH]; intros s; cbn.
  - now intros [= ->].
  - destruct (step g s) as [s1|]; [apply IH | discriminate].
Qed.

(** ** When the work is done *)

Lemma invariant_completed (s : State) :
  1 ≤ numberOfWorkers →
  invariant s → afterClose (dispatcher s) = true → wg s = 0 → completed s.
Proof.
  intros Hone [Hurls Hclosed Hwg Hworkers Hbound Hleft Hdone Hattempts] Hafter Hzero.
  assert (Hexited : Forall (λ w, w = Exited) (workers s)).
  { apply live_zero. lia. }
  assert (Hcount : length (workers s) = numberOfWorkers).
  { rewrite Hworkers. now destruct (dispatcher s). }
  assert (Hdrained : urlChannel s = []).
  { destruct (workers s) as [|w ws] eqn:Hws; [cbn in Hcount; lia|].
    apply (Hleft w); [now left|].
    inversion Hexited as [|? ? -> _]. reflexivity. }
  assert (Hperm : Permutation (map downloadURL (attempts s)) downloadURLs).
  { symmetry. etransitivity; [exact Hurls|].
    rewrite (inFlight_exited _ Hexited), Hdrained.
    destruct (dispatcher s); try discriminate; cbn; now rewrite app_nil_r. }
  repeat split; try assumption.
  - apply Permutation_length in Hperm. now rewrite length_map in Hperm.
  - congruence.
Qed.

(** ** No deadlock *)

Lemma main_or_worker_can_step (s : State) :
  invariant s → dispatcher s ≠ Done → ∃ g s', step g s = Some s'.
Proof.
  intros [Hurls Hclosed Hwg Hworkers Hbound Hleft Hdone Hattempts] Hnot.
  destruct (dispatcher s) as [i|i|[|url rest]| |] eqn:Hd; [..|congruence].
  - exists Main. cbn. unfold Pool.stepMain. rewrite Hd.
    destruct (i <? numberOfWorkers); eauto.
  - exists Main. cbn. unfold Pool.stepMain. rewrite Hd. eauto.
  - exists Main. cbn. unfold Pool.stepMain. rewrite Hd. eauto.
  - exists Main. cbn. unfold Pool.stepMain. rewrite Hd.
    apply Permutation_length in Hurls. rewrite !length_app in Hurls.
    cbn in Hurls. unfold capacity.
    destruct (Nat.ltb_spec (length (urlChannel s)) (length downloadURLs));
      [eauto | lia].
  - destruct (wg s) as [|n] eqn:Hcount.
    + exists Main. cbn. unfold Pool.stepMain. rewrite Hd, Hcount. cbn. eauto.
    + destruct (live_positive (workers s)) as (j & w & Hj & Hw);
        [cbn in Hwg; lia|].
      exists (WorkerNo j). cbn. unfold Pool.stepWorker. rewrite Hj.
      destruct w; try discriminate.
      * destruct (urlChannel s); [|eauto]. rewrite Hclosed. cbn. eauto.
      * eauto.
      * rewrite Hcount. eauto.
Qed.

(** ** Termination *)

Lemma workerFuel_split (before after : list Worker) (w : Worker) :
  list_sum (map workerFuel (before ++ w :: after))
  = list_sum (map workerFuel before) + workerFuel w
    + list_sum (map workerFuel after).
Proof.
  rewrite map_app, list_sum_app.
  change (list_sum (map workerFuel (w :: after)))
    with (workerFuel w + list_sum (map workerFuel after)).
  lia.
Qed.

Lemma fuel_stepMain (s s' : State) :
  invariant s → stepMain s = Some s' → fuel s' < fuel s.
Proof.
  intros [_ _ _ _ Hbound _ _ _]. unfold Pool.stepMain, Pool.fuel.
  destruct (dispatcher s) as [i|i|[|url rest]| |] eqn:Hd.
  - destruct (i <? numberOfWorkers) eqn:Hlt; intros [= <-]; cbn -[list_sum Nat.mul].
    + apply Nat.ltb_lt in Hlt. lia.
    + apply Nat.ltb_ge in Hlt. lia.
  - intros [= <-]. cbn -[list_sum Nat.mul] in *. rewrite map_app, list_sum_app.
    cbn -[Nat.mul]. lia.
  - intros [= <-]. cbn -[list_sum Nat.mul]. lia.
  - destruct (length (urlChannel s) <? capacity downloadURLs); [|discriminate].
    intros [= <-]. cbn -[list_sum Nat.mul]. rewrite length_app. cbn -[list_sum Nat.mul]. lia.
  - destruct (wg s =? 0); [|discriminate]. intros [= <-]. cbn -[list_sum Nat.mul]. lia.
  - discriminate.
Qed.

Lemma fuel_stepWorker (j : nat) (s s' : State) :
  stepWorker j s = Some s' → fuel s' < fuel s.
Proof.
  unfold Pool.stepWorker, setWorker, Pool.fuel.
  destruct (workers s !! j) as [[|url| |]|] eqn:Hj; [| | |discriminate..].
  - destruct (urlChannel s) as [|url rest] eqn:Hchannel.
    + destruct (closed s); [|discriminate].
      destruct (worker_split _ _ _ Returning Hj) as (before & after & -> & ->).
      intros [= <-]. cbn -[list_sum Nat.mul]. rewrite !workerFuel_split.
      cbn -[list_sum Nat.mul]. lia.
    + destruct (worker_split _ _ _ (Holding url) Hj) as (before & after & -> & ->).
      intros [= <-]. cbn -[list_sum Nat.mul]. rewrite !workerFuel_split.
      cbn -[list_sum Nat.mul]. lia.
  - destruct (worker_split _ _ _ Receiving Hj) as (before & after & -> & ->).
    intros [= <-]. cbn -[list_sum Nat.mul]. rewrite !workerFuel_split.
      cbn -[list_sum Nat.mul]. lia.
  - destruct (wg s); [discriminate|].
    destruct (worker_split _ _ _ Exited Hj) as (before & after & -> & ->).
    intros [= <-]. cbn -[list_sum Nat.mul]. rewrite !workerFuel_split.
      cbn -[list_sum Nat.mul]. lia.
Qed.

Lemma fuel_step (g : Goroutine) (s s' : State) :
  invariant s → step g s = Some s' → fuel s' < fuel s.
Proof.
  destruct g as [|j]; [apply fuel_stepMain | intros _; apply fuel_stepWorker].
Qed.

Lemma fuel_run (schedule : list Goroutine) (s s' : State) :
  invariant s → run schedule s = Some s' → length schedule + fuel s' ≤ fuel s.
Proof.
  revert s. induction schedule as [|g schedule IH]; intros s Hinv; cbn.
  - intros [= <-]. lia.
  - destruct (step g s) as [s1|] eqn:Hstep; [|discriminate].
    intros Hrun. pose proof (fuel_step _ _ _ Hinv Hstep).
    pose proof (IH s1 (invariant_step _ _ _ Hinv Hstep) Hrun). lia.
Qed.

Lemma run_to_completion (n : nat) (s : State) :
  fuel s ≤ n → invariant s →
  ∃ schedule s', run schedule s = Some s' ∧ dispatcher s' = Done.
Proof.
  revert s. induction n as [|n IH]; intros s Hfuel Hinv.
  - destruct (dispatcher s) eqn:Hd; try (unfold Pool.fuel in Hfuel; rewrite Hd in Hfuel; cbn in Hfuel; lia).
    now exists [], s.
  - destruct (dispatcher s) eqn:Hd; [..|now exists [], s].
    all: destruct (main_or_worker_can_step s Hinv) as (g & s1 & Hstep);
      [congruence|].
    all: pose proof (fuel_step _ _ _ Hinv Hstep) as Hless.
    all: destruct (IH s1) as (schedule & s' & Hrun & Hdone);
      [lia | eapply invariant_step; eauto |].
    all: exists (g :: schedule), s'; cbn; rewrite Hstep; eauto.
Qed.

(** C9: with at least one worker and any list of URLs, once [wg.Wait()]
    has returned every URL of the list has been attempted exactly once
    (the attempts are the URLs, up to their order: K attempts for K URLs,
    the skips counted), every worker has exited and the channel is closed
    and drained; [wg.Wait()] returns from such a state only; until then
    some goroutine can always take a step, no run is longer than the
    initial fuel, and a run to the return of [wg.Wait()] exists. *)
Theorem pool_attempts_every_url :
  1 ≤ numberOfWorkers →
  (∀ s, reachable s → dispatcher s = Done → completed s)
  ∧ (∀ s s', reachable s → dispatcher s = Waiting → stepMain s = Some s' →
             completed s ∧ attempts s' = attempts s ∧ dispatcher s' = Done)
  ∧ (∀ s a, reachable s → In a (attempts s) →
            worker a < numberOfWorkers
            ∧ outputDirectory a = outputDir
            ∧ outputFileName a = createFileNameFromURL (downloadURL a))
  ∧ (∀ s, reachable s → dispatcher s ≠ Done → ∃ g s', step g s = Some s')
  ∧ (∀ schedule s, run schedule init = Some s →
                   length schedule + fuel s ≤ fuel init)
  ∧ (∃ schedule s, run schedule init = Some s ∧ dispatcher s = Done).
Proof.
  intros Hone.
  split; [|split; [|split; [|split; [|split]]]].
  - intros s Hreach Hd. pose proof (invariant_reachable _ Hreach) as Hinv.
    apply invariant_completed; try assumption.
    + now rewrite Hd.
    + exact (inv_done _ _ _ _ Hinv Hd).
  - intros s s' Hreach Hd. pose proof (invariant_reachable _ Hreach) as Hinv.
    unfold Pool.stepMain. rewrite Hd.
    destruct (wg s =? 0) eqn:Hzero; [|discriminate].
    apply Nat.eqb_eq in Hzero. intros [= <-].
    split; [|split; reflexivity].
    apply invariant_completed; try assumption. now rewrite Hd.
  - intros s a Hreach.
    apply (inv_attempts numberOfWorkers downloadURLs outputDir s).
    now apply invariant_reachable.
  - intros s Hreach. apply main_or_worker_can_step. now apply invariant_reachable.
  - intros schedule s. apply fuel_run, invariant_init.
  - apply (run_to_completion (fuel init)); [lia | apply invariant_init].
Qed.

End PoolFacts.

Lemma pool_attempts_every_url_witness :
  let urls := [ "https://www.bio-rad.com/webroot/web/pdf/A.pdf";
                "https://www.bio-rad.com/webroot/web/pdf/B.pdf";
                "https://www.bio-rad.com/webroot/web/pdf/A.pdf" ] in
  let schedule :=
    [ Pool.Main; Pool.Main; Pool.Main; Pool.Main; Pool.Main; Pool.Main;
      Pool.WorkerNo 1; Pool.Main; Pool.WorkerNo 0; Pool.WorkerNo 1; Pool.Main;
      Pool.WorkerNo 1; Pool.Main; Pool.WorkerNo 0; Pool.WorkerNo 0;
      Pool.WorkerNo 1; Pool.WorkerNo 0; Pool.WorkerNo 1; Pool.WorkerNo 1;
      Pool.Main ] in
  ∃ s, Pool.run 2 urls "PDFs" schedule Pool.init = Some s
       ∧ Pool.dispatcher s = Pool.Done
       ∧ map Pool.worker (Pool.attempts s) = [1; 0; 1]
       ∧ map Pool.outputFileName (Pool.attempts s) = ["a.pdf"; "b.pdf"; "a.pdf"]
       ∧ Pool.completed 2 urls s.
Proof.
  intros urls schedule.
  assert (Hone : 1 ≤ 2) by lia.
  destruct (Pool.run 2 urls "PDFs" schedule Pool.init) as [s|] eqn:Hrun;
    [|vm_compute in Hrun; discriminate].
  exists s. split; [reflexivity|].
  assert (Hs : Some s = Pool.run 2 urls "PDFs" schedule Pool.init) by now rewrite Hrun.
  vm_compute in Hs. injection Hs as ->.
  split; [reflexivity|]. split; [reflexivity|]. split; [reflexivity|].
  apply (proj1 (pool_attempts_every_url 2 urls "PDFs" Hone)); [|reflexivity].
  exists schedule. vm_compute; reflexivity.
Defined.

(** * More properties of the program *)

(** ** The shape of a derived file name *)

Lemma string_app_nil_r (s : string) : s +:+ EmptyString = s.
Proof.
  induction s as [|c s IH]; [reflexivity|].
  rewrite string_app_cons. f_equal. exact IH.
Qed.

Lemma string_forallb_impl (p q : ascii → bool) (s : string) :
  (∀ c, p c = true → q c = true) →
  string_forallb p s = true → string_forallb q s = true.
Proof.
  intros Hpq. induction s as [|c s IH]; [reflexivity|].
  cbn [string_forallb]. intros [Hc Hs]%andb_true_iff.
  now rewrite (Hpq c Hc), (IH Hs).
Qed.

Lemma toLower_stemByte (c : ascii) :
  Spec.safeByte c = true → stemByte (Byte_.toLower c) = true.
Proof.
  destruct c as [b0 b1 b2 b3 b4 b5 b6 b7].
  destruct b0, b1, b2, b3, b4, b5, b6, b7; vm_compute; congruence.
Qed.

Lemma ToLower_stem (s : string) :
  string_forallb Spec.safeByte s = true →
  string_forallb stemByte (strings_ToLower s) = true.
Proof.
  unfold strings_ToLower. induction s as [|c s IH]; [reflexivity|].
  cbn [string_map string_forallb]. intros [Hc Hs]%andb_true_iff.
  now rewrite (toLower_stemByte _ Hc), (IH Hs).
Qed.

Lemma cleanSegment_stem (seg : string) :
  string_forallb stemByte (Spec.cleanSegment seg) = true.
Proof.
  rewrite !cleanSegment_code. unfold strings_Trim.
  apply ToLower_stem, trimRightFunc_forallb, trimLeftFunc_forallb.
  rewrite <- ReplaceAllString_sanitize. now apply replaceRuns_safe.
Qed.

Lemma Join_forallb (p : ascii → bool) (segs : list string) :
  p "-"%char = true →
  Forall (fun s => string_forallb p s = true) segs →
  string_forallb p (strings_Join segs "-") = true.
Proof.
  intros Hhyphen. induction segs as [|s segs IH]; [reflexivity|].
  intros Hall. inversion Hall as [|? ? Hs Hrest]; subst.
  destruct segs as [|s' segs']; [exact Hs|].
  change (strings_Join (s :: s' :: segs') "-")
    with (s +:+ "-" +:+ strings_Join (s' :: segs') "-").
  rewrite !string_forallb_app, Hs, (IH Hrest). cbn. now rewrite Hhyphen.
Qed.

Lemma cleaned_join_stem (segments : list string) :
  string_forallb stemByte
    (strings_Join (List.filter Spec.nonEmpty (map Spec.cleanSegment segments)) "-")
  = true.
Proof.
  apply Join_forallb; [reflexivity|]. apply List.Forall_forall. intros s Hs.
  apply List.filter_In in Hs as [Hs _].
  apply List.in_map_iff in Hs as [seg [<- _]]. apply cleanSegment_stem.
Qed.

(** The stem of the name of a parsed URL. *)
Lemma fileNameOfParsed_stem (parsedURL : url.URL) :
  fileNameOfParsed parsedURL
  = strings_Join
      (List.filter Spec.nonEmpty (map Spec.cleanSegment (Spec.segments parsedURL)))
      "-"
    +:+ ".pdf".
Proof. now rewrite fileNameOfParsed_spec, fileName_appends. Qed.

Lemma derived_name_stem (rawURL : string) :
  ∃ stem, createFileNameFromURL rawURL = stem +:+ ".pdf"
          ∧ string_forallb stemByte stem = true.
Proof.
  unfold createFileNameFromURL. destruct (url.Parse rawURL) as [parsedURL|].
  - rewrite fileNameOfParsed_stem. eexists. split; [reflexivity|].
    apply cleaned_join_stem.
  - exists "invalid-url". split; reflexivity.
Qed.

Lemma stemByte_not_separator (c : ascii) :
  stemByte c || Byte_.eqb c "." = true →
  negb (unixSeparator c) && negb (windowsSeparator c) = true.
Proof.
  destruct c as [b0 b1 b2 b3 b4 b5 b6 b7].
  destruct b0, b1, b2, b3, b4, b5, b6, b7; vm_compute; congruence.
Qed.

(** X1: whatever the input, the derived name is a stem of lower-case
    letters, digits and hyphens followed by ".pdf"; in particular it holds
    no path separator, of Unix or of Windows, and no upper-case letter. *)
Theorem derived_name_alphabet (rawURL : string) :
  (∃ stem, createFileNameFromURL rawURL = stem +:+ ".pdf"
           ∧ string_forallb stemByte stem = true)
  ∧ string_forallb (fun c => negb (unixSeparator c) && negb (windowsSeparator c))
      (createFileNameFromURL rawURL) = true
  ∧ string_forallb (fun c => negb (Byte_.isUpper c))
      (createFileNameFromURL rawURL) = true.
Proof.
  destruct (derived_name_stem rawURL) as (stem & Hname & Hstem).
  split; [eauto|]. rewrite Hname.
  assert (Hall : string_forallb (fun c => stemByte c || Byte_.eqb c ".")
                   (stem +:+ ".pdf") = true).
  { rewrite string_forallb_app.
    rewrite (string_forallb_impl stemByte _ stem); [reflexivity| |exact Hstem].
    intros c ->. reflexivity. }
  split.
  - eapply string_forallb_impl; [|exact Hall]. apply stemByte_not_separator.
  - eapply string_forallb_impl; [|exact Hall].
    intros c. destruct c as [b0 b1 b2 b3 b4 b5 b6 b7].
    destruct b0, b1, b2, b3, b4, b5, b6, b7; vm_compute; congruence.
Qed.

(** ** The extension of a derived file name *)

Lemma scanExt_found_app (isPathSeparator : ascii → bool) (a b ext : string) :
  scanExt isPathSeparator b = ExtFound ext →
  scanExt isPathSeparator (a +:+ b) = ExtFound ext.
Proof.
  intros Hb. induction a as [|c a IH]; [exact Hb|].
  rewrite string_app_cons. cbn [scanExt]. now rewrite IH.
Qed.

(** X2: the extension [getFileExtension] finds in a derived file name is
    ".pdf", whatever the URL, on every system whose path separators are
    among the slash and the backslash. *)
Theorem derived_name_extension (isPathSeparator : ascii → bool)
    (rawURL : string) :
  (∀ c, isPathSeparator c = true → c = "/"%char ∨ c = ascii_of_nat 92) →
  getFileExtension isPathSeparator (createFileNameFromURL rawURL) = ".pdf".
Proof.
  intros Hsep.
  assert (Hnot : ∀ c, c ≠ "/"%char → c ≠ ascii_of_nat 92 →
                      isPathSeparator c = false).
  { intros c H1 H2. destruct (isPathSeparator c) eqn:Hc; [|reflexivity].
    destruct (Hsep c Hc); contradiction. }
  destruct (derived_name_stem rawURL) as (stem & -> & _).
  unfold getFileExtension, filepath_Ext.
  rewrite (scanExt_found_app _ stem ".pdf" ".pdf"); [reflexivity|].
  cbn [scanExt].
  rewrite (Hnot "f"%char), (Hnot "d"%char), (Hnot "p"%char), (Hnot "."%char);
    (reflexivity || discriminate).
Qed.

Lemma derived_name_extension_witness :
  getFileExtension unixSeparator
    (createFileNameFromURL
       "https://www.bio-rad.com/webroot/web/pdf/lsr/literature/Bulletin_1842C.pdf")
  = ".pdf"
  ∧ getFileExtension windowsSeparator
      (createFileNameFromURL "https://www.bio-rad.com/100%_pure.pdf")
    = ".pdf".
Proof.
  split.
  - apply (derived_name_extension unixSeparator). intros c Hc. left.
    unfold unixSeparator, Byte_.eqb in Hc. now apply Ascii.eqb_eq in Hc.
  - apply (derived_name_extension windowsSeparator). intros c Hc.
    unfold windowsSeparator, Byte_.eqb in Hc.
    apply orb_true_iff in Hc as [Hc | Hc]; apply Ascii.eqb_eq in Hc; auto.
Defined.

(** ** Hyphens in a derived file name *)

Lemma hyphen_eqb (c : ascii) : Byte_.eqb c "-" = true → c = "-"%char.
Proof. unfold Byte_.eqb. apply Ascii.eqb_eq. Qed.

Lemma alnum_not_hyphen (c : ascii) : Byte_.isAlnum c = true → Byte_.eqb c "-" = false.
Proof.
  intros Hc. destruct (Byte_.eqb c "-") eqn:He; [|reflexivity].
  apply hyphen_eqb in He. subst c. discriminate.
Qed.

Lemma toLower_hyphen (c : ascii) : Byte_.eqb (Byte_.toLower c) "-" = Byte_.eqb c "-".
Proof.
  destruct c as [b0 b1 b2 b3 b4 b5 b6 b7].
  destruct b0, b1, b2, b3, b4, b5, b6, b7; vm_compute; reflexivity.
Qed.

Lemma replaceRuns_noDouble (cls : ascii → bool) (b : bool) (s : string) :
  (∀ c, cls c = negb (Byte_.isAlnum c)) →
  noDoubleHyphen b (replaceRuns cls "-" b s) = true.
Proof.
  intros Hcls. revert b. induction s as [|c s IH]; intros b; [reflexivity|].
  cbn [replaceRuns]. rewrite Hcls.
  destruct (Byte_.isAlnum c) eqn:Hc; cbn [negb].
  - cbn [noDoubleHyphen]. rewrite (alnum_not_hyphen _ Hc). apply IH.
  - destruct b; [apply IH|].
    rewrite string_app_cons, string_app_nil_l. cbn [noDoubleHyphen].
    replace (Byte_.eqb "-" "-") with true by reflexivity. cbn. apply IH.
Qed.

Lemma noDouble_weaken (s : string) :
  noDoubleHyphen true s = true → noDoubleHyphen false s = true.
Proof.
  destruct s as [|c s]; [reflexivity|]. cbn [noDoubleHyphen].
  destruct (Byte_.eqb c "-"); [discriminate | auto].
Qed.

Lemma trimLeft_noDouble (b : bool) (s : string) :
  noDoubleHyphen b s = true →
  noDoubleHyphen true (trimLeftFunc (Byte_.inSet "-") s) = true.
Proof.
  revert b. induction s as [|c s IH]; intros b; [reflexivity|].
  cbn [trimLeftFunc noDoubleHyphen]. rewrite inSet_hyphen.
  assert (Hsym : Byte_.eqb "-" c = Byte_.eqb c "-").
  { unfold Byte_.eqb. apply Ascii.eqb_sym. }
  rewrite Hsym. destruct (Byte_.eqb c "-") eqn:Hc.
  - intros [_ Hs]%andb_true_iff. now apply (IH true).
  - intros Hs. cbn [noDoubleHyphen]. now rewrite Hc.
Qed.

Lemma trimRight_noDouble (b : bool) (s : string) :
  noDoubleHyphen b s = true →
  noDoubleHyphen b (trimRightFunc (Byte_.inSet "-") s) = true.
Proof.
  revert b. induction s as [|c s IH]; intros b; [reflexivity|].
  cbn [trimRightFunc noDoubleHyphen]. intros Hs.
  destruct (trimRightFunc (Byte_.inSet "-") s) as [|d t] eqn:Ht.
  - rewrite inSet_hyphen.
    assert (Hsym : Byte_.eqb "-" c = Byte_.eqb c "-").
    { unfold Byte_.eqb. apply Ascii.eqb_sym. }
    rewrite Hsym. destruct (Byte_.eqb c "-") eqn:Hc; [reflexivity|].
    cbn [noDoubleHyphen]. now rewrite Hc.
  - cbn [noDoubleHyphen]. fold (noDoubleHyphen true (String d t)).
    destruct (Byte_.eqb c "-") eqn:Hc.
    + apply andb_true_iff in Hs as [Hb Hs]. rewrite Hb. cbn [andb].
      now apply (IH true).
    + now apply (IH false).
Qed.

Lemma trimRight_not_ends (s : string) :
  endsWithHyphen (trimRightFunc (Byte_.inSet "-") s) = false.
Proof.
  induction s as [|c s IH]; [reflexivity|].
  cbn [trimRightFunc].
  destruct (trimRightFunc (Byte_.inSet "-") s) as [|d t] eqn:Ht.
  - rewrite inSet_hyphen.
    assert (Hsym : Byte_.eqb "-" c = Byte_.eqb c "-").
    { unfold Byte_.eqb. apply Ascii.eqb_sym. }
    rewrite Hsym. destruct (Byte_.eqb c "-") eqn:Hc; [reflexivity|].
    cbn. exact Hc.
  - exact IH.
Qed.

Lemma ToLower_noDouble (b : bool) (s : string) :
  noDoubleHyphen b (strings_ToLower s) = noDoubleHyphen b s.
Proof.
  unfold strings_ToLower. revert b. induction s as [|c s IH]; intros b;
    [reflexivity|].
  cbn [string_map noDoubleHyphen]. rewrite toLower_hyphen.
  now rewrite !IH.
Qed.

Lemma ToLower_ends (s : string) :
  endsWithHyphen (strings_ToLower s) = endsWithHyphen s.
Proof.
  unfold strings_ToLower. induction s as [|c s IH]; [reflexivity|].
  destruct s as [|d s]; [cbn; apply toLower_hyphen|].
  exact IH.
Qed.

(** A cleaned segment has its hyphens inside, one at a time. *)
Lemma cleanSegment_hyphens (seg : string) :
  noDoubleHyphen true (Spec.cleanSegment seg) = true
  ∧ endsWithHyphen (Spec.cleanSegment seg) = false.
Proof.
  rewrite !cleanSegment_code. unfold strings_Trim.
  rewrite ToLower_noDouble, ToLower_ends. split; [|apply trimRight_not_ends].
  apply trimRight_noDouble. apply (trimLeft_noDouble false).
  rewrite <- ReplaceAllString_sanitize. now apply replaceRuns_noDouble.
Qed.

Lemma noDouble_app (p : bool) (a b : string) :
  noDoubleHyphen p a = true →
  noDoubleHyphen (match a with EmptyString => p | _ => endsWithHyphen a end) b
  = true →
  noDoubleHyphen p (a +:+ b) = true.
Proof.
  revert p. induction a as [|c a IH]; intros p Ha Hb; [exact Hb|].
  rewrite string_app_cons. cbn [noDoubleHyphen] in *.
  destruct (Byte_.eqb c "-") eqn:Hc.
  - apply andb_true_iff in Ha as [Hp Ha]. rewrite Hp. cbn [andb].
    apply IH; [exact Ha|]. destruct a; [cbn in Hb; now rewrite Hc in Hb | exact Hb].
  - apply IH; [exact Ha|]. destruct a; [cbn in Hb; now rewrite Hc in Hb | exact Hb].
Qed.

Lemma ends_app (a b : string) :
  b ≠ EmptyString → endsWithHyphen (a +:+ b) = endsWithHyphen b.
Proof.
  intros Hb. induction a as [|c a IH]; [reflexivity|].
  rewrite string_app_cons.
  destruct (a +:+ b) as [|d t] eqn:Hab.
  - destruct a; [cbn in Hab; contradiction | discriminate].
  - exact IH.
Qed.

Lemma Join_hyphens (segs : list string) :
  Forall (fun s => s ≠ EmptyString ∧ noDoubleHyphen true s = true
                   ∧ endsWithHyphen s = false) segs →
  noDoubleHyphen true (strings_Join segs "-") = true
  ∧ endsWithHyphen (strings_Join segs "-") = false
  ∧ (segs ≠ [] → strings_Join segs "-" ≠ EmptyString).
Proof.
  induction segs as [|s segs IH]; [easy|].
  intros Hall. inversion Hall as [|? ? (Hne & Hnd & Hends) Hrest]; subst.
  destruct segs as [|s' segs']; [easy|].
  destruct (IH Hrest) as (IHnd & IHends & IHne).
  assert (Hj : strings_Join (s' :: segs') "-" ≠ EmptyString) by now apply IHne.
  change (strings_Join (s :: s' :: segs') "-")
    with (s +:+ "-" +:+ strings_Join (s' :: segs') "-").
  split; [|split].
  - apply noDouble_app; [exact Hnd|].
    destruct s; [contradiction|]. rewrite Hends.
    rewrite string_app_cons, string_app_nil_l. cbn [noDoubleHyphen].
    replace (Byte_.eqb "-" "-") with true by reflexivity. exact IHnd.
  - rewrite ends_app.
    + rewrite string_app_cons, string_app_nil_l.
      destruct (strings_Join (s' :: segs') "-"); [contradiction | exact IHends].
    + rewrite string_app_cons. discriminate.
  - intros _. destruct s; [contradiction|]. rewrite string_app_cons. discriminate.
Qed.

Lemma noDouble_no_prefix (s : string) :
  noDoubleHyphen true s = true → strings_HasPrefix s "-" = false.
Proof.
  destruct s as [|c s]; [reflexivity|]. cbn [noDoubleHyphen].
  destruct (Byte_.eqb c "-") eqn:Hc; [discriminate|]. intros _.
  unfold strings_HasPrefix. cbn [String.prefix].
  destruct (ascii_dec "-" c) as [<-|]; [discriminate | reflexivity].
Qed.

Lemma noDouble_no_pair (p : bool) (s : string) :
  noDoubleHyphen p s = true → strings_Contains s "--" = false.
Proof.
  revert p. induction s as [|c s IH]; intros p; [reflexivity|].
  cbn [noDoubleHyphen strings_Contains]. intros Hs.
  assert (Htail : strings_Contains s "--" = false).
  { destruct (Byte_.eqb c "-"); [apply andb_true_iff in Hs as [_ Hs]|];
      eapply IH; exact Hs. }
  rewrite Htail, orb_false_r. cbn [String.prefix].
  destruct (ascii_dec "-" c) as [<-|]; [|reflexivity].
  cbn in Hs. apply andb_true_iff in Hs as [_ Hs].
  apply noDouble_no_prefix in Hs. exact Hs.
Qed.

Lemma not_ends_no_suffix (s : string) :
  endsWithHyphen s = false → strings_HasSuffix s "-" = false.
Proof.
  induction s as [|c s IH]; [reflexivity|].
  intros Hends. cbn [strings_HasSuffix].
  destruct s as [|d t].
  - cbn in Hends. cbn. unfold Byte_.eqb in Hends.
    destruct (Ascii.eqb_spec c "-"); [discriminate|].
    destruct (Ascii.eqb_spec c "-"); [contradiction | reflexivity].
  - rewrite (IH Hends), orb_false_r.
    apply String.eqb_neq. discriminate.
Qed.

(** The stem of a derived name, with all that is known of it. *)
Lemma derived_name_normal (rawURL : string) :
  ∃ stem, createFileNameFromURL rawURL = stem +:+ ".pdf"
          ∧ string_forallb stemByte stem = true
          ∧ noDoubleHyphen true stem = true
          ∧ endsWithHyphen stem = false.
Proof.
  unfold createFileNameFromURL. destruct (url.Parse rawURL) as [parsedURL|];
    [|now exists "invalid-url"].
  rewrite fileNameOfParsed_stem. eexists. split; [reflexivity|].
  split; [apply cleaned_join_stem|].
  destruct (Join_hyphens
              (List.filter Spec.nonEmpty
                 (map Spec.cleanSegment (Spec.segments parsedURL))))
    as (Hnd & Hends & _); [|now split].
  apply List.Forall_forall. intros s [Hin Hne]%List.filter_In.
  apply List.in_map_iff in Hin as [seg [<- _]].
  destruct (cleanSegment_hyphens seg) as [H1 H2].
  split; [|now split].
  unfold Spec.nonEmpty in Hne. apply negb_true_iff in Hne.
  now apply String.eqb_neq in Hne.
Qed.

(** X3: in the stem of every derived name the hyphens only separate: the
    stem neither starts nor ends with a hyphen and holds no two hyphens in
    a row. *)
Theorem derived_name_hyphens (rawURL : string) :
  ∃ stem, createFileNameFromURL rawURL = stem +:+ ".pdf"
          ∧ hyphensSeparate stem = true.
Proof.
  destruct (derived_name_normal rawURL) as (stem & Hname & _ & Hnd & Hends).
  exists stem. split; [exact Hname|]. unfold hyphensSeparate.
  now rewrite (noDouble_no_prefix _ Hnd), (noDouble_no_pair _ _ Hnd),
    (not_ends_no_suffix _ Hends).
Qed.

(** ** Deriving a name from a derived name *)

Lemma stemByte_safe (c : ascii) : stemByte c = true → Spec.safeByte c = true.
Proof.
  destruct c as [b0 b1 b2 b3 b4 b5 b6 b7].
  destruct b0, b1, b2, b3, b4, b5, b6, b7; vm_compute; congruence.
Qed.

Lemma toLower_stem_fixed (c : ascii) : stemByte c = true → Byte_.toLower c = c.
Proof.
  destruct c as [b0 b1 b2 b3 b4 b5 b6 b7].
  destruct b0, b1, b2, b3, b4, b5, b6, b7; vm_compute; congruence.
Qed.

Lemma safe_not_alnum_hyphen (c : ascii) :
  Spec.safeByte c = true → Byte_.isAlnum c = false → c = "-"%char.
Proof.
  unfold Spec.safeByte. intros Hsafe Hc. rewrite Hc in Hsafe.
  now apply hyphen_eqb.
Qed.

Lemma replaceRuns_fixed (cls : ascii → bool) (b : bool) (t : string) :
  (∀ c, cls c = negb (Byte_.isAlnum c)) →
  string_forallb Spec.safeByte t = true →
  noDoubleHyphen b t = true →
  replaceRuns cls "-" b t = t.
Proof.
  intros Hcls. revert b. induction t as [|c t IH]; intros b; [reflexivity|].
  cbn [string_forallb noDoubleHyphen replaceRuns].
  intros [Hc Ht]%andb_true_iff. rewrite Hcls.
  destruct (Byte_.isAlnum c) eqn:Halnum; cbn [negb].
  - rewrite (alnum_not_hyphen _ Halnum). intros Hnd. now rewrite (IH false).
  - pose proof (safe_not_alnum_hyphen _ Hc Halnum) as ->.
    replace (Byte_.eqb "-" "-") with true by reflexivity.
    intros [Hb Hnd]%andb_true_iff. apply negb_true_iff in Hb. subst b.
    rewrite string_app_cons, string_app_nil_l. now rewrite (IH true).
Qed.

Lemma trimLeft_fixed (t : string) :
  noDoubleHyphen true t = true → trimLeftFunc (Byte_.inSet "-") t = t.
Proof.
  destruct t as [|c t]; [reflexivity|]. cbn [noDoubleHyphen trimLeftFunc].
  rewrite inSet_hyphen.
  assert (Hsym : Byte_.eqb "-" c = Byte_.eqb c "-").
  { unfold Byte_.eqb. apply Ascii.eqb_sym. }
  rewrite Hsym. now destruct (Byte_.eqb c "-").
Qed.

Lemma trimRight_fixed (t : string) :
  endsWithHyphen t = false → trimRightFunc (Byte_.inSet "-") t = t.
Proof.
  induction t as [|c t IH]; [reflexivity|].
  intros Hends. cbn [trimRightFunc].
  destruct t as [|d t'].
  - cbn in Hends. cbn [trimRightFunc]. rewrite inSet_hyphen.
    assert (Hsym : Byte_.eqb "-" c = Byte_.eqb c "-").
    { unfold Byte_.eqb. apply Ascii.eqb_sym. }
    now rewrite Hsym, Hends.
  - now rewrite (IH Hends).
Qed.

Lemma ToLower_fixed (t : string) :
  string_forallb stemByte t = true → strings_ToLower t = t.
Proof.
  unfold strings_ToLower. induction t as [|c t IH]; [reflexivity|].
  cbn [string_forallb string_map]. intros [Hc Ht]%andb_true_iff.
  now rewrite (toLower_stem_fixed _ Hc), (IH Ht).
Qed.

(** Cleaning leaves a text in the shape of a stem as it is. *)
Lemma cleanSegment_fixed (t : string) :
  string_forallb stemByte t = true →
  noDoubleHyphen true t = true →
  endsWithHyphen t = false →
  Spec.cleanSegment t = t.
Proof.
  intros Hstem Hnd Hends. rewrite cleanSegment_code. unfold strings_Trim.
  rewrite <- ReplaceAllString_sanitize. unfold Regexp_ReplaceAllString.
  rewrite replaceRuns_fixed; [|reflexivity| |now apply noDouble_weaken].
  - now rewrite (trimLeft_fixed _ Hnd), (trimRight_fixed _ Hends),
      (ToLower_fixed _ Hstem).
  - eapply string_forallb_impl; [|exact Hstem]. apply stemByte_safe.
Qed.

Lemma HasSuffix_app (a b : string) : strings_HasSuffix (a +:+ b) b = true.
Proof.
  induction a as [|c a IH].
  - rewrite string_app_nil_l. destruct b; cbn [strings_HasSuffix];
      now rewrite String.eqb_refl.
  - rewrite string_app_cons. cbn [strings_HasSuffix]. rewrite IH.
    apply orb_true_r.
Qed.

Lemma take_app (a b : string) : string_take (String.length a) (a +:+ b) = a.
Proof.
  induction a as [|c a IH]; [now destruct b|].
  rewrite string_app_cons. cbn. now rewrite IH.
Qed.

Lemma TrimSuffix_app (a b : string) : strings_TrimSuffix (a +:+ b) b = a.
Proof.
  unfold strings_TrimSuffix. rewrite HasSuffix_app, string_length_app.
  replace (String.length a + String.length b - String.length b)
    with (String.length a) by lia.
  apply take_app.
Qed.

(** X4: a derived name is a fixed point: a URL without [prd] whose path
    ends in a name the function derived gets that very name. *)
Theorem derived_name_fixed_point (rawURL derivedFrom : string)
    (parsedURL : url.URL) :
  url.Parse rawURL = Some parsedURL →
  url.Get (url.Query parsedURL) "prd" = EmptyString →
  path_Base (url.Path parsedURL) = createFileNameFromURL derivedFrom →
  createFileNameFromURL rawURL = createFileNameFromURL derivedFrom.
Proof.
  intros Hparse Hprd Hbase.
  destruct (fallback_name_parsed _ _ Hparse Hprd) as [_ ->].
  rewrite Hbase.
  destruct (derived_name_normal derivedFrom) as (stem & -> & Hstem & Hnd & Hends).
  rewrite TrimSuffix_app. now rewrite (cleanSegment_fixed _ Hstem Hnd Hends).
Qed.

Lemma derived_name_fixed_point_witness :
  createFileNameFromURL "https://mirror.example/PDFs/hrls00001-3-pdf-mtr-aghs-en.pdf"
  = createFileNameFromURL
      "https://x.thewercs.com/DirectDocumentDownloader/Document?prd=HRLS00001-3~~PDF~~MTR~~AGHS~~EN".
Proof.
  refine (derived_name_fixed_point _ _
            {| url.Scheme := "https"; url.Opaque := EmptyString;
               url.Host := "mirror.example";
               url.Path := "/PDFs/hrls00001-3-pdf-mtr-aghs-en.pdf";
               url.ForceQuery := false; url.RawQuery := EmptyString;
               url.Fragment := EmptyString |} _ _ _);
    vm_compute; reflexivity.
Defined.

(** ** The alphanumeric characters of a derived name *)

Lemma filter_app (p : ascii → bool) (a b : string) :
  string_filter p (a +:+ b) = string_filter p a +:+ string_filter p b.
Proof.
  induction a as [|c a IH]; [reflexivity|].
  rewrite string_app_cons. cbn [string_filter].
  destruct (p c); [rewrite string_app_cons|]; now rewrite IH.
Qed.

Lemma ToLower_app (a b : string) :
  strings_ToLower (a +:+ b) = strings_ToLower a +:+ strings_ToLower b.
Proof.
  unfold strings_ToLower. induction a as [|c a IH]; [reflexivity|].
  rewrite string_app_cons. cbn [string_map]. rewrite string_app_cons.
  now rewrite IH.
Qed.

Lemma prefix_drop (sep s : string) :
  String.prefix sep s = true → s = sep +:+ string_drop (String.length sep) s.
Proof.
  revert s. induction sep as [|a sep IH]; intros s; [reflexivity|].
  destruct s as [|c s]; [discriminate|]. cbn [String.prefix].
  destruct (ascii_dec a c) as [<-|]; [|discriminate].
  intros Hp. rewrite string_app_cons. cbn [String.length string_drop].
  f_equal. now apply IH.
Qed.

Lemma cutAtIndex_cut (s sep before after : string) :
  cutAtIndex s sep = Some (before, after) → s = before +:+ sep +:+ after.
Proof.
  revert before after. induction s as [|c s IH]; intros before after.
  - cbn [cutAtIndex]. destruct (String.prefix sep EmptyString) eqn:Hp;
      [|discriminate].
    intros [= <- <-]. now apply prefix_drop.
  - cbn [cutAtIndex]. destruct (String.prefix sep (String c s)) eqn:Hp.
    + intros [= <- <-]. now apply prefix_drop.
    + destruct (cutAtIndex s sep) as [[b a]|]; [|discriminate].
      intros [= <- <-]. rewrite string_app_cons. f_equal. now apply IH.
Qed.

Lemma filter_genSplit (p : ascii → bool) (n : nat) (s sep : string) :
  string_filter p sep = EmptyString →
  string_filter p (string_concat (genSplit n s sep)) = string_filter p s.
Proof.
  intros Hsep. revert s. induction n as [|n IH]; intros s; cbn [genSplit].
  - cbn. now rewrite string_app_nil_r.
  - destruct (cutAtIndex s sep) as [[before after]|] eqn:Hcut.
    + cbn [string_concat]. rewrite filter_app, IH.
      pose proof (cutAtIndex_cut _ _ _ _ Hcut) as Hs.
      rewrite Hs at 1. now rewrite !filter_app, Hsep.
    + cbn. now rewrite string_app_nil_r.
Qed.

Lemma filter_Join (segs : list string) :
  string_filter Byte_.isAlnum (strings_Join segs "-")
  = string_concat (map (string_filter Byte_.isAlnum) segs).
Proof.
  induction segs as [|s segs IH]; [reflexivity|].
  destruct segs as [|s' segs'].
  - cbn. now rewrite string_app_nil_r.
  - change (strings_Join (s :: s' :: segs') "-")
      with (s +:+ "-" +:+ strings_Join (s' :: segs') "-").
    rewrite !filter_app, IH. reflexivity.
Qed.

Lemma concat_filter_nonEmpty (p : ascii → bool) (l : list string) :
  string_concat (map (string_filter p) (List.filter Spec.nonEmpty l))
  = string_concat (map (string_filter p) l).
Proof.
  induction l as [|s l IH]; [reflexivity|].
  cbn [List.filter map string_concat]. unfold Spec.nonEmpty at 1.
  destruct (String.eqb_spec s EmptyString) as [->|]; cbn [negb];
    [exact IH|].
  cbn [map string_concat]. now rewrite IH.
Qed.

Lemma concat_cleaned (segments : list string) :
  string_concat (map (string_filter Byte_.isAlnum) (map Spec.cleanSegment segments))
  = strings_ToLower (string_filter Byte_.isAlnum (string_concat segments)).
Proof.
  induction segments as [|seg segments IH]; [reflexivity|].
  cbn [map string_concat].
  now rewrite IH, cleanSegment_keeps_alnum, filter_app, ToLower_app.
Qed.

Lemma fileName_alnum (segments : list string) :
  string_filter Byte_.isAlnum (Spec.fileName segments)
  = strings_ToLower (string_filter Byte_.isAlnum (string_concat segments))
    +:+ "pdf".
Proof.
  rewrite fileName_appends, filter_app, filter_Join, concat_filter_nonEmpty,
    concat_cleaned. reflexivity.
Qed.

(** X5: nothing alphanumeric is lost or added: the letters and digits of a
    derived name are those of the [prd] value (of the stripped base of the
    path when [prd] is absent or empty), in their order and in lower
    case, followed by the "pdf" of the extension. *)
Theorem derived_name_keeps_alnum :
  (∀ rawURL parsedURL prd,
     url.Parse rawURL = Some parsedURL →
     url.Get (url.Query parsedURL) "prd" = prd →
     prd ≠ EmptyString →
     string_filter Byte_.isAlnum (createFileNameFromURL rawURL)
     = strings_ToLower (string_filter Byte_.isAlnum prd) +:+ "pdf")
  ∧ (∀ rawURL parsedURL,
       url.Parse rawURL = Some parsedURL →
       url.Get (url.Query parsedURL) "prd" = EmptyString →
       string_filter Byte_.isAlnum (createFileNameFromURL rawURL)
       = strings_ToLower
           (string_filter Byte_.isAlnum
              (strings_TrimSuffix (path_Base (url.Path parsedURL)) ".pdf"))
         +:+ "pdf").
Proof.
  split.
  - intros rawURL parsedURL prd Hparse Hprd Hne.
    rewrite (createFileNameFromURL_parsed _ _ Hparse), fileName_alnum.
    unfold Spec.segments. rewrite Hprd.
    apply String.eqb_neq in Hne. rewrite Hne. cbn [negb].
    unfold strings_Split. now rewrite filter_genSplit.
  - intros rawURL parsedURL Hparse Hprd.
    rewrite (createFileNameFromURL_parsed _ _ Hparse), fileName_alnum.
    unfold Spec.segments. rewrite Hprd. cbn [String.eqb negb string_concat].
    now rewrite string_app_nil_r.
Qed.

Lemma derived_name_keeps_alnum_witness :
  string_filter Byte_.isAlnum
    (createFileNameFromURL "http://h/p?x=1&prd=a+b%7E%7Ec~~!!!~~D.E")
  = "abcdepdf"
  ∧ string_filter Byte_.isAlnum
      (createFileNameFromURL
         "https://www.bio-rad.com/literature/TS_Staphylocoagulase%20Broth.pdf")
    = "tsstaphylocoagulasebrothpdf".
Proof.
  destruct derived_name_keeps_alnum as [Hprd Hbase]. split.
  - rewrite (Hprd _ {| url.Scheme := "http"; url.Opaque := EmptyString;
                       url.Host := "h"; url.Path := "/p";
                       url.ForceQuery := false;
                       url.RawQuery := "x=1&prd=a+b%7E%7Ec~~!!!~~D.E";
                       url.Fragment := EmptyString |} "a b~~c~~!!!~~D.E");
      [reflexivity | vm_compute; reflexivity | vm_compute; reflexivity
      | discriminate].
  - rewrite (Hbase _ {| url.Scheme := "https"; url.Opaque := EmptyString;
                        url.Host := "www.bio-rad.com";
                        url.Path := "/literature/TS_Staphylocoagulase Broth.pdf";
                        url.ForceQuery := false; url.RawQuery := EmptyString;
                        url.Fragment := EmptyString |});
      [reflexivity | vm_compute; reflexivity | vm_compute; reflexivity].
Defined.

(** ** The case of the ASCII letters *)

Lemma toLower_idem (c : ascii) : Byte_.toLower (Byte_.toLower c) = Byte_.toLower c.
Proof.
  destruct c as [b0 b1 b2 b3 b4 b5 b6 b7].
  destruct b0, b1, b2, b3, b4, b5, b6, b7; vm_compute; reflexivity.
Qed.

Lemma toLower_cases (c : ascii) :
  Byte_.toLower c = c
  ∨ Byte_.isLower (Byte_.toLower c) = true.
Proof.
  destruct c as [b0 b1 b2 b3 b4 b5 b6 b7].
  destruct b0, b1, b2, b3, b4, b5, b6, b7; vm_compute; auto.
Qed.

Lemma toLower_inSet_hyphen (c : ascii) :
  Byte_.inSet "-" (Byte_.toLower c) = Byte_.inSet "-" c.
Proof.
  destruct c as [b0 b1 b2 b3 b4 b5 b6 b7].
  destruct b0, b1, b2, b3, b4, b5, b6, b7; vm_compute; reflexivity.
Qed.

Lemma asciiLower_idem (s : string) :
  asciiLower (asciiLower s) = asciiLower s.
Proof.
  unfold asciiLower. induction s as [|c s IH]; [reflexivity|].
  cbn [string_map]. now rewrite toLower_idem, IH.
Qed.

Lemma asciiLower_length (s : string) :
  String.length (asciiLower s) = String.length s.
Proof.
  unfold asciiLower. induction s as [|c s IH]; [reflexivity|].
  cbn. now rewrite IH.
Qed.

Lemma asciiLower_drop (n : nat) (s : string) :
  string_drop n (asciiLower s) = asciiLower (string_drop n s).
Proof.
  unfold asciiLower. revert s. induction n as [|n IH]; intros s;
    [reflexivity|].
  destruct s as [|c s]; [reflexivity|]. cbn [string_map string_drop]. apply IH.
Qed.

Lemma replaceRuns_asciiLower (cls : ascii → bool) (b : bool) (s : string) :
  (∀ c, cls c = negb (Byte_.isAlnum c)) →
  replaceRuns cls "-" b (asciiLower s)
  = asciiLower (replaceRuns cls "-" b s).
Proof.
  intros Hcls. unfold asciiLower. revert b.
  induction s as [|c s IH]; intros b; [reflexivity|].
  cbn [string_map replaceRuns]. rewrite !Hcls, toLower_alnum.
  destruct (negb (Byte_.isAlnum c)).
  - destruct b; [apply IH|].
    rewrite !string_app_cons, !string_app_nil_l. cbn [string_map].
    f_equal. apply IH.
  - cbn [string_map]. f_equal. apply IH.
Qed.

Lemma trimLeft_asciiLower (s : string) :
  trimLeftFunc (Byte_.inSet "-") (asciiLower s)
  = asciiLower (trimLeftFunc (Byte_.inSet "-") s).
Proof.
  unfold asciiLower. induction s as [|c s IH]; [reflexivity|].
  cbn [string_map trimLeftFunc]. rewrite toLower_inSet_hyphen.
  destruct (Byte_.inSet "-" c); [exact IH | reflexivity].
Qed.

Lemma trimRight_asciiLower (s : string) :
  trimRightFunc (Byte_.inSet "-") (asciiLower s)
  = asciiLower (trimRightFunc (Byte_.inSet "-") s).
Proof.
  unfold asciiLower. induction s as [|c s IH]; [reflexivity|].
  cbn [string_map trimRightFunc]. rewrite IH, toLower_inSet_hyphen.
  destruct (trimRightFunc (Byte_.inSet "-") s) as [|d t]; cbn [string_map].
  - now destruct (Byte_.inSet "-" c).
  - reflexivity.
Qed.

(** Cleaning does not see the case of the ASCII letters. *)
Lemma cleanSegment_asciiLower (seg : string) :
  Spec.cleanSegment (asciiLower seg) = Spec.cleanSegment seg.
Proof.
  rewrite !cleanSegment_code. unfold strings_Trim.
  change strings_ToLower with asciiLower.
  rewrite <- !ReplaceAllString_sanitize. unfold Regexp_ReplaceAllString.
  rewrite replaceRuns_asciiLower by reflexivity.
  now rewrite trimLeft_asciiLower, trimRight_asciiLower, asciiLower_idem.
Qed.

Lemma prefix_asciiLower (sep s : string) :
  letterFree sep = true →
  String.prefix sep (asciiLower s) = String.prefix sep s.
Proof.
  unfold letterFree, asciiLower. revert s.
  induction sep as [|a sep IH]; intros s Hfree; [now destruct s|].
  cbn [string_forallb] in Hfree. apply andb_true_iff in Hfree as [Ha Hfree].
  destruct s as [|c s]; [reflexivity|]. cbn [string_map String.prefix].
  rewrite (IH s Hfree).
  destruct (ascii_dec a (Byte_.toLower c)) as [Hl|Hl],
           (ascii_dec a c) as [Hc|Hc]; try reflexivity; exfalso.
  - destruct (toLower_cases c) as [Heq|Hlow]; [congruence|].
    rewrite <- Hl in Hlow. rewrite Hlow, orb_true_r in Ha. discriminate.
  - subst c. destruct (toLower_cases a) as [Heq|Hlow]; [congruence|].
    apply Hl. clear Hl Hlow IH Hfree.
    destruct a as [b0 b1 b2 b3 b4 b5 b6 b7].
    destruct b0, b1, b2, b3, b4, b5, b6, b7; vm_compute in Ha |- *;
      congruence.
Qed.

Lemma cutAtIndex_asciiLower (sep s : string) :
  letterFree sep = true →
  cutAtIndex (asciiLower s) sep
  = match cutAtIndex s sep with
    | Some (before, after) =>
        Some (asciiLower before, asciiLower after)
    | None => None
    end.
Proof.
  intros Hfree. induction s as [|c s IH].
  - cbn [cutAtIndex]. change (asciiLower EmptyString) with EmptyString.
    cbn [cutAtIndex]. destruct (String.prefix sep EmptyString) eqn:Hp.
    + now rewrite <- (asciiLower_drop _ EmptyString).
    + reflexivity.
  - change (asciiLower (String c s))
      with (String (Byte_.toLower c) (asciiLower s)).
    cbn [cutAtIndex].
    change (String (Byte_.toLower c) (asciiLower s))
      with (asciiLower (String c s)).
    rewrite (prefix_asciiLower _ _ Hfree).
    destruct (String.prefix sep (String c s)).
    + now rewrite asciiLower_drop.
    + rewrite IH. now destruct (cutAtIndex s sep) as [[before after]|].
Qed.

Lemma genSplit_asciiLower (sep : string) (n : nat) (s : string) :
  letterFree sep = true →
  genSplit n (asciiLower s) sep = map asciiLower (genSplit n s sep).
Proof.
  intros Hfree. revert s. induction n as [|n IH]; intros s; [reflexivity|].
  cbn [genSplit]. rewrite (cutAtIndex_asciiLower _ _ Hfree).
  destruct (cutAtIndex s sep) as [[before after]|]; [|reflexivity].
  cbn [map]. now rewrite IH.
Qed.

(** Splitting commutes with the lowering of the ASCII capitals. *)
Lemma Split_asciiLower (sep s : string) :
  letterFree sep = true →
  strings_Split (asciiLower s) sep
  = map asciiLower (strings_Split s sep).
Proof.
  intros Hfree. unfold strings_Split.
  now rewrite asciiLower_length, genSplit_asciiLower.
Qed.

Lemma cleaned_asciiLower (segments : list string) :
  map Spec.cleanSegment (map asciiLower segments)
  = map Spec.cleanSegment segments.
Proof.
  rewrite map_map. apply map_ext. intros seg. apply cleanSegment_asciiLower.
Qed.

Lemma fileName_asciiLower (segments : list string) :
  Spec.fileName (map asciiLower segments) = Spec.fileName segments.
Proof. unfold Spec.fileName. now rewrite cleaned_asciiLower. Qed.

(** X6: the name derived from a "prd" parameter does not depend on the case
    of its ASCII letters: two URLs whose non-empty "prd" values differ only
    in the case of the letters A to Z get the same file name, so in one
    output directory the second download is taken for the first.  Beyond
    ASCII the case is never folded: the Kelvin sign, whose lower case is
    "k", is punctuation to the cleaning, and its URL gets ".pdf" where the
    one of "k" gets "k.pdf". *)
Theorem derived_name_ignores_case :
  (∀ rawURL otherURL parsedURL otherParsed,
     url.Parse rawURL = Some parsedURL →
     url.Parse otherURL = Some otherParsed →
     url.Get (url.Query parsedURL) "prd" ≠ EmptyString →
     asciiLower (url.Get (url.Query otherParsed) "prd")
     = asciiLower (url.Get (url.Query parsedURL) "prd") →
     createFileNameFromURL otherURL = createFileNameFromURL rawURL)
  ∧ createFileNameFromURL
      "https://x.thewercs.com/DirectDocumentDownloader/Document?prd=%E2%84%AA"
    = ".pdf"
  ∧ createFileNameFromURL
      "https://x.thewercs.com/DirectDocumentDownloader/Document?prd=k"
    = "k.pdf"
  ∧ createFileNameFromURL
      "https://x.thewercs.com/DirectDocumentDownloader/Document?prd=K"
    = "k.pdf".
Proof.
  split; [|repeat split; vm_compute; reflexivity].
  intros rawURL otherURL parsedURL otherParsed Hparse Hother Hprd Hcase.
  rewrite (createFileNameFromURL_parsed _ _ Hparse),
    (createFileNameFromURL_parsed _ _ Hother).
  unfold Spec.segments.
  set (prd := url.Get (url.Query parsedURL) "prd") in *.
  set (other := url.Get (url.Query otherParsed) "prd") in *.
  assert (Hne : ∀ s, s ≠ EmptyString → negb (String.eqb s EmptyString) = true).
  { intros s Hs. destruct (String.eqb_spec s EmptyString); [contradiction|].
    reflexivity. }
  assert (Hother' : other ≠ EmptyString).
  { intros Heq. rewrite Heq in Hcase. destruct prd; [congruence|].
    discriminate Hcase. }
  rewrite (Hne _ Hprd), (Hne _ Hother').
  rewrite <- (fileName_asciiLower (strings_Split other "~~")),
    <- (fileName_asciiLower (strings_Split prd "~~")).
  rewrite <- !Split_asciiLower by reflexivity. now rewrite Hcase.
Qed.

Lemma derived_name_ignores_case_witness :
  createFileNameFromURL
    "https://x.thewercs.com/DirectDocumentDownloader/Document?prd=hrls00001-3~~pdf~~mtr~~aghs~~en"
  = createFileNameFromURL
      "https://x.thewercs.com/DirectDocumentDownloader/Document?prd=HRLS00001-3~~PDF~~MTR~~AGHS~~EN".
Proof.
  refine (proj1 derived_name_ignores_case _ _
            {| url.Scheme := "https"; url.Opaque := EmptyString;
               url.Host := "x.thewercs.com";
               url.Path := "/DirectDocumentDownloader/Document";
               url.ForceQuery := false;
               url.RawQuery := "prd=HRLS00001-3~~PDF~~MTR~~AGHS~~EN";
               url.Fragment := EmptyString |}
            {| url.Scheme := "https"; url.Opaque := EmptyString;
               url.Host := "x.thewercs.com";
               url.Path := "/DirectDocumentDownloader/Document";
               url.ForceQuery := false;
               url.RawQuery := "prd=hrls00001-3~~pdf~~mtr~~aghs~~en";
               url.Fragment := EmptyString |} _ _ _ _);
    vm_compute; solve [reflexivity | discriminate].
Defined.

(** ** The extracted list, element by element *)

Lemma Each_appends {A B : Type} (f : list B → A → list B) (g : A → list B)
    (selection : list A) (urls : list B) :
  (∀ acc s, f acc s = acc ++ g s) →
  fold_left f selection urls = urls ++ flat_map g selection.
Proof.
  intros Hstep. revert urls.
  induction selection as [|s selection IH]; intros urls.
  - cbn. now rewrite app_nil_r.
  - cbn [fold_left flat_map]. now rewrite IH, Hstep, <- app_assoc.
Qed.

Lemma hiddenInputStep_appends (urls : list string) (s : html.Node) :
  hiddenInputStep urls s = urls ++ hiddenLinks s.
Proof.
  unfold hiddenInputStep, hiddenLinks.
  destruct (goquery.Attr s "value") as [val|]; [apply hiddenParts_spec|].
  now rewrite app_nil_r.
Qed.

Lemma optionStep_appends (urls : list string) (s : html.Node) :
  optionStep urls s = urls ++ attributeLinks "value" s.
Proof.
  unfold optionStep, attributeLinks, Spec.candidate.
  destruct (goquery.Attr s "value") as [val|]; [|now rewrite app_nil_r].
  destruct (strings_HasPrefix val "http" && isAllowed val);
    [reflexivity | now rewrite app_nil_r].
Qed.

Lemma anchorStep_appends (urls : list string) (s : html.Node) :
  anchorStep urls s = urls ++ attributeLinks "href" s.
Proof.
  unfold anchorStep, attributeLinks, Spec.candidate.
  destruct (goquery.Attr s "href") as [val|]; [|now rewrite app_nil_r].
  destruct (strings_HasPrefix val "http" && isAllowed val);
    [reflexivity | now rewrite app_nil_r].
Qed.

Lemma linksOfDocument_elements (doc : html.Node) :
  linksOfDocument doc
  = flat_map hiddenLinks
      (goquery.Find doc (goquery.TagWithAttr "input" "type" "hidden"))
    ++ flat_map (attributeLinks "value") (goquery.Find doc (goquery.Tag "option"))
    ++ flat_map (attributeLinks "href") (goquery.Find doc (goquery.Tag "a")).
Proof.
  unfold linksOfDocument.
  rewrite (Each_appends anchorStep _ _ _ anchorStep_appends),
    (Each_appends optionStep _ _ _ optionStep_appends),
    (Each_appends hiddenInputStep _ _ _ hiddenInputStep_appends).
  cbn [app]. now rewrite <- app_assoc.
Qed.

(** X7: the extracted list is built element by element and nothing is
    merged: first what the hidden inputs give, then the candidate values of
    the options, then the candidate targets of the anchors, each group in
    document order, and a link that occurs several times is listed as
    often. *)
Theorem extracted_links_by_element (NewDocumentFromReader : HTMLParser)
    (htmlContent : string) (doc : html.Node) :
  NewDocumentFromReader htmlContent = Some doc →
  extractLinksFromHTML NewDocumentFromReader htmlContent
  = flat_map hiddenLinks
      (goquery.Find doc (goquery.TagWithAttr "input" "type" "hidden"))
    ++ flat_map (attributeLinks "value") (goquery.Find doc (goquery.Tag "option"))
    ++ flat_map (attributeLinks "href") (goquery.Find doc (goquery.Tag "a")).
Proof.
  intros Hparse. unfold extractLinksFromHTML. rewrite Hparse.
  apply linksOfDocument_elements.
Qed.

Lemma extracted_links_by_element_witness :
  extractLinksFromHTML (recordedParser recordedParses) mixedMarkup
  = flat_map hiddenLinks
      (goquery.Find mixedDocument (goquery.TagWithAttr "input" "type" "hidden"))
    ++ flat_map (attributeLinks "value")
         (goquery.Find mixedDocument (goquery.Tag "option"))
    ++ flat_map (attributeLinks "href")
         (goquery.Find mixedDocument (goquery.Tag "a")).
Proof.
  apply (extracted_links_by_element (recordedParser recordedParses) mixedMarkup
           mixedDocument).
  vm_compute. reflexivity.
Defined.

(** X8: no candidate is lost: the target of every anchor and the value of
    every option of the document that starts with "http" and passes the
    allow-list check is in the extracted list. *)
Theorem extracted_links_complete (NewDocumentFromReader : HTMLParser)
    (htmlContent : string) (doc s : html.Node) (attribute link : string) :
  NewDocumentFromReader htmlContent = Some doc →
  (attribute = "href" ∧ In s (goquery.Find doc (goquery.Tag "a"))
   ∨ attribute = "value" ∧ In s (goquery.Find doc (goquery.Tag "option"))) →
  goquery.Attr s attribute = Some link →
  strings_HasPrefix link "http" = true →
  isAllowed link = true →
  In link (extractLinksFromHTML NewDocumentFromReader htmlContent).
Proof.
  intros Hparse Hfound Hattr Hprefix Hallowed.
  unfold extractLinksFromHTML. rewrite Hparse, linksOfDocument_elements.
  assert (Hlinks : In link (attributeLinks attribute s)).
  { unfold attributeLinks, Spec.candidate.
    rewrite Hattr, Hprefix, Hallowed. now left. }
  rewrite !List.in_app_iff.
  destruct Hfound as [[-> Hin]|[-> Hin]]; [right; right | right; left];
    apply List.in_flat_map; exists s; auto.
Qed.

Lemma extracted_links_complete_witness :
  In "https://www.bio-rad.com/sites/default/files/webroot/web/pdf/C.pdf"
    (extractLinksFromHTML (recordedParser recordedParses) mixedMarkup).
Proof.
  apply (extracted_links_complete (recordedParser recordedParses) mixedMarkup
           mixedDocument
           (element "a"
              [ ("href",
                 "https://www.bio-rad.com/sites/default/files/webroot/web/pdf/C.pdf") ]
              [])
           "href").
  - vm_compute. reflexivity.
  - left. split; [reflexivity|]. vm_compute. left. reflexivity.
  - reflexivity.
  - vm_compute. reflexivity.
  - vm_compute. reflexivity.
Defined.

(** ** More on the downloader *)

Section DownloaderCalls.
Context `{Platform}.

(** X9: whatever happens, the calls of [downloadPDFFile] are an initial part
    of the same sequence: [os.Stat] of the destination, [http.Get],
    [os.MkdirAll], [os.Create], [io.Copy]; and the function writes to the
    log exactly when it returns nil: one line for a skip (after the first
    call) or for a finished download (after all five); an error is
    returned after two to five calls and nothing is logged. *)
Theorem download_calls_in_order
    (downloadURL outputDirectory outputFileName : string) (w : World) :
  let fullFilePath := filepath_Join outputDirectory outputFileName in
  let result := downloadPDFFile downloadURL outputDirectory outputFileName w in
  ∃ n,
    trace (fst result)
    = trace w ++ take n (downloadCalls downloadURL outputDirectory outputFileName)
    ∧ (n < 3 → files (fst result) = files w)
    ∧ match snd result with
      | None =>
          (n = 1 ∧ logged (fst result)
                   = logged w ++ ["File already exists, skipping: " +:+ fullFilePath])
          ∨ (n = 5 ∧ logged (fst result)
                     = logged w ++ ["Downloaded: " +:+ fullFilePath])
      | Some _ => 2 ≤ n ≤ 5 ∧ logged (fst result) = logged w
      end.
Proof.
  intros fullFilePath result.
  destruct result as [w1 e] eqn:Hcall. subst result. revert Hcall.
  unfold downloadPDFFile, bind at 1. fold fullFilePath.
  rewrite fileExists_run.
  destruct (regularFileAt fullFilePath (files w)).
  { intros [= <- <-]. exists 1. cbn. auto. }
  unfold Get, MkdirAll, Create, Copy, log_Printf, bind, emit, ret. cbn.
  destruct (http_Get downloadURL (network w)) as [net1 [resp|err]]; cbn.
  2:{ intros [= <- <-]. exists 2. cbn. rewrite <- app_assoc.
      repeat split; auto. }
  destruct (negb (StatusCode resp =? StatusOK)%Z); cbn.
  { intros [= <- <-]. exists 2. cbn. rewrite <- app_assoc.
    repeat split; auto. }
  destruct (os_MkdirAll outputDirectory (files w)) as [fs2 [err|]]; cbn.
  { intros [= <- <-]. exists 3. cbn. rewrite <- !app_assoc.
    repeat split; auto; lia. }
  destruct (os_Create _ fs2) as [fs3 [err|]]; cbn.
  { intros [= <- <-]. exists 4. cbn. rewrite <- !app_assoc.
    repeat split; auto; lia. }
  destruct (io_Copy _ (Body resp) (fs3, net1)) as [[fs4 net4] [err|]]; cbn.
  { intros [= <- <-]. exists 5. cbn. rewrite <- !app_assoc.
    repeat split; auto; lia. }
  intros [= <- <-]. exists 5. cbn. rewrite <- !app_assoc.
  split; [reflexivity|]. split; [lia|]. now right.
Qed.

(** X10: the files are touched only on the way of a download that got its
    200: after any call either the file system is the one before the call,
    or no regular file was at the destination and [http.Get] returned a
    response with status code 200. *)
Theorem files_change_only_after_ok
    (downloadURL outputDirectory outputFileName : string) (w : World) :
  files (fst (downloadPDFFile downloadURL outputDirectory outputFileName w))
  = files w
  ∨ (regularFileAt (filepath_Join outputDirectory outputFileName) (files w)
     = false
     ∧ ∃ net' resp,
         http_Get downloadURL (network w) = (net', Ok resp)
         ∧ StatusCode resp = StatusOK).
Proof.
  unfold downloadPDFFile, bind at 1. rewrite fileExists_run.
  destruct (regularFileAt _ (files w)); [now left|].
  unfold Get, MkdirAll, Create, Copy, log_Printf, bind, emit, ret. cbn.
  destruct (http_Get downloadURL (network w)) as [net1 [resp|err]]; cbn;
    [|now left].
  destruct (StatusCode resp =? StatusOK)%Z eqn:Hstatus; cbn; [|now left].
  right. split; [reflexivity|]. exists net1, resp.
  split; [reflexivity|]. now apply Z.eqb_eq.
Qed.

Lemma download_reached_copy
    (downloadURL outputDirectory outputFileName : string) (w w1 : World)
    (e : option error) :
  keepsCreatedFiles →
  downloadPDFFile downloadURL outputDirectory outputFileName w = (w1, e) →
  last (trace w1) = Some (EvCopy (filepath_Join outputDirectory outputFileName)) →
  regularFileAt (filepath_Join outputDirectory outputFileName) (files w1) = true.
Proof.
  intros [Hcreate Hcopy].
  unfold downloadPDFFile, bind at 1. rewrite fileExists_run.
  destruct (regularFileAt _ (files w)) eqn:Hfile.
  { intros [= <- _]. cbn. rewrite last_snoc. discriminate. }
  unfold Get, MkdirAll, Create, Copy, log_Printf, bind, emit, ret. cbn.
  destruct (http_Get downloadURL (network w)) as [net1 [resp|err]]; cbn.
  2:{ intros [= <- _]. cbn. rewrite last_snoc. discriminate. }
  destruct (negb (StatusCode resp =? StatusOK)%Z); cbn.
  { intros [= <- _]. cbn. rewrite last_snoc. discriminate. }
  destruct (os_MkdirAll outputDirectory (files w)) as [fs2 [err|]]; cbn.
  { intros [= <- _]. cbn. rewrite last_snoc. discriminate. }
  destruct (os_Create _ fs2) as [fs3 [err|]] eqn:Hc; cbn.
  { intros [= <- _]. cbn. rewrite last_snoc. discriminate. }
  destruct (io_Copy _ (Body resp) (fs3, net1)) as [[fs4 net4] [err|]] eqn:Hio;
    cbn; intros [= <- _] _; cbn;
    (eapply Hcopy; [exact Hio|]; eapply Hcreate, Hc).
Qed.

(** X11: a download that breaks while the body is copied is never made
    good: when a call returns an error after it got as far as [io.Copy],
    the file it created stays (on a platform where a created file stays a
    regular file), and every later call for that destination, for
    whichever URL, is a skip that returns nil and fetches nothing. *)
Theorem interrupted_copy_is_skipped_later
    (downloadURL laterURL outputDirectory outputFileName : string)
    (w w1 : World) (err : error) :
  keepsCreatedFiles →
  downloadPDFFile downloadURL outputDirectory outputFileName w = (w1, Some err) →
  last (trace w1) = Some (EvCopy (filepath_Join outputDirectory outputFileName)) →
  downloadPDFFile laterURL outputDirectory outputFileName w1
  = (skipped (filepath_Join outputDirectory outputFileName) w1, None).
Proof.
  intros Hkeeps Hcall Hlast. apply download_skips.
  exact (download_reached_copy _ _ _ _ _ _ Hkeeps Hcall Hlast).
Qed.

End DownloaderCalls.

Lemma interrupted_copy_is_skipped_later_witness :
  let broken : result (Response Mem.stream) :=
    Ok {| Status := "200 OK"; StatusCode := 200;
          Body := {| Mem.arriving := "%PDF-1.";
                     Mem.breaking := Some "unexpected EOF" |} |} in
  let first :=
    downloadPDFFile "https://www.bio-rad.com/webroot/web/pdf/Bulletin_1842C.pdf"
      "PDFs" "bulletin-1842c.pdf" (Mem.world ∅ [broken; Mem.found "%PDF-1.4"]) in
  snd first = Some "error saving PDF to PDFs/bulletin-1842c.pdf: unexpected EOF"
  ∧ downloadPDFFile "https://www.bio-rad.com/webroot/web/pdf/Bulletin_1842C.pdf"
      "PDFs" "bulletin-1842c.pdf" (fst first)
    = (skipped "PDFs/bulletin-1842c.pdf" (fst first), None).
Proof.
  intros broken first.
  assert (Hfirst : first
                   = (fst first,
                      Some "error saving PDF to PDFs/bulletin-1842c.pdf: unexpected EOF"))
    by (vm_compute; reflexivity).
  split; [now rewrite Hfirst|].
  apply (@interrupted_copy_is_skipped_later Mem.platform
           "https://www.bio-rad.com/webroot/web/pdf/Bulletin_1842C.pdf"
           "https://www.bio-rad.com/webroot/web/pdf/Bulletin_1842C.pdf"
           "PDFs" "bulletin-1842c.pdf"
           (Mem.world ∅ [broken; Mem.found "%PDF-1.4"]) (fst first)
           "error saving PDF to PDFs/bulletin-1842c.pdf: unexpected EOF").
  - exact Mem_keepsCreatedFiles.
  - exact Hfirst.
  - vm_compute. reflexivity.
Defined.

(** ** More on the worker pool *)

Section PoolOrder.
Import Pool.
Variable numberOfWorkers : nat.
Variable downloadURLs : list string.
Variable outputDir : string.

Local Abbreviation stepMain := (Pool.stepMain numberOfWorkers downloadURLs).
Local Abbreviation stepWorker := (Pool.stepWorker outputDir).
Local Abbreviation step := (Pool.step numberOfWorkers downloadURLs outputDir).
Local Abbreviation run := (Pool.run numberOfWorkers downloadURLs outputDir).
Local Abbreviation reachable :=
  (Pool.reachable numberOfWorkers downloadURLs outputDir).
Local Abbreviation invariant :=
  (Pool.invariant numberOfWorkers downloadURLs outputDir).
Local Abbreviation unsent := (Pool.unsent downloadURLs).
Local Abbreviation capacity := (Pool.capacity downloadURLs).

Lemma live_member (ws : list Worker) (j : nat) (w : Worker) :
  ws !! j = Some w → exited w = false → 0 < live ws.
Proof.
  intros Hj Hw. destruct (worker_split ws j w w Hj) as (before & after & -> & _).
  rewrite live_app, live_cons. unfold alive. rewrite Hw. lia.
Qed.

Lemma channel_room (s : State) :
  invariant s →
  length (urlChannel s) + length (unsent (dispatcher s)) ≤ capacity.
Proof.
  intros Hinv. pose proof (Permutation_length (inv_urls _ _ _ _ Hinv)) as Hlen.
  rewrite !length_app in Hlen. unfold Pool.capacity. lia.
Qed.

(** X12: in a run of the pool no operation on the channel or on the
    WaitGroup goes wrong: the buffer never holds more than its capacity
    [len(downloadURLs)], so a send never blocks and [main] reaches
    [close] without waiting for a worker; the channel is closed only when
    nothing is left to send; and a worker that leaves its loop finds the
    counter of the WaitGroup positive, so [wg.Done()] never panics. *)
Theorem pool_operations_never_block (s : State) :
  reachable s →
  length (urlChannel s) ≤ capacity
  ∧ (∀ url rest, dispatcher s = Sending (url :: rest) →
                 closed s = false ∧ is_Some (stepMain s))
  ∧ (closed s = true → unsent (dispatcher s) = [])
  ∧ (∀ j, workers s !! j = Some Returning →
          0 < wg s ∧ is_Some (stepWorker j s)).
Proof.
  intros Hreach. pose proof (invariant_reachable _ _ _ _ Hreach) as Hinv.
  pose proof (channel_room s Hinv) as Hroom.
  split; [lia|]. split; [|split].
  - intros url rest Hd. rewrite Hd in Hroom. cbn in Hroom.
    split; [rewrite (inv_closed _ _ _ _ Hinv), Hd; reflexivity|].
    unfold Pool.stepMain. rewrite Hd.
    destruct (Nat.ltb_spec (length (urlChannel s)) capacity) as [_|Hfull];
      [eauto|lia].
  - rewrite (inv_closed _ _ _ _ Hinv).
    now destruct (dispatcher s).
  - intros j Hj.
    pose proof (live_member _ _ _ Hj eq_refl) as Hlive.
    pose proof (inv_wg _ _ _ _ Hinv) as Hwg.
    split; [lia|]. unfold Pool.stepWorker. rewrite Hj.
    destruct (wg s); [lia | eauto].
Qed.

Lemma inOrder_stepMain (s s' : State) :
  receivedInOrder downloadURLs s → stepMain s = Some s' →
  receivedInOrder downloadURLs s'.
Proof.
  intros (received & Hperm & Hlist). unfold Pool.stepMain.
  destruct (dispatcher s) as [i|i|[|url rest]| |] eqn:Hd; cbn in Hlist.
  - destruct (i <? numberOfWorkers); intros [= <-]; exists received; cbn;
      auto.
  - intros [= <-]. exists received. cbn. rewrite inFlight_app. cbn.
    rewrite app_nil_r. auto.
  - intros [= <-]. exists received. cbn. auto.
  - destruct (length (urlChannel s) <? Pool.capacity downloadURLs);
      intros [= <-]. exists received. cbn. split; [exact Hperm|].
    now rewrite <- app_assoc.
  - destruct (wg s =? 0); intros [= <-]. exists received. cbn. auto.
  - discriminate.
Qed.

Lemma inFlight_replaced (ws : list Worker) (j : nat) (w w' : Worker) :
  ws !! j = Some w →
  Permutation (held w ++ inFlight (<[j := w']> ws)) (held w' ++ inFlight ws).
Proof.
  intros Hj. destruct (worker_split ws j w w' Hj) as (before & after & -> & ->).
  rewrite !inFlight_app. cbn [inFlight flat_map].
  rewrite !app_assoc.
  rewrite (Permutation_app_comm (held w) (inFlight before)).
  rewrite (Permutation_app_comm (held w') (inFlight before)).
  rewrite <- !app_assoc. apply Permutation_app_head.
  rewrite !app_assoc. apply Permutation_app_tail, Permutation_app_comm.
Qed.

Lemma inOrder_stepWorker (j : nat) (s s' : State) :
  receivedInOrder downloadURLs s → stepWorker j s = Some s' →
  receivedInOrder downloadURLs s'.
Proof.
  intros (received & Hperm & Hlist). unfold Pool.stepWorker.
  destruct (workers s !! j) as [[|url| |]|] eqn:Hj; try discriminate.
  - destruct (urlChannel s) as [|url rest] eqn:Hch.
    + destruct (closed s); intros [= <-]. exists received. cbn.
      split; [|exact Hlist]. etransitivity; [exact Hperm|].
      apply Permutation_app_head. unfold setWorker.
      symmetry. exact (inFlight_replaced _ _ _ Returning Hj).
    + intros [= <-]. exists (received ++ [url]). cbn. split.
      * unfold setWorker.
        pose proof (inFlight_replaced _ _ _ (Holding url) Hj) as Hrep.
        cbn in Hrep. rewrite Hrep, Hperm.
        rewrite <- app_assoc. apply Permutation_app_head.
        symmetry. apply Permutation_cons_append.
      * etransitivity; [exact Hlist|]. now rewrite <- app_assoc.
  - intros [= <-]. exists received. cbn. split; [|exact Hlist].
    unfold setWorker. rewrite map_app. cbn. rewrite <- app_assoc. cbn.
    pose proof (inFlight_replaced _ _ _ Receiving Hj) as Hrep. cbn in Hrep.
    rewrite Hperm. apply Permutation_app_head. now rewrite Hrep.
  - destruct (wg s); intros [= <-]. exists received. cbn.
    split; [|exact Hlist]. etransitivity; [exact Hperm|].
    apply Permutation_app_head. unfold setWorker.
    symmetry. exact (inFlight_replaced _ _ _ Exited Hj).
Qed.

Lemma inOrder_run (schedule : list Goroutine) (s s' : State) :
  receivedInOrder downloadURLs s → run schedule s = Some s' →
  receivedInOrder downloadURLs s'.
Proof.
  revert s. induction schedule as [|g schedule IH]; intros s Hs; cbn.
  - now intros [= <-].
  - destruct (step g s) as [s1|] eqn:Hstep; [|discriminate].
    apply IH. destruct g as [|j]; cbn in Hstep.
    + exact (inOrder_stepMain _ _ Hs Hstep).
    + exact (inOrder_stepWorker _ _ _ Hs Hstep).
Qed.

(** X13: the URLs are handed to the workers in the order of the list: in
    every state of a run the URLs received so far (those attempted and
    those a worker holds) are an initial part of [downloadURLs], and the
    channel followed by what [main] has still to send is the rest of it;
    so a URL is attempted only after every URL before it in the list has
    been received by some worker. *)
Theorem pool_receives_in_order (s : State) :
  reachable s →
  ∃ received,
    Permutation received (map downloadURL (attempts s) ++ inFlight (workers s))
    ∧ downloadURLs = received ++ urlChannel s ++ unsent (dispatcher s).
Proof.
  intros [schedule Hrun]. apply (inOrder_run schedule init); [|exact Hrun].
  exists []. split; [constructor | reflexivity].
Qed.

End PoolOrder.

Lemma pool_operations_never_block_witness :
  let urls := [ "https://www.bio-rad.com/webroot/web/pdf/A.pdf";
                "https://www.bio-rad.com/webroot/web/pdf/B.pdf";
                "https://www.bio-rad.com/webroot/web/pdf/C.pdf" ] in
  let schedule :=
    [ Pool.Main; Pool.Main; Pool.Main; Pool.Main; Pool.Main; Pool.Main;
      Pool.Main; Pool.Main ] in
  ∃ s, Pool.run 2 urls "PDFs" schedule Pool.init = Some s
       ∧ Pool.dispatcher s = Pool.Sending []
       ∧ length (Pool.urlChannel s) = 3
       ∧ is_Some (Pool.stepMain 2 urls s).
Proof.
  intros urls schedule.
  destruct (Pool.run 2 urls "PDFs" schedule Pool.init) as [s|] eqn:Hrun;
    [|vm_compute in Hrun; discriminate].
  assert (Hreach : Pool.reachable 2 urls "PDFs" s) by now exists schedule.
  destruct (pool_operations_never_block 2 urls "PDFs" s Hreach)
    as (Hroom & Hsend & Hclosed & Hdone).
  exists s. split; [reflexivity|].
  assert (Hs : Some s = Pool.run 2 urls "PDFs" schedule Pool.init)
    by now rewrite Hrun.
  vm_compute in Hs. injection Hs as ->.
  split; [reflexivity|]. split; [reflexivity|]. eauto.
Defined.

Lemma pool_receives_in_order_witness :
  let urls := [ "https://www.bio-rad.com/webroot/web/pdf/A.pdf";
                "https://www.bio-rad.com/webroot/web/pdf/B.pdf";
                "https://www.bio-rad.com/webroot/web/pdf/C.pdf" ] in
  let schedule :=
    [ Pool.Main; Pool.Main; Pool.Main; Pool.Main; Pool.Main; Pool.Main;
      Pool.WorkerNo 1; Pool.Main; Pool.WorkerNo 0; Pool.WorkerNo 0 ] in
  ∃ s received,
    Pool.run 2 urls "PDFs" schedule Pool.init = Some s
    ∧ Permutation received
        (map Pool.downloadURL (Pool.attempts s) ++ Pool.inFlight (Pool.workers s))
    ∧ urls = received ++ Pool.urlChannel s ++ Pool.unsent urls (Pool.dispatcher s).
Proof.
  intros urls schedule.
  destruct (Pool.run 2 urls "PDFs" schedule Pool.init) as [s|] eqn:Hrun;
    [|vm_compute in Hrun; discriminate].
  assert (Hreach : Pool.reachable 2 urls "PDFs" s) by now exists schedule.
  destruct (pool_receives_in_order 2 urls "PDFs" s Hreach)
    as (received & Hperm & Hlist).
  exists s, received. auto.
Defined.

(** The pool without a worker. *)
Lemma no_worker_no_attempt (downloadURLs : list string) (outputDir : string)
    (s : Pool.State) :
  Pool.invariant 0 downloadURLs outputDir s →
  Pool.attempts s = [] ∧ Pool.workers s = [].
Proof.
  intros Hinv. split.
  - destruct (Pool.attempts s) as [|a l] eqn:Ha; [reflexivity|].
    destruct (Pool.inv_attempts _ _ _ _ Hinv a) as [Hworker _];
      [rewrite Ha; now left | lia].
  - pose proof (Pool.inv_workers _ _ _ _ Hinv) as Hlen.
    pose proof (launched_bound 0 _ (Pool.inv_bound _ _ _ _ Hinv)) as Hbound.
    destruct (Pool.workers s); [reflexivity | cbn in Hlen; lia].
Qed.

(** X14: the pool relies on its workers: were [numberOfWorkers] zero, no
    goroutine would ever receive, the sends would still fit the buffer,
    and [wg.Wait()] would return at once: [main] gets to its last line
    without a single download attempt, whatever the list of URLs. *)
Theorem pool_without_workers (downloadURLs : list string) (outputDir : string) :
  (∀ s, Pool.reachable 0 downloadURLs outputDir s →
        Pool.attempts s = [] ∧ Pool.workers s = [])
  ∧ (∃ schedule s,
       Pool.run 0 downloadURLs outputDir schedule Pool.init = Some s
       ∧ Pool.dispatcher s = Pool.Done
       ∧ Pool.attempts s = []).
Proof.
  split.
  - intros s Hreach. apply (no_worker_no_attempt downloadURLs outputDir).
    now apply invariant_reachable.
  - destruct (run_to_completion 0 downloadURLs outputDir
                (Pool.fuel 0 downloadURLs Pool.init) Pool.init)
      as (schedule & s & Hrun & Hdone); [lia | apply invariant_init|].
    exists schedule, s. split; [exact Hrun|]. split; [exact Hdone|].
    apply (no_worker_no_attempt downloadURLs outputDir).
    apply (invariant_run 0 downloadURLs outputDir schedule Pool.init);
      [apply invariant_init | exact Hrun].
Qed.

(** ** Steps 1 and 2 of [main] *)

Section PreludeFacts.
Context `{Platform} `{!Host}.
Local Open Scope crawl_scope.

Lemma pagesRun_app (a b : list CrawlEvent) :
  pagesRun (a ++ b) = pagesRun a ++ pagesRun b.
Proof. apply flat_map_app. Qed.

Lemma contentsWritten_app (a b : list CrawlEvent) :
  contentsWritten (a ++ b) = contentsWritten a ++ contentsWritten b.
Proof. apply flat_map_app. Qed.

Lemma filesOpened_app (a b : list CrawlEvent) :
  filesOpened (a ++ b) = filesOpened a ++ filesOpened b.
Proof. apply flat_map_app. Qed.

(** What one pass through the page loop does: the events it adds, and the
    state it leaves. *)
Lemma scrapeStep_run (cfg : Config) (pageNumber : nat) (s : Session) :
  let s' := fst (scrapeStep cfg pageNumber s) in
  let answer := chromedp_Run (pageURLOf cfg pageNumber) (network (world s)) in
  network (world s') = fst answer
  ∧ trace (world s') = trace (world s)
  ∧ ∃ added,
      crawl s' = crawl s ++ EvRun (pageURLOf cfg pageNumber) :: added
      ∧ pagesRun added = []
      ∧ match snd answer with
        | Err _ => added = [] ∧ files (world s') = files (world s)
        | Ok pageHTML =>
            filesOpened added = [htmlOutputFilePath cfg]
            ∧ contentsWritten added `sublist_of` [pageHTML]
        end.
Proof.
  unfold scrapeStep, scrapePageHTMLWithChrome, appendTextToFile, Run, OpenFile,
    WriteString, onFiles, note, inWorld, log_Printf, cbind, cret, pageURLOf.
  cbn.
  destruct (chromedp_Run _ (network (world s))) as [net [pageHTML|err]]; cbn.
  - destruct (os_OpenFile _ (files (world s))) as [fs1 [err|]]; cbn.
    + repeat split. exists [EvOpenFile (htmlOutputFilePath cfg)].
      rewrite <- app_assoc. repeat split. cbn. apply sublist_nil_l.
    + destruct (file_WriteString _ pageHTML fs1) as [fs2 [err|]]; cbn;
        (repeat split;
         exists [EvOpenFile (htmlOutputFilePath cfg);
                 EvWriteString (htmlOutputFilePath cfg) pageHTML];
         rewrite <- !app_assoc; repeat split; cbn; reflexivity).
  - repeat split. exists []. repeat split.
Qed.

Lemma forPages_run (cfg : Config) (pages : list nat) (s : Session) :
  let s' := fst (forPages pages (scrapeStep cfg) s) in
  trace (world s') = trace (world s)
  ∧ ∃ added,
      crawl s' = crawl s ++ added
      ∧ pagesRun added = map (pageURLOf cfg) pages
      ∧ filesOpened added
        = map (fun _ => htmlOutputFilePath cfg)
            (rendered (map (pageURLOf cfg) pages) (network (world s)))
      ∧ contentsWritten added
        `sublist_of` rendered (map (pageURLOf cfg) pages) (network (world s))
      ∧ (rendered (map (pageURLOf cfg) pages) (network (world s)) = [] →
         files (world s') = files (world s)).
Proof.
  revert s. induction pages as [|pageNumber pages IH]; intros s.
  - cbn. split; [reflexivity|]. exists []. rewrite app_nil_r.
    repeat split. constructor.
  - destruct (scrapeStep cfg pageNumber s) as [s1 []] eqn:Hstep.
    assert (Hfor : forPages (pageNumber :: pages) (scrapeStep cfg) s
                   = forPages pages (scrapeStep cfg) s1)
      by (cbn [forPages]; unfold cbind; now rewrite Hstep).
    rewrite Hfor.
    pose proof (scrapeStep_run cfg pageNumber s) as Hone.
    rewrite Hstep in Hone. cbn [fst] in Hone.
    destruct Hone as (Hnet & Htrace & first & Hcrawl & Hruns & Hfirst).
    destruct (IH s1) as (Htrace' & later & Hcrawl' & Hruns' & Hopened & Hwritten
                         & Hfiles).
    cbv beta iota zeta. split; [congruence|].
    exists (EvRun (pageURLOf cfg pageNumber) :: first ++ later).
    split; [rewrite Hcrawl', Hcrawl, <- app_assoc; reflexivity|].
    cbn [map rendered].
    change (pagesRun (EvRun (pageURLOf cfg pageNumber) :: first ++ later))
      with (pageURLOf cfg pageNumber :: pagesRun (first ++ later)).
    change (filesOpened (EvRun (pageURLOf cfg pageNumber) :: first ++ later))
      with (filesOpened (first ++ later)).
    change (contentsWritten (EvRun (pageURLOf cfg pageNumber) :: first ++ later))
      with (contentsWritten (first ++ later)).
    rewrite pagesRun_app, filesOpened_app, contentsWritten_app, Hruns, Hruns'.
    rewrite Hnet in Hopened, Hwritten, Hfiles.
    destruct (chromedp_Run (pageURLOf cfg pageNumber) (network (world s)))
      as [net [pageHTML|err]]; cbn [fst snd] in *.
    + destruct Hfirst as [Hopen Hwrite]. rewrite Hopen, Hopened.
      repeat split; [| discriminate].
      change (pageHTML :: rendered (map (pageURLOf cfg) pages) net)
        with ([pageHTML] ++ rendered (map (pageURLOf cfg) pages) net).
      now apply sublist_app.
    + destruct Hfirst as [-> Hsame]. cbn [app filesOpened contentsWritten flat_map].
      repeat split; [exact Hopened | exact Hwritten|].
      intros Hnone. rewrite (Hfiles Hnone). exact Hsame.
Qed.

(** Step 2, run. *)
Lemma readAndExtract_run (cfg : Config) (s : Session) :
  let s' := fst (readAndExtract cfg s) in
  crawl s' = crawl s ++ [EvReadFile (htmlOutputFilePath cfg)]
  ∧ files (world s') = files (world s)
  ∧ network (world s') = network (world s)
  ∧ trace (world s') = trace (world s)
  ∧ snd (readAndExtract cfg s)
    = match os_ReadFile (htmlOutputFilePath cfg) (files (world s)) with
      | Ok htmlData => Dispatch (extractLinksFromHTML NewDocumentFromReader htmlData)
      | Err _ => Fatal
      end.
Proof.
  unfold readAndExtract, readEntireFile, ReadFile, note, inWorld, log_Printf,
    cbind, cret. cbn.
  destruct (os_ReadFile (htmlOutputFilePath cfg) (files (world s)));
    cbn; repeat split.
Qed.

(** Step 1, when the file is there and when it is not. *)
Lemma scrapeUnlessCached_hit (cfg : Config) (s : Session) :
  regularFileAt (htmlOutputFilePath cfg) (files (world s)) = true →
  scrapeUnlessCached cfg s
  = ({| world :=
          {| files := files (world s); network := network (world s);
             trace := trace (world s) ++ [EvStat (htmlOutputFilePath cfg)];
             logged := logged (world s)
                       ++ ["HTML file already exists. Skipping scraping."] |};
        crawl := crawl s |}, tt).
Proof.
  intros Hfile. unfold scrapeUnlessCached, inWorld, cbind at 1.
  rewrite fileExists_run, Hfile. reflexivity.
Qed.

Lemma scrapeUnlessCached_miss (cfg : Config) (s : Session) :
  regularFileAt (htmlOutputFilePath cfg) (files (world s)) = false →
  scrapeUnlessCached cfg s
  = forPages (pageNumbers cfg) (scrapeStep cfg)
      {| world :=
           {| files := files (world s); network := network (world s);
              trace := trace (world s) ++ [EvStat (htmlOutputFilePath cfg)];
              logged := logged (world s)
                        ++ ["HTML file not found. Starting scraping process..."] |};
         crawl := crawl s |}.
Proof.
  intros Hfile. unfold scrapeUnlessCached, inWorld, cbind at 1.
  rewrite fileExists_run, Hfile. reflexivity.
Qed.

Lemma mainPrelude_run (cfg : Config) (s : Session) :
  mainPrelude cfg s = readAndExtract cfg (fst (scrapeUnlessCached cfg s)).
Proof.
  unfold mainPrelude, cbind. now destruct (scrapeUnlessCached cfg s).
Qed.

(** X15: when a regular file is at [htmlOutputFilePath] nothing is scraped:
    the browser is not started and no file is opened or written; the one
    call to the host is the read of that file, after the one [os.Stat];
    the run stops ([log.Fatalf]) when the read fails and goes on to the
    pool with the links extracted from the content otherwise. *)
Theorem cached_html_is_not_scraped (cfg : Config) (s : Session) :
  regularFileAt (htmlOutputFilePath cfg) (files (world s)) = true →
  let s' := fst (mainPrelude cfg s) in
  crawl s' = crawl s ++ [EvReadFile (htmlOutputFilePath cfg)]
  ∧ files (world s') = files (world s)
  ∧ network (world s') = network (world s)
  ∧ trace (world s') = trace (world s) ++ [EvStat (htmlOutputFilePath cfg)]
  ∧ snd (mainPrelude cfg s)
    = match os_ReadFile (htmlOutputFilePath cfg) (files (world s)) with
      | Ok htmlData => Dispatch (extractLinksFromHTML NewDocumentFromReader htmlData)
      | Err _ => Fatal
      end.
Proof.
  intros Hfile. cbv zeta.
  rewrite mainPrelude_run, (scrapeUnlessCached_hit cfg s Hfile). cbn [fst].
  exact (readAndExtract_run cfg _).
Qed.

(** X16: when no regular file is at [htmlOutputFilePath] the browser is
    asked for every page from [startPage] up to, not including, [endPage],
    once each and in that order, at the address [basePageURL] followed by
    the page number in decimal, whether the pages before failed or not;
    then the file is read; no call of the downloader is made meanwhile. *)
Theorem missing_html_scrapes_every_page (cfg : Config) (s : Session) :
  regularFileAt (htmlOutputFilePath cfg) (files (world s)) = false →
  let s' := fst (mainPrelude cfg s) in
  pagesRun (crawl s')
  = pagesRun (crawl s) ++ map (pageURLOf cfg) (pageNumbers cfg)
  ∧ length (pagesRun (crawl s'))
    = length (pagesRun (crawl s)) + (endPage cfg - startPage cfg)
  ∧ last (crawl s') = Some (EvReadFile (htmlOutputFilePath cfg))
  ∧ trace (world s') = trace (world s) ++ [EvStat (htmlOutputFilePath cfg)].
Proof.
  intros Hfile. cbv zeta.
  rewrite mainPrelude_run, (scrapeUnlessCached_miss cfg s Hfile).
  match goal with
  | |- context [forPages _ _ ?s0] =>
      destruct (forPages_run cfg (pageNumbers cfg) s0)
        as (Htrace & added & Hcrawl & Hruns & _)
  end.
  destruct (readAndExtract_run cfg
              (fst (forPages (pageNumbers cfg) (scrapeStep cfg)
                 {| world :=
                      {| files := files (world s); network := network (world s);
                         trace := trace (world s)
                                  ++ [EvStat (htmlOutputFilePath cfg)];
                         logged := logged (world s)
                                   ++ ["HTML file not found. Starting scraping process..."] |};
                    crawl := crawl s |})))
    as (Hread & _ & _ & Htrace' & _).
  rewrite Hread, Htrace', Htrace, Hcrawl. cbn [crawl world trace].
  rewrite !pagesRun_app, Hruns. cbn [pagesRun flat_map]. rewrite app_nil_r.
  split; [reflexivity|]. split.
  - rewrite length_app, length_map. unfold pageNumbers. now rewrite length_seq.
  - split; [apply last_snoc | reflexivity].
Qed.

(** X17: what the scrape puts into the file is what the browser rendered:
    the file is opened for appending once for every page that rendered, in
    the order of the pages, and never for a page that failed; the
    contents written are rendered pages in their order (all of them,
    unless an open fails); and when no page renders the file system is
    left as it was, so that the read that follows decides the run. *)
Theorem scraped_pages_are_appended (cfg : Config) (s : Session) :
  regularFileAt (htmlOutputFilePath cfg) (files (world s)) = false →
  let s' := fst (mainPrelude cfg s) in
  let pages := rendered (map (pageURLOf cfg) (pageNumbers cfg)) (network (world s)) in
  filesOpened (crawl s')
  = filesOpened (crawl s) ++ map (fun _ => htmlOutputFilePath cfg) pages
  ∧ (∃ written,
       contentsWritten (crawl s') = contentsWritten (crawl s) ++ written
       ∧ written `sublist_of` pages)
  ∧ (pages = [] →
     files (world s') = files (world s)
     ∧ snd (mainPrelude cfg s)
       = match os_ReadFile (htmlOutputFilePath cfg) (files (world s)) with
         | Ok htmlData =>
             Dispatch (extractLinksFromHTML NewDocumentFromReader htmlData)
         | Err _ => Fatal
         end).
Proof.
  intros Hfile. cbv zeta.
  rewrite mainPrelude_run, (scrapeUnlessCached_miss cfg s Hfile).
  match goal with
  | |- context [forPages _ _ ?s0] =>
      destruct (forPages_run cfg (pageNumbers cfg) s0)
        as (_ & added & Hcrawl & _ & Hopened & Hwritten & Hfiles);
      destruct (readAndExtract_run cfg
                  (fst (forPages (pageNumbers cfg) (scrapeStep cfg) s0)))
        as (Hread & Hsame & _ & _ & Hresult)
  end.
  cbn [world network files crawl] in Hopened, Hwritten, Hfiles, Hcrawl.
  rewrite Hread, Hsame, Hresult, Hcrawl.
  rewrite !filesOpened_app, !contentsWritten_app, Hopened.
  cbn [filesOpened contentsWritten flat_map]. rewrite !app_nil_r.
  split; [reflexivity|]. split; [eauto|].
  intros Hnone. rewrite (Hfiles Hnone). split; reflexivity.
Qed.

End PreludeFacts.

Lemma cached_html_is_not_scraped_witness :
  let fs : gmap string Mem.node :=
    <["bio-rad-msds.html" := Mem.RegularFile mixedMarkup]> ∅ in
  let s := MemHost.session fs [] in
  let s' := fst (@mainPrelude Mem.platform MemHost.host configuration s) in
  crawl s' = [EvReadFile "bio-rad-msds.html"]
  ∧ files (world s') = fs
  ∧ trace (world s') = [EvStat "bio-rad-msds.html"].
Proof.
  intros fs s.
  destruct (@cached_html_is_not_scraped Mem.platform MemHost.host
              configuration s)
    as (Hcrawl & Hfiles & _ & Htrace & _); [vm_compute; reflexivity|].
  cbv zeta. rewrite Hcrawl, Hfiles, Htrace. repeat split.
Defined.

Lemma missing_html_scrapes_every_page_witness :
  let s := MemHost.session ∅ [Mem.found mixedMarkup; Mem.notFound] in
  let s' := fst (@mainPrelude Mem.platform MemHost.host configuration s) in
  length (pagesRun (crawl s')) = 10
  ∧ last (crawl s') = Some (EvReadFile "bio-rad-msds.html").
Proof.
  intros s.
  destruct (@missing_html_scrapes_every_page Mem.platform MemHost.host
              configuration s)
    as (_ & Hlength & Hlast & _); [vm_compute; reflexivity|].
  cbv zeta. rewrite Hlength, Hlast. split; reflexivity.
Defined.

Lemma scraped_pages_are_appended_witness :
  let s := MemHost.session ∅ [Mem.found mixedMarkup; Mem.notFound] in
  let s' := fst (@mainPrelude Mem.platform MemHost.host configuration s) in
  filesOpened (crawl s') = ["bio-rad-msds.html"; "bio-rad-msds.html"].
Proof.
  intros s.
  destruct (@scraped_pages_are_appended Mem.platform MemHost.host
              configuration s)
    as (Hopened & _); [vm_compute; reflexivity|].
  cbv zeta. rewrite Hopened. vm_compute. reflexivity.
Defined.

(** ** From the page to the download *)

Lemma extracted_allowed (parser : HTMLParser) (htmlContent : string) :
  Forall Spec.allowedLink (extractLinksFromHTML parser htmlContent).
Proof.
  unfold extractLinksFromHTML. destruct (parser htmlContent) as [doc|];
    [apply linksOfDocument_allowed | constructor].
Qed.

Lemma attempted_of_list (numberOfWorkers : nat) (downloadURLs : list string)
    (outputDir : string) (s : Pool.State) (a : Pool.Attempt) :
  Pool.invariant numberOfWorkers downloadURLs outputDir s →
  In a (Pool.attempts s) → In (Pool.downloadURL a) downloadURLs.
Proof.
  intros Hinv Hin.
  apply (Permutation_in _ (Permutation_sym (Pool.inv_urls _ _ _ _ Hinv))).
  apply List.in_or_app. left. now apply List.in_map.
Qed.

(** X18: the steps of [main] fit together: when steps 1 and 2 hand a list
    of URLs to the pool, every download attempt a worker ever makes is for
    a URL of that list, which starts with "http" and passes the allow-list
    check, goes to the configured output directory, and has a file name
    made of a stem of lower-case letters, digits and hyphens followed by
    ".pdf", so that the destination stays inside that directory. *)
Theorem dispatched_attempts_are_allowed `{Platform} `{!Host}
    (cfg : Config) (before after : Session) (downloadURLs : list string)
    (s : Pool.State) (a : Pool.Attempt) :
  mainPrelude cfg before = (after, Dispatch downloadURLs) →
  Pool.reachable (numberOfWorkers cfg) downloadURLs (outputDirectory cfg) s →
  In a (Pool.attempts s) →
  In (Pool.downloadURL a) downloadURLs
  ∧ strings_HasPrefix (Pool.downloadURL a) "http" = true
  ∧ isAllowed (Pool.downloadURL a) = true
  ∧ Pool.outputDirectory a = outputDirectory cfg
  ∧ ∃ stem, Pool.outputFileName a = stem +:+ ".pdf"
            ∧ string_forallb stemByte stem = true
            ∧ string_forallb
                (fun c => negb (unixSeparator c) && negb (windowsSeparator c))
                (Pool.outputFileName a) = true.
Proof.
  intros Hmain Hreach Hin.
  pose proof (invariant_reachable _ _ _ _ Hreach) as Hinv.
  pose proof (attempted_of_list _ _ _ _ _ Hinv Hin) as Hurl.
  assert (Hlinks : Forall Spec.allowedLink downloadURLs).
  { rewrite mainPrelude_run in Hmain.
    destruct (readAndExtract_run cfg (fst (scrapeUnlessCached cfg before)))
      as (_ & _ & _ & _ & Hresult).
    rewrite Hmain in Hresult. cbn [snd] in Hresult.
    destruct (os_ReadFile _ _) as [htmlData|err]; [|discriminate].
    injection Hresult as ->. apply extracted_allowed. }
  rewrite List.Forall_forall in Hlinks.
  destruct (Hlinks _ Hurl) as [Hprefix Hallowed].
  destruct (Pool.inv_attempts _ _ _ _ Hinv a Hin) as (_ & Hdir & Hname).
  repeat (split; [assumption|]).
  destruct (derived_name_stem (Pool.downloadURL a)) as (stem & Hstem & Hbytes).
  exists stem. rewrite Hname. split; [exact Hstem|]. split; [exact Hbytes|].
  rewrite Hstem, string_forallb_app. apply andb_true_iff. split.
  - apply (string_forallb_impl stemByte); [|exact Hbytes].
    intros c Hc. apply stemByte_not_separator. now rewrite Hc.
  - reflexivity.
Qed.

Lemma dispatched_attempts_are_allowed_witness :
  let fs : gmap string Mem.node :=
    <["bio-rad-msds.html" := Mem.RegularFile mixedMarkup]> ∅ in
  let before := MemHost.session fs [] in
  let schedule := replicate 42 Pool.Main ++ [Pool.WorkerNo 3; Pool.WorkerNo 3] in
  ∃ after downloadURLs s a,
    @mainPrelude Mem.platform MemHost.host configuration before
    = (after, Dispatch downloadURLs)
    ∧ Pool.run 20 downloadURLs "PDFs" schedule Pool.init = Some s
    ∧ Pool.attempts s = [a]
    ∧ Pool.worker a = 3
    ∧ isAllowed (Pool.downloadURL a) = true
    ∧ Pool.outputFileName a = "a-pdf.pdf".
Proof.
  intros fs before schedule.
  set (main := @mainPrelude Mem.platform MemHost.host configuration before).
  set (urls := extractLinksFromHTML (recordedParser recordedParses) mixedMarkup).
  assert (Hmain : main = (fst main, Dispatch urls)) by (vm_compute; reflexivity).
  destruct (Pool.run 20 urls "PDFs" schedule Pool.init) as [s|] eqn:Hrun;
    [|vm_compute in Hrun; discriminate].
  assert (Hreach : Pool.reachable 20 urls "PDFs" s) by now exists schedule.
  assert (Hs : Some s = Pool.run 20 urls "PDFs" schedule Pool.init)
    by now rewrite Hrun.
  vm_compute in Hs. injection Hs as Hs.
  exists (fst main), urls, s.
  eexists. split; [exact Hmain|]. split; [exact Hrun|].
  split; [rewrite Hs; reflexivity|].
  split; [reflexivity|].
  match goal with
  | |- isAllowed (Pool.downloadURL ?a) = true ∧ _ =>
      destruct (@dispatched_attempts_are_allowed Mem.platform MemHost.host
                  configuration before (fst main) urls s a Hmain Hreach)
        as (_ & _ & Hallowed & _); [rewrite Hs; now left|]
  end.
  split; [exact Hallowed|]. vm_compute. reflexivity.
Defined.

(** ** The log of a worker *)

Section WorkerLog.
Context `{Platform}.

Lemma workerBody_run (outputDirectory downloadURL : string) (w : World) :
  let w' := fst (workerBody outputDirectory downloadURL w) in
  (∃ line, logged w' = logged w ++ [line])
  ∧ fetches (trace w')
    = fetches (trace w)
      + (if regularFileAt
              (filepath_Join outputDirectory (createFileNameFromURL downloadURL))
              (files w)
         then 0 else 1).
Proof.
  destruct (downloadPDFFile downloadURL outputDirectory
              (createFileNameFromURL downloadURL) w) as [w1 e] eqn:Hcall.
  assert (Hbody : workerBody outputDirectory downloadURL w
                  = match e with
                    | Some err =>
                        log_Printf ("Download error for " +:+ downloadURL
                                    +:+ ": " +:+ err) w1
                    | None => (w1, tt)
                    end)
    by (unfold workerBody, bind; rewrite Hcall; now destruct e).
  rewrite Hbody. clear Hbody. cbv zeta.
  pose proof (download_fetches _ _ _ _ _ _ Hcall) as Hcount.
  revert Hcall. unfold downloadPDFFile, bind at 1. rewrite fileExists_run.
  destruct (regularFileAt _ (files w)).
  { intros [= <- <-]. cbn -[fetches] in *.
    split; [eexists; reflexivity | exact Hcount]. }
  unfold Get, MkdirAll, Create, Copy, log_Printf, bind, emit, ret.
  cbn -[fetches].
  destruct (http_Get downloadURL (network w)) as [net1 [resp|err]];
    cbn -[fetches].
  2:{ intros [= <- <-]. cbn -[fetches] in *.
    split; [eexists; reflexivity | exact Hcount]. }
  destruct (negb (StatusCode resp =? StatusOK)%Z); cbn -[fetches].
  { intros [= <- <-]. cbn -[fetches] in *.
    split; [eexists; reflexivity | exact Hcount]. }
  destruct (os_MkdirAll outputDirectory (files w)) as [fs2 [err|]];
    cbn -[fetches].
  { intros [= <- <-]. cbn -[fetches] in *.
    split; [eexists; reflexivity | exact Hcount]. }
  destruct (os_Create _ fs2) as [fs3 [err|]]; cbn -[fetches].
  { intros [= <- <-]. cbn -[fetches] in *.
    split; [eexists; reflexivity | exact Hcount]. }
  destruct (io_Copy _ (Body resp) (fs3, net1)) as [[fs4 net4] [err|]];
    cbn -[fetches]; intros [= <- <-]; cbn -[fetches] in *;
    (split; [eexists; reflexivity | exact Hcount]).
Qed.

(** X19: a worker leaves one line in the log for every URL it handles,
    whatever becomes of the download: the line of the skip, the line of
    the finished download, or the line of the error; and it fetches at
    most once per URL. *)
Theorem worker_logs_every_url (outputDirectory : string)
    (received : list string) (w : World) :
  let w' := fst (workerLoop outputDirectory received w) in
  length (logged w') = length (logged w) + length received
  ∧ fetches (trace w) ≤ fetches (trace w')
  ∧ fetches (trace w') ≤ fetches (trace w) + length received.
Proof.
  revert w. induction received as [|downloadURL later IH]; intros w.
  - cbn -[fetches]. lia.
  - destruct (workerBody outputDirectory downloadURL w) as [w1 []] eqn:Hbody.
    assert (Hloop : workerLoop outputDirectory (downloadURL :: later) w
                    = workerLoop outputDirectory later w1)
      by (cbn [workerLoop]; unfold bind; now rewrite Hbody).
    rewrite Hloop. cbv zeta.
    destruct (workerBody_run outputDirectory downloadURL w) as [[line Hlog] Hcount].
    rewrite Hbody in Hlog, Hcount. cbn [fst] in Hlog, Hcount.
    specialize (IH w1). cbv zeta in IH. destruct IH as (Hlen & Hlow & Hhigh).
    rewrite Hlog, length_app in Hlen. cbn [length] in Hlen |- *.
    destruct (regularFileAt _ (files w)); lia.
Qed.

End WorkerLog.
